(** * htsget: index resolution (csi binning, bcf index decoder, reference
    resolver, chunk request handler)

    A shallow embedding of the Go packages [csi], [bcf] and [api] and the
    properties of their functions.

    Machine integers are [Z] with the wrap-around of each Go type written
    out; byte streams are [list byte]; Go strings are [string] (a sequence
    of 8-bit characters, indexed by byte as in Go). *)

From Stdlib Require Import ZArith List Lia Bool String Ascii Sorted.
From coqutil Require Import Byte Word.LittleEndianList.
Import ListNotations.
Local Open Scope Z_scope.

(** ** Machine integers *)

Module Int.

Definition uint16 (z : Z) : Z := z mod 2 ^ 16.
Definition uint32 (z : Z) : Z := z mod 2 ^ 32.
Definition uint64 (z : Z) : Z := z mod 2 ^ 64.

(** Two's-complement reading of the low 32 bits. *)
Definition int32 (z : Z) : Z := (z + 2 ^ 31) mod 2 ^ 32 - 2 ^ 31.

(** [uint(x)] for a signed [x] on a 64-bit platform: sign extension, then
    the same bits read as unsigned. *)
Definition uint (z : Z) : Z := uint64 z.

(** [x >> s] on [uint]: a shift count of 64 or more gives 0. *)
Definition shr64 (x s : Z) : Z := if s <? 64 then Z.shiftr x s else 0.

(** [x << s] on [uint]: bits shifted out are lost, a count of 64 or more
    gives 0. *)
Definition shl64 (x s : Z) : Z := if s <? 64 then uint64 (Z.shiftl x s) else 0.

Definition maxUint64 : Z := 2 ^ 64 - 1.

End Int.
Import Int.

(** ** Package genomics: the queried region *)

Module genomics.

(** [genomics.Region], with the field types of the callers in the tests. *)
Record Region : Type := mkRegion {
  ReferenceID : Z;   (* int32; negative: all references *)
  Start : Z;         (* uint32 *)
  End : Z            (* uint32; 0: unbounded *)
}.

End genomics.

(** ** Package csi *)

Module csi.

Definition maximumReadLength : Z := Z.shiftl 1 29.

(** The virtual bin ID of the (unused) chunk metadata. *)
Definition MetadataBeanID : Z := 37450.

(** [RegionContainsBin]: [bins] holds [uint16] values; the conversion
    [uint32(id)] of such a value keeps it, so the comparison is on the
    values themselves. *)
Definition RegionContainsBin (region : genomics.Region) (referenceID : Z)
    (binID : Z) (bins : list Z) : bool :=
  if (genomics.ReferenceID region >=? 0)
     && negb (referenceID =? genomics.ReferenceID region)
  then false
  else if (genomics.Start region =? 0) && (genomics.End region =? 0)
  then true
  else existsb (fun id => id =? binID) bins.

(** The inner loop [for i := b; i <= e; i++ { bins = append(bins, uint16(i)) }]
    on [uint]. [None]: the loop has not finished within [fuel] steps. *)
Fixpoint binsLoop (fuel : nat) (i e : Z) : option (list Z) :=
  match fuel with
  | O => None
  | S fuel' =>
      if i <=? e then
        match binsLoop fuel' (uint64 (i + 1)) e with
        | Some bins => Some (uint16 i :: bins)
        | None => None
        end
      else Some []
  end.

(** The level loop
    [for l, t, s := uint(0), uint(0), uint(minShift+depth*3); l <= uint(depth); l++].
    [udepth] is [uint(depth)]; [inner] is the fuel of each inner loop. *)
Fixpoint levelLoop (fuel inner : nat) (start end_ udepth l t s : Z)
    : option (list Z) :=
  match fuel with
  | O => None
  | S fuel' =>
      if l <=? udepth then
        let b := uint64 (t + shr64 start s) in
        let e := uint64 (t + shr64 end_ s) in
        match binsLoop inner b e with
        | None => None
        | Some level =>
            match levelLoop fuel' inner start end_ udepth
                    (uint64 (l + 1))
                    (uint64 (t + shl64 1 (uint64 (l * 3))))
                    (uint64 (s - 3)) with
            | Some rest => Some (level ++ rest)
            | None => None
            end
        end
      else Some []
  end.

(** [BinsForRange(start, end uint32, minShift, depth int32) []uint16].
    [None]: the loops have not finished within [fuel] steps each. *)
Definition BinsForRange (fuel : nat) (start end_ minShift depth : Z)
    : option (list Z) :=
  let end_ := if (end_ =? 0) || (end_ >? maximumReadLength)
              then maximumReadLength else end_ in
  if end_ <=? start then Some []
  else if start >? maximumReadLength then Some []
  else
    let end_ := uint32 (end_ - 1) in
    levelLoop fuel fuel start end_ (uint depth) 0 0
      (uint (int32 (minShift + depth * 3))).

End csi.

(** ** Errors and outcomes *)

(** Go error values. [Errorf msg e] is [fmt.Errorf("msg: %v", e)];
    [New msg] is an error made of a message alone. *)
Inductive error : Type :=
| EOF                                   (* io.EOF *)
| ErrUnexpectedEOF                      (* io.ErrUnexpectedEOF *)
| ErrTooLong                            (* bufio.ErrTooLong *)
| ErrSyntax (num : string)              (* strconv.ErrSyntax *)
| ErrRange (num : string)               (* strconv.ErrRange *)
| WrongMagic (got want : list byte)
| New (msg : string)
| Errorf (msg : string) (cause : error)
| StorageError (op : string) (cause : error)
| External (msg : string).              (* an error of a collaborator *)

(** What a call does: return a value, return an error, panic, or not
    return within the fuel given to its loops. *)
Inductive outcome (A : Type) : Type :=
| Ok (a : A)
| Err (e : error)
| Panic (msg : string)
| OutOfFuel.
Arguments Ok {A} a.
Arguments Err {A} e.
Arguments Panic {A} msg.
Arguments OutOfFuel {A}.

(** ** Reading from a byte stream

    An [io.Reader] over a finite stream is the list of the bytes still to
    come; a read returns its value and the rest of the stream. *)

Module binary.

Definition M (A : Type) : Type := list byte -> outcome (A * list byte).

Definition ret {A} (a : A) : M A := fun s => Ok (a, s).

Definition bind {A B} (m : M A) (k : A -> M B) : M B :=
  fun s =>
    match m s with
    | Ok (a, s') => k a s'
    | Err e => Err e
    | Panic msg => Panic msg
    | OutOfFuel => OutOfFuel
    end.

(** [if err != nil { return nil, fmt.Errorf("msg: %v", err) }] *)
Definition wrap {A} (msg : string) (m : M A) : M A :=
  fun s =>
    match m s with
    | Err e => Err (Errorf msg e)
    | r => r
    end.

(** [io.ReadFull] of [n] bytes: [EOF] when nothing is left, and
    [ErrUnexpectedEOF] when the stream ends inside the [n] bytes. *)
Definition readFull (n : nat) : M (list byte) :=
  fun s =>
    if (n <=? List.length s)%nat then Ok (firstn n s, skipn n s)
    else match s with
         | [] => Err EOF
         | _ :: _ => Err ErrUnexpectedEOF
         end.

(** Modelled from the spec: [binary.Read] of package [internal/binary], whose
    file is not among the sources; section 6 (fixed-size little-endian
    fields), as [common.Read] does it with
    [binary.Read(r, binary.LittleEndian, v)]. *)
Definition readUint32 : M Z :=
  bind (readFull 4) (fun bs => ret (le_combine bs)).

Definition readInt32 : M Z :=
  bind (readFull 4) (fun bs => ret (int32 (le_combine bs))).

(** Modelled from the spec: [binary.ExpectBytes], whose file is not among the
    sources; section 4.3 step 1 (verify a fixed magic byte sequence, format
    error with the bytes observed if mismatched), as [common.CheckMagic]
    does it. *)
Definition ExpectBytes (want : list byte) : M unit :=
  bind (wrap "reading magic" (readFull (List.length want))) (fun got =>
    if list_eq_dec Byte.byte_eq_dec got want then ret tt
    else fun _ => Err (WrongMagic got want)).

(** [io.CopyN(ioutil.Discard, r, n)]: copies through a reader limited to
    [n] bytes; [n <= 0] copies nothing and is no error, a stream that ends
    before [n] bytes is [EOF]. *)
Definition discardN (n : Z) : M unit :=
  fun s =>
    if n <=? 0 then Ok (tt, s)
    else if n <=? Z.of_nat (List.length s) then Ok (tt, skipn (Z.to_nat n) s)
    else Err EOF.

End binary.

(** ** Package common *)

Module common.

Import binary.

(** The loop [for i, n := 0, len(want); i < n; i++] of [CheckMagic]: whether
    some [got[i]] differs from [want[i]]. *)
Fixpoint differ (got want : list byte) : bool :=
  match got, want with
  | g :: got', w :: want' => if Byte.eqb g w then differ got' want' else true
  | _, _ => false
  end.

(** [CheckMagic(r, want)]: reads [len(want)] bytes into [got] and compares
    them with [want]. *)
Definition CheckMagic (want : list byte) : M unit :=
  bind (wrap "reading magic" (readFull (List.length want))) (fun got =>
    if differ got want then fun _ => Err (WrongMagic got want)
    else ret tt).

End common.

(** ** Package bgzf *)

Module bgzf.

(** Modelled from the spec: [bgzf.Chunk] and [bgzf.LastAddress], whose file
    is not among the sources; section 3 (a chunk is two virtual offsets,
    each an unsigned 64-bit value; a reserved maximal value denotes an
    unbounded end). *)
Record Chunk : Type := mkChunk {
  Start : Z;   (* Address, uint64 *)
  End : Z      (* Address, uint64 *)
}.

Definition LastAddress : Z := maxUint64.

End bgzf.

(** ** The heap of chunks

    [Read] returns [[]*bgzf.Chunk]: pointers. The header chunk is written
    through its pointer after that pointer is stored in the result, so the
    model keeps the store the pointers point into. *)

Module Heap.

Definition ptr : Type := nat.
Definition heap : Type := list bgzf.Chunk.

(** [&bgzf.Chunk{...}]: a fresh cell. *)
Definition new (h : heap) (c : bgzf.Chunk) : ptr * heap :=
  (List.length h, h ++ [c]).

Definition load (h : heap) (p : ptr) : option bgzf.Chunk := nth_error h p.

(** [p.End = v] *)
Fixpoint storeEnd (h : heap) (p : ptr) (v : Z) : heap :=
  match h, p with
  | [], _ => []
  | c :: h', O => bgzf.mkChunk (bgzf.Start c) v :: h'
  | c :: h', S p' => c :: storeEnd h' p' v
  end.

(** The chunks a list of pointers denotes; [None] on a dangling pointer. *)
Fixpoint deref (h : heap) (ps : list ptr) : option (list bgzf.Chunk) :=
  match ps with
  | [] => Some []
  | p :: ps' =>
      match load h p, deref h ps' with
      | Some c, Some cs => Some (c :: cs)
      | _, _ => None
      end
  end.

End Heap.

(** ** Package bcf *)

Module bcf.

Import binary.

(** ["BCF\x02\x02"] and ["CSI\x01"] *)
Definition bcfMagic : list byte := [Byte.x42; Byte.x43; Byte.x46; Byte.x02; Byte.x02].
Definition csiMagic : list byte := [Byte.x43; Byte.x53; Byte.x49; Byte.x01].

(** *** The index decoder *)

(** The two variables [Read] updates in its loops. *)
Record state : Type := mkState {
  chunks : list Heap.ptr;   (* chunks []*bgzf.Chunk *)
  mem : Heap.heap
}.

(** The bin record read in one piece: [ID uint32; Offset uint64; Chunks int32]. *)
Record binHeader : Type := mkBin {
  ID : Z;
  Offset : Z;
  Chunks : Z
}.

Definition readBin : M binHeader :=
  bind (readFull 16) (fun bs =>
    ret (mkBin (le_combine (firstn 4 bs))
               (le_combine (firstn 8 (skipn 4 bs)))
               (int32 (le_combine (skipn 12 bs))))).

(** A chunk record: [Start], then [End], 8 bytes each. *)
Definition readChunk : M bgzf.Chunk :=
  bind (readFull 16) (fun bs =>
    ret (bgzf.mkChunk (le_combine (firstn 8 bs)) (le_combine (skipn 8 bs)))).

(** The body of the loop over the chunk records of a bin. *)
Definition chunkBody (header : Heap.ptr) (includeChunks : bool) (bin : binHeader)
    (st : state) : M state :=
  bind (wrap "reading chunk" readChunk) (fun chunk =>
    if ID bin =? csi.MetadataBeanID then ret st
    else
      let st1 :=
        if includeChunks && (bgzf.End chunk >=? Offset bin)
        then let (p, h) := Heap.new (mem st) chunk in
             mkState (chunks st ++ [p]) h
        else st in
      match Heap.load (mem st1) header with
      | None => fun _ => Panic "nil pointer dereference"
      | Some hd =>
          if bgzf.End hd >? bgzf.Start chunk
          then ret (mkState (chunks st1)
                            (Heap.storeEnd (mem st1) header (bgzf.Start chunk)))
          else ret st1
      end).

(** [for k := int32(0); k < bin.Chunks; k++]: [n] is the number of
    iterations, [Z.to_nat bin.Chunks]. *)
Fixpoint chunkLoop (n : nat) (header : Heap.ptr) (includeChunks : bool)
    (bin : binHeader) (st : state) : M state :=
  match n with
  | O => ret st
  | S n' =>
      bind (chunkBody header includeChunks bin st)
           (chunkLoop n' header includeChunks bin)
  end.

(** [for j := int32(0); j < binCount; j++] *)
Fixpoint binLoop (n : nat) (region : genomics.Region) (bins : list Z)
    (reference : Z) (header : Heap.ptr) (st : state) : M state :=
  match n with
  | O => ret st
  | S n' =>
      bind (wrap "reading bin header" readBin) (fun bin =>
        let includeChunks :=
          csi.RegionContainsBin region reference (ID bin) bins in
        bind (chunkLoop (Z.to_nat (Chunks bin)) header includeChunks bin st)
             (binLoop n' region bins reference header))
  end.

(** [for reference := int32(0); reference < refCount; reference++] *)
Fixpoint refLoop (n : nat) (region : genomics.Region) (bins : list Z)
    (reference : Z) (header : Heap.ptr) (st : state) : M state :=
  match n with
  | O => ret st
  | S n' =>
      bind (wrap "reading bin count" readInt32) (fun binCount =>
        bind (binLoop (Z.to_nat binCount) region bins reference header st)
             (refLoop n' region bins (reference + 1) header))
  end.

(** [Read(csiFile, region)]. [csiFile] is the stream the gzip reader
    delivers (the decompressed index); [fuel] bounds the loops of
    [BinsForRange]. The result is the slice of pointers and the heap they
    point into. *)
Definition Read (fuel : nat) (csiFile : list byte) (region : genomics.Region)
    : outcome (list Heap.ptr * Heap.heap) :=
  let body : M (list Heap.ptr * Heap.heap) :=
    bind (wrap "checking magic" (ExpectBytes csiMagic)) (fun _ =>
    bind (wrap "reading # bits for the minimal interval (min_shift)" readInt32)
      (fun minShift =>
    bind (wrap "reading depth of binary index" readInt32) (fun depth =>
    match csi.BinsForRange fuel (genomics.Start region) (genomics.End region)
            minShift depth with
    | None => fun _ => OutOfFuel
    | Some bins =>
        bind (wrap "reading length of auxiliary data" readInt32) (fun laux =>
        bind (wrap "reading past auxiliary data" (discardN laux)) (fun _ =>
        let (header, h) :=
          Heap.new [] (bgzf.mkChunk 0 bgzf.LastAddress) in
        let st := mkState [header] h in
        bind (wrap "reading the number of reference sequences" readInt32)
          (fun refCount =>
        bind (refLoop (Z.to_nat refCount) region bins 0 header st) (fun st' =>
        ret (chunks st', mem st')))))
    end))) in
  match body csiFile with
  | Ok (r, _) => Ok r
  | Err e => Err e
  | Panic msg => Panic msg
  | OutOfFuel => OutOfFuel
  end.

(** The chunk values [Read] returns, read through the pointers. *)
Definition ReadChunks (fuel : nat) (csiFile : list byte)
    (region : genomics.Region) : outcome (list bgzf.Chunk) :=
  match Read fuel csiFile region with
  | Ok (ps, h) =>
      match Heap.deref h ps with
      | Some cs => Ok cs
      | None => Panic "nil pointer dereference"
      end
  | Err e => Err e
  | Panic msg => Panic msg
  | OutOfFuel => OutOfFuel
  end.

(** *** The reference resolver *)

Local Open Scope string_scope.

(** [s[n:]] *)
Fixpoint skip (n : nat) (s : string) : string :=
  match n, s with
  | O, _ => s
  | S n', String _ s' => skip n' s'
  | S _, EmptyString => EmptyString
  end.

(** [contigDefinesReference(contig, refName)]; [contig[i]] past the end of
    the string panics. *)
Definition contigDefinesReference (contig refName : string) : outcome bool :=
  match String.index 0 ("ID=" ++ refName) contig with
  | None => Ok false
  | Some index =>
      match String.get (index + String.length "ID=" + String.length refName)
              contig with
      | None => Panic "index out of range"
      | Some nextChr =>
          if negb (Ascii.eqb nextChr ",") && negb (Ascii.eqb nextChr ">")
          then Ok false
          else Ok true
      end
  end.

(** The loop of [getIdx] that copies the characters before the next [','] or
    ['>'] into [buff]. *)
Fixpoint fieldValue (s : string) : string :=
  match s with
  | EmptyString => EmptyString
  | String chr s' =>
      if Ascii.eqb chr "," || Ascii.eqb chr ">" then EmptyString
      else String chr (fieldValue s')
  end.

Definition digit (c : ascii) : option Z :=
  let n := Z.of_N (N_of_ascii c) in
  if (48 <=? n)%Z && (n <=? 57)%Z then Some (n - 48)%Z else None.

(** What [strconv] reports of a text that is no number of the type. *)
Inductive numError : Type :=
| syntaxError    (* strconv.ErrSyntax *)
| rangeError.    (* strconv.ErrRange *)

(** The loop of [strconv.ParseUint] in base 10 over 64 bits, [n] being the
    value of the digits read so far. The characters are taken from the left:
    one that is no digit is a syntax error; the value leaving 64 bits is a
    range error at the digit where it does, whatever follows that digit. *)
Fixpoint parseUint (s : string) (n : Z) : Z + numError :=
  match s with
  | EmptyString => inl n
  | String c s' =>
      match digit c with
      | None => inr syntaxError
      | Some d =>
          if (maxUint64 / 10 + 1 <=? n)%Z then inr rangeError
          else
            let n1 := (n * 10 + d)%Z in
            if (maxUint64 <? n1)%Z then inr rangeError
            else parseUint s' n1
      end
  end.

(** [strconv.Atoi] where [int] has 64 bits: an optional sign, then one or
    more decimal digits, read by [ParseUint]; the value must be below
    [2^63], or at most [2^63] after a minus sign. The error names the
    whole text. *)
Definition Atoi (s : string) : outcome Z :=
  let '(neg, ds) :=
    match s with
    | String "+" r => (false, r)
    | String "-" r => (true, r)
    | _ => (false, s)
    end in
  match ds with
  | EmptyString => Err (ErrSyntax s)
  | _ =>
      match parseUint ds 0 with
      | inr syntaxError => Err (ErrSyntax s)
      | inr rangeError => Err (ErrRange s)
      | inl un =>
          if neg then
            if (2 ^ 63 <? un)%Z then Err (ErrRange s) else Ok (- un)%Z
          else
            if (2 ^ 63 <=? un)%Z then Err (ErrRange s) else Ok un
      end
  end.

(** [getIdx(contig)] *)
Definition getIdx (contig : string) : outcome Z :=
  match String.index 0 "IDX=" contig with
  | None => Ok (-1)%Z
  | Some index =>
      let buff := fieldValue (skip (index + String.length "IDX=") contig) in
      match Atoi buff with
      | Ok idx => Ok idx
      | Err e => Err (Errorf "parsing IDX value" e)
      | Panic msg => Panic msg
      | OutOfFuel => OutOfFuel
      end
  end.

(** The pieces of [s] between line feeds; the last piece is what follows
    the last line feed. *)
Fixpoint pieces (s : string) : list string :=
  match s with
  | EmptyString => [EmptyString]
  | String c s' =>
      if Ascii.eqb c "010" then EmptyString :: pieces s'
      else match pieces s' with
           | p :: ps => String c p :: ps
           | [] => [String c EmptyString]
           end
  end.

(** The tokens [bufio.ScanLines] cuts, before the carriage return is
    dropped: every terminated line, and the unterminated rest when it is
    not empty. *)
Definition rawLines (s : string) : list string :=
  let ps := pieces s in
  match last ps EmptyString with
  | EmptyString => removelast ps
  | _ => ps
  end.

(** [dropCR]: one trailing carriage return is removed. *)
Fixpoint dropCR (s : string) : string :=
  match s with
  | EmptyString => EmptyString
  | String c EmptyString => if Ascii.eqb c "013" then EmptyString else s
  | String c s' => String c (dropCR s')
  end.

(** [bufio.MaxScanTokenSize], the size the scanner's buffer grows to. *)
Definition MaxScanTokenSize : Z := 64 * 1024.

(** Whether the scanner stops at the token [raw] with [ErrTooLong]. It does
    when its buffer is full, holds no line feed, and the end of the stream
    has not been reported. A line with its line feed among the first
    [MaxScanTokenSize] bytes is cut before that; so is a shorter last line
    without a line feed, since the read that follows reports the end. A
    last line of just [MaxScanTokenSize] bytes without a line feed fills
    the buffer: it is a token when the end of the stream was reported
    together with its last bytes ([atEnd]), and too long when the end would
    only be reported by a further read. *)
Definition tooLong (atEnd : bool) (raw : string) : bool :=
  if atEnd then (MaxScanTokenSize <? Z.of_nat (String.length raw))%Z
  else (MaxScanTokenSize <=? Z.of_nat (String.length raw))%Z.

(** Whether [s] ends in a line without a line feed. *)
Definition unterminated (s : string) : bool :=
  match last (pieces s) EmptyString with
  | EmptyString => false
  | String _ _ => true
  end.

(** The [for scanner.Scan()] loop and what follows it, over the tokens still
    to come. [final] says that the last token is a line without a line feed
    and that the end of the stream is reported together with its last
    bytes. *)
Fixpoint scanLoop (final : bool) (tokens : list string)
    (referenceName : string) (id : Z) (contigsFound : bool) : outcome Z :=
  match tokens with
  | [] => Err (New "region id not found")
  | raw :: rest =>
      if tooLong (final && match rest with [] => true | _ :: _ => false end)
           raw
      then Err (Errorf "scanning header" ErrTooLong)
      else
        let line := dropCR raw in
        if String.prefix "##contig" line then
          match contigDefinesReference line referenceName with
          | Ok true =>
              match getIdx line with
              | Ok idx => if (idx >? -1)%Z then Ok idx else Ok id
              | Err e => Err (Errorf "getting idx" e)
              | Panic msg => Panic msg
              | OutOfFuel => OutOfFuel
              end
          | Ok false => scanLoop final rest referenceName (id + 1)%Z true
          | Err e => Err e
          | Panic msg => Panic msg
          | OutOfFuel => OutOfFuel
          end
        else if contigsFound then Err (New "reference name not found")
        else scanLoop final rest referenceName id contigsFound
  end.

(** [GetReferenceID(bcf, referenceName)]. [bcf] is the stream the gzip
    reader delivers. [eofWithData] is how that reader reports the end of
    the stream, which an [io.Reader] may do in two ways: together with the
    last bytes (the gzip reader does so when the last block of the last
    member holds them), or by a read of its own that delivers nothing (as
    after an empty last block or member). The scanner reads through
    [io.LimitReader], at most [length] bytes: when bytes follow the header
    the limited reader reports the end on a read of its own, otherwise it
    hands on what the gzip reader reports. *)
Definition GetReferenceIDFrom (eofWithData : bool) (bcf : list byte)
    (referenceName : string) : outcome Z :=
  match bind (wrap "checking magic of BCF file" (ExpectBytes bcfMagic))
          (fun _ => wrap "reading header length" readUint32) bcf with
  | Ok (length, rest) =>
      let header := string_of_list_byte (firstn (Z.to_nat length) rest) in
      let final :=
        eofWithData && (List.length rest <=? Z.to_nat length)%nat
        && unterminated header in
      scanLoop final (rawLines header) referenceName 0 false
  | Err e => Err e
  | Panic msg => Panic msg
  | OutOfFuel => OutOfFuel
  end.

(** [GetReferenceID] on a file whose end the gzip reader reports together
    with the last bytes. *)
Definition GetReferenceID (bcf : list byte) (referenceName : string)
    : outcome Z :=
  GetReferenceIDFrom true bcf referenceName.

End bcf.

(** Whether the character [c] occurs in [s]. *)
Fixpoint hasChar (c : ascii) (s : string) : bool :=
  match s with
  | EmptyString => false
  | String b s' => Ascii.eqb b c || hasChar c s'
  end.

(** ** Package bcf, the later revision

    The second file of the package replaces [contigDefinesReference] by
    [contigField]. Its text holds the two sides of a merge that was not
    resolved; where they differ the side is named. *)

Module bcfRevised.

Local Open Scope string_scope.

(** [GetIndexNames(object)] (side HEAD) and [strings.TrimSuffix]. *)
Definition HasSuffix (s suffix : string) : bool :=
  (String.length suffix <=? String.length s)%nat
  && String.eqb (bcf.skip (String.length s - String.length suffix) s) suffix.

Definition TrimSuffix (s suffix : string) : string :=
  if HasSuffix s suffix
  then String.substring 0 (String.length s - String.length suffix) s
  else s.

Definition GetIndexNames (object : string) : list string :=
  [object ++ ".csi"; TrimSuffix object ".bcf.gz" ++ ".csi"].

Definition isDelimiter (chr : ascii) : bool :=
  Ascii.eqb chr "," || Ascii.eqb chr "<".

(** [strings.IndexAny(s, chars)]: the index of the first character of [s]
    that is one of [chars]. *)
Fixpoint IndexAny (s chars : string) : option nat :=
  match s with
  | EmptyString => None
  | String c s' =>
      if hasChar c chars then Some 0%nat
      else option_map S (IndexAny s' chars)
  end.

(** Side serveVariants2:
    [skip := start > 0 && !isDelimiter(input[start-1])]. *)
Definition skipOccurrence (start : nat) (input : string) : outcome bool :=
  if (0 <? start)%nat then
    match String.get (start - 1) input with
    | Some chr => Ok (negb (isDelimiter chr))
    | None => Panic "index out of range"
    end
  else Ok false.

(** Side HEAD:
    [wholeWord := start == 0 || isDelimiter(input[start-1])], and the
    occurrence is passed over when [!wholeWord]. *)
Definition wholeWord (start : nat) (input : string) : outcome bool :=
  if (start =? 0)%nat then Ok true
  else match String.get (start - 1) input with
       | Some chr => Ok (isDelimiter chr)
       | None => Panic "index out of range"
       end.

(** The [for] loop of [contigField(input, name)], with [field] for
    [name + "="]. [OutOfFuel]: the loop has not finished within [fuel]
    turns. *)
Fixpoint contigFieldLoop (fuel : nat) (input field : string)
    : outcome string :=
  match fuel with
  | O => OutOfFuel
  | S fuel' =>
      match String.index 0 field input with
      | None => Ok ""
      | Some start =>
          match skipOccurrence start input with
          | Ok skip =>
              if (start + String.length field <=? String.length input)%nat
              then
                let input' := bcf.skip (start + String.length field) input in
                if skip then contigFieldLoop fuel' input' field
                else match IndexAny input' ",>" with
                     | Some (S end') =>
                         Ok (String.substring 0 (S end') input')
                     | _ => Ok input'
                     end
              else Panic "slice bounds out of range"
          | Err e => Err e
          | Panic msg => Panic msg
          | OutOfFuel => OutOfFuel
          end
      end
  end.

(** [contigField(input, name)]. Every turn of the loop drops at least one
    character of [input], so one turn more than its length is enough. *)
Definition contigField (input name : string) : outcome string :=
  contigFieldLoop (S (String.length input)) input (name ++ "=").

End bcfRevised.

(** ** Package api *)

Module api.

Section ChunksRequest.

(** [*storage.Reader]; a nil pointer is [None]. *)
Variable Reader : Type.

(** [bgzf.Merge], whose file is not among the sources. *)
Variable Merge : list bgzf.Chunk -> Z -> list bgzf.Chunk.

(** [*storage.ObjectHandle]: the object's name and what [NewReader] does
    on it, a reader or an error (with a nil reader). *)
Record ObjectHandle : Type := mkObject {
  objectName : string;
  NewReader : Reader + error
}.

Record chunksRequest : Type := mkRequest {
  indexObjects : list ObjectHandle;
  blockSizeLimit : Z;
  region : genomics.Region;
  read : option Reader -> genomics.Region -> outcome (list bgzf.Chunk)
}.

(** The calls [handle] makes on its collaborators, in order. *)
Inductive event : Type :=
| CallNewReader (object : ObjectHandle)
| CallRead (index : option Reader)
| CallClose (index : option Reader).

(** [for _, object := range req.indexObjects { index, err = object.NewReader(ctx); if err == nil { break } }] *)
Fixpoint openLoop (objects : list ObjectHandle) (index : option Reader)
    (err : option error) (trace : list event)
    : option Reader * option error * list event :=
  match objects with
  | [] => (index, err, trace)
  | object :: rest =>
      match NewReader object with
      | inl r => (Some r, None, trace ++ [CallNewReader object])
      | inr e => openLoop rest None (Some e) (trace ++ [CallNewReader object])
      end
  end.

(** Modelled from the spec: [newStorageError], whose file is not among the
    sources; section 7 (a storage-access error wraps the underlying
    failure). *)
Definition newStorageError (op : string) (err : error) : error :=
  StorageError op err.

(** [(req *chunksRequest) handle(ctx)]: the result and the calls made. The
    deferred [index.Close()] runs after [req.read], also when [req.read]
    panics. The method [Close] of [storage.Reader] reads a field of its
    receiver: on the nil reader it panics, and that panic is what [handle] ends with in place
    of the values it was about to return. *)
Definition handle (req : chunksRequest)
    : outcome (list bgzf.Chunk) * list event :=
  let '(index, err, trace) := openLoop (indexObjects req) None None [] in
  match err with
  | Some e => (Err (newStorageError "opening index" e), trace)
  | None =>
      let trace' := trace ++ [CallRead index; CallClose index] in
      match index with
      | Some _ =>
          match read req index (region req) with
          | Ok chunks => (Ok (Merge chunks (blockSizeLimit req)), trace')
          | Err e => (Err (Errorf "reading index" e), trace')
          | Panic msg => (Panic msg, trace')
          | OutOfFuel => (OutOfFuel, trace')
          end
      | None =>
          match read req index (region req) with
          | OutOfFuel => (OutOfFuel, trace')
          | Ok _ | Err _ | Panic _ =>
              (Panic "nil pointer dereference", trace')
          end
      end
  end.

End ChunksRequest.

Arguments mkObject {Reader} objectName NewReader.
Arguments objectName {Reader} o.
Arguments NewReader {Reader} o.
Arguments mkRequest {Reader} indexObjects blockSizeLimit region read.
Arguments indexObjects {Reader} c.
Arguments blockSizeLimit {Reader} c.
Arguments region {Reader} c.
Arguments read {Reader} c index region.
Arguments CallNewReader {Reader} object.
Arguments CallRead {Reader} index.
Arguments CallClose {Reader} index.
Arguments openLoop {Reader} objects index err trace.
Arguments handle {Reader} Merge req.

(** [NewReader] fails on the object. *)
Definition failsToOpen {Reader : Type} (object : ObjectHandle Reader) : Prop :=
  exists e, NewReader object = inr e.

End api.

(** ** Closed forms used to state what [BinsForRange] returns *)

(** [zrange b n] is [b; b+1; ...; b+n-1]. *)
Fixpoint zrange (b : Z) (n : nat) : list Z :=
  match n with
  | O => []
  | S n' => b :: zrange (b + 1) n'
  end.

(** The inclusive range [lo .. hi], ascending; empty when [hi < lo]. *)
Definition interval (lo hi : Z) : list Z := zrange lo (Z.to_nat (hi - lo + 1)).

(** The cumulative bin-id base of level [l]: 0, 1, 9, 73, 585, 4681, ... *)
Fixpoint levelBase (l : nat) : Z :=
  match l with
  | O => 0
  | S k => levelBase k + 8 ^ Z.of_nat k
  end.

(** The shift of level [l]. *)
Definition levelShift (minShift depth : Z) (l : nat) : Z :=
  minShift + (depth - Z.of_nat l) * 3.

(** [end] after the clamp at the top of [BinsForRange]. *)
Definition clampEnd (end_ : Z) : Z :=
  if (end_ =? 0) || (end_ >? csi.maximumReadLength)
  then csi.maximumReadLength else end_.

(** The untruncated bin ids of level [l] for the coordinates [start .. last]. *)
Definition levelIds (start last minShift depth : Z) (l : nat) : list Z :=
  interval (levelBase l + Z.shiftr start (levelShift minShift depth l))
           (levelBase l + Z.shiftr last (levelShift minShift depth l)).

(** All levels [0 .. depth], coarsest first. *)
Definition allLevelIds (start last minShift depth : Z) : list Z :=
  flat_map (levelIds start last minShift depth) (seq 0 (Z.to_nat depth + 1)).

(** ** The index a well-formed stream encodes

    The coordinate index format: the magic, [minShift], [depth], the
    auxiliary data with its length, then per reference its bins, and per bin
    its id, offset and chunk records; integers are little-endian, counts are
    signed 32-bit. *)

Module Index.

Record Bin : Type := mkBin {
  id : Z;                      (* uint32 *)
  offset : Z;                  (* uint64 *)
  chunks : list bgzf.Chunk
}.

Record t : Type := mkIndex {
  minShift : Z;                (* int32 *)
  depth : Z;                   (* int32 *)
  aux : list byte;
  refs : list (list Bin)       (* per reference, its bins in file order *)
}.

Definition encodeChunk (c : bgzf.Chunk) : list byte :=
  le_split 8 (bgzf.Start c) ++ le_split 8 (bgzf.End c).

Definition encodeBin (b : Bin) : list byte :=
  le_split 4 (id b) ++ le_split 8 (offset b)
  ++ le_split 4 (Z.of_nat (List.length (chunks b)))
  ++ flat_map encodeChunk (chunks b).

Definition encodeRef (bins : list Bin) : list byte :=
  le_split 4 (Z.of_nat (List.length bins)) ++ flat_map encodeBin bins.

Definition encode (i : t) : list byte :=
  bcf.csiMagic ++ le_split 4 (minShift i) ++ le_split 4 (depth i)
  ++ le_split 4 (Z.of_nat (List.length (aux i))) ++ aux i
  ++ le_split 4 (Z.of_nat (List.length (refs i)))
  ++ flat_map encodeRef (refs i).

(** Every field fits its type, and the depth is not negative. *)
Definition wfChunk (c : bgzf.Chunk) : Prop :=
  0 <= bgzf.Start c < 2 ^ 64 /\ 0 <= bgzf.End c < 2 ^ 64.

Definition wfBin (b : Bin) : Prop :=
  0 <= id b < 2 ^ 32 /\ 0 <= offset b < 2 ^ 64
  /\ Z.of_nat (List.length (chunks b)) < 2 ^ 31
  /\ Forall wfChunk (chunks b).

Definition wfRef (bins : list Bin) : Prop :=
  Z.of_nat (List.length bins) < 2 ^ 31 /\ Forall wfBin bins.

Definition wf (i : t) : Prop :=
  - 2 ^ 31 <= minShift i < 2 ^ 31
  /\ 0 <= depth i < 2 ^ 31
  /\ Z.of_nat (List.length (aux i)) < 2 ^ 31
  /\ Z.of_nat (List.length (refs i)) < 2 ^ 31
  /\ Forall wfRef (refs i).

(** The chunk records of a bin that are emitted: none of the metadata bin,
    and of another bin those that end at or after the bin's offset, when the
    bin passes the filter. *)
Definition emittedOfBin (region : genomics.Region) (candidates : list Z)
    (reference : Z) (b : Bin) : list bgzf.Chunk :=
  if id b =? csi.MetadataBeanID then []
  else if csi.RegionContainsBin region reference (id b) candidates
  then filter (fun c => bgzf.End c >=? offset b) (chunks b)
  else [].

(** The emitted records of the references from number [reference] on, in file
    order. *)
Fixpoint emitted (region : genomics.Region) (candidates : list Z)
    (reference : Z) (rs : list (list Bin)) : list bgzf.Chunk :=
  match rs with
  | [] => []
  | bins :: rs' =>
      flat_map (emittedOfBin region candidates reference) bins
      ++ emitted region candidates (reference + 1) rs'
  end.

(** The start offsets of the chunk records of every bin but the metadata
    bins. *)
Definition startsOfBin (b : Bin) : list Z :=
  if id b =? csi.MetadataBeanID then [] else map bgzf.Start (chunks b).

Definition dataStarts (i : t) : list Z :=
  flat_map (flat_map startsOfBin) (refs i).

(** The least of [zs], or [top] when [zs] is empty or all above it. *)
Definition minimum (top : Z) (zs : list Z) : Z := fold_left Z.min zs top.

End Index.

(** The fields of a region fit their types. *)
Definition wfRegion (r : genomics.Region) : Prop :=
  - 2 ^ 31 <= genomics.ReferenceID r < 2 ^ 31
  /\ 0 <= genomics.Start r < 2 ^ 32
  /\ 0 <= genomics.End r < 2 ^ 32.

(** The state of [Read] between two records: the header chunk in the first
    cell, then the emitted chunks, and one pointer to each cell in order. *)
Definition stateOf (headerEnd : Z) (emitted : list bgzf.Chunk) : bcf.state :=
  bcf.mkState (seq 0 (S (List.length emitted)))
              (bgzf.mkChunk 0 headerEnd :: emitted).

(** ** Sample data *)

(** An index of one reference with a bin of the finest level, whose second
    chunk ends below the bin's offset, and a metadata bin. *)
Definition sampleIndex : Index.t :=
  Index.mkIndex 14 5 [Byte.x00; Byte.x01]
    [[Index.mkBin 4681 100 [bgzf.mkChunk 500 600; bgzf.mkChunk 50 90];
      Index.mkBin 37450 0 [bgzf.mkChunk 3 4]]].

Definition sampleRegion : genomics.Region := genomics.mkRegion 0 0 100.

(** The fields up to the auxiliary data of a stream, with the counts given
    as they are. *)
Definition indexPrefix (minShift depth laux : Z) : list byte :=
  bcf.csiMagic ++ le_split 4 minShift ++ le_split 4 depth ++ le_split 4 laux.

(** ** The errors of the index decoder *)

(** The errors of a read that meets the end of the stream. *)
Definition endOfStream (e : error) : Prop := e = EOF \/ e = ErrUnexpectedEOF.

(** The names under which [Read] reports a failed read after the magic. *)
Definition decodeSteps : list string :=
  ["reading # bits for the minimal interval (min_shift)";
   "reading depth of binary index";
   "reading length of auxiliary data";
   "reading past auxiliary data";
   "reading the number of reference sequences";
   "reading bin count";
   "reading bin header";
   "reading chunk"]%string.

(** A wrong magic, a magic that the end of the stream cuts short, or a
    later read that meets the end of the stream, under the name of its
    step. *)
Definition decodeError (e : error) : Prop :=
  (exists got : list byte,
     e = Errorf "checking magic" (WrongMagic got bcf.csiMagic))
  \/ (exists c : error,
        endOfStream c
        /\ e = Errorf "checking magic" (Errorf "reading magic" c))
  \/ (exists (msg : string) (c : error),
        In msg decodeSteps /\ endOfStream c /\ e = Errorf msg c).

(** A result whose error, when it is one, satisfies [E]. *)
Definition failsOnlyWith {A : Type} (E : error -> Prop) (r : outcome A)
    : Prop :=
  match r with
  | Err e => E e
  | Ok _ | Panic _ | OutOfFuel => True
  end.

(** ** The lines of a header *)

(** A token the scanner can hold. *)
Definition fits (raw : string) : Prop :=
  Z.of_nat (String.length raw) < bcf.MaxScanTokenSize.

(** A line that is no contig declaration. *)
Definition otherLine (raw : string) : Prop :=
  String.prefix "##contig" (bcf.dropCR raw) = false.

(** The first occurrence of [pat] in [line] stands right after [pre], and
    [post] is what follows it. *)
Definition firstOccurrence (pat pre post line : string) : Prop :=
  line = (pre ++ pat ++ post)%string
  /\ String.index 0 pat line = Some (String.length pre).

(** A contig declaration that does not define [referenceName]:
    ["ID=" + referenceName] does not occur in it, or its first occurrence is
    followed by a character that is neither [','] nor ['>']. *)
Definition otherContig (referenceName raw : string) : Prop :=
  String.prefix "##contig" (bcf.dropCR raw) = true
  /\ (String.index 0 ("ID=" ++ referenceName) (bcf.dropCR raw) = None
      \/ exists (pre : string) (c : ascii) (post : string),
           firstOccurrence ("ID=" ++ referenceName) pre (String c post)
             (bcf.dropCR raw)
           /\ c <> ","%char /\ c <> ">"%char).

(** A contig declaration that defines [referenceName]: the first occurrence
    of ["ID=" + referenceName] in it is followed by [','] or ['>']. *)
Definition definingContig (referenceName raw : string) : Prop :=
  String.prefix "##contig" (bcf.dropCR raw) = true
  /\ exists (pre : string) (c : ascii) (post : string),
       firstOccurrence ("ID=" ++ referenceName) pre (String c post)
         (bcf.dropCR raw)
       /\ (c = ","%char \/ c = ">"%char).

(** What may follow the text of a field: nothing, or a text that begins
    with [','] or ['>']. *)
Definition endsField (post : string) : Prop :=
  match post with
  | EmptyString => True
  | String d _ => d = ","%char \/ d = ">"%char
  end.

(** *** Decimal numerals *)

(** The character of the decimal digit [d]. *)
Definition digitChar (d : Z) : ascii := ascii_of_N (Z.to_N (48 + d)).

(** The text of the digits [ds], the most significant first. *)
Fixpoint digitsText (ds : list Z) : string :=
  match ds with
  | [] => EmptyString
  | d :: ds' => String (digitChar d) (digitsText ds')
  end.

(** The number the digits [ds] denote after the digits of [n]. *)
Definition digitsValueFrom (n : Z) (ds : list Z) : Z :=
  fold_left (fun acc d => acc * 10 + d) ds n.

Definition digitsValue (ds : list Z) : Z := digitsValueFrom 0 ds.

(** One or more decimal digits. *)
Definition isDigits (ds : list Z) : Prop :=
  ds <> [] /\ Forall (fun d => 0 <= d <= 9) ds.

Inductive sign : Type := noSign | plusSign | minusSign.

Definition signText (sg : sign) : string :=
  match sg with
  | noSign => EmptyString
  | plusSign => "+"%string
  | minusSign => "-"%string
  end.

Definition signed (sg : sign) (v : Z) : Z :=
  match sg with
  | minusSign => - v
  | noSign | plusSign => v
  end.

(** The stream of a BCF file with the header text [header]. *)
Definition bcfStream (header rest : list byte) : list byte :=
  bcf.bcfMagic ++ le_split 4 (Z.of_nat (List.length header)) ++ header ++ rest.

(** The text of a header: each line followed by a line feed. *)
Fixpoint unlines (ls : list string) : string :=
  match ls with
  | [] => EmptyString
  | l :: ls' => (l ++ String "010" (unlines ls'))%string
  end.

Definition sampleHeader : list byte :=
  list_byte_of_string
    (unlines ["##fileformat=VCFv4.2";
              "##contig=<ID=chr2,IDX=1>";
              "##contig=<ID=chr1,length=248956422,IDX=0>";
              "#CHROM"]%string).

(** Ten contig declarations without an [IDX] field. *)
Definition sampleHeaderNoIdx : list byte :=
  list_byte_of_string
    (unlines ["##fileformat=VCFv4.2";
              "##contig=<ID=chr1,length=248956422>";
              "##contig=<ID=chr2,length=242193529>";
              "##contig=<ID=chr3,length=198295559>";
              "##contig=<ID=chr4,length=190214555>";
              "##contig=<ID=chr5,length=181538259>";
              "##contig=<ID=chr6,length=170805979>";
              "##contig=<ID=chr7,length=159345973>";
              "##contig=<ID=chr8,length=145138636>";
              "##contig=<ID=chr9,length=138394717>";
              "##contig=<ID=chr10,length=133797422>";
              "#CHROM"]%string).

(** A defining line whose [IDX] field is negative. *)
Definition sampleHeaderNegativeIdx : list byte :=
  list_byte_of_string
    (unlines ["##contig=<ID=chr2,IDX=1>";
              "##contig=<ID=chr1,IDX=-5>"]%string).

(** A contig line that ends right after the name. *)
Definition sampleHeaderCut : list byte :=
  list_byte_of_string (unlines ["##contig=<ID=chr1"]%string).

(** A request whose first candidate does not open and whose second one
    does; the reader is the decompressed index, the decoder is [bcf.Read],
    and the stand-in for the merge keeps the chunks as they are. *)
Definition sampleObjects : list (api.ObjectHandle (list byte)) :=
  [api.mkObject "sample.bcf.gz.csi" (inr (External "object does not exist"));
   api.mkObject "sample.csi" (inl (Index.encode sampleIndex));
   api.mkObject "sample.tbi" (inr (External "object does not exist"))].

Definition sampleRead (index : option (list byte)) (region : genomics.Region)
    : outcome (list bgzf.Chunk) :=
  match index with
  | Some csiFile => bcf.ReadChunks 101 csiFile region
  | None => Panic "nil pointer dereference"
  end.

Definition sampleMerge (chunks : list bgzf.Chunk) (limit : Z)
    : list bgzf.Chunk := chunks.

Definition sampleRequest : api.chunksRequest (list byte) :=
  api.mkRequest sampleObjects 65536 sampleRegion sampleRead.

Definition emptyRequest : api.chunksRequest (list byte) :=
  api.mkRequest [] 65536 sampleRegion sampleRead.

(** The bin of level [l] that holds the coordinate [x]. *)
Definition binAt (minShift depth : Z) (l : nat) (x : Z) : Z :=
  levelBase l + Z.shiftr x (levelShift minShift depth l).

(** The pointers of a state point into its heap, and the heap holds the
    header cell. *)
Definition validState (st : bcf.state) : Prop :=
  (exists headerEnd cells, bcf.mem st = bgzf.mkChunk 0 headerEnd :: cells)
  /\ Forall (fun p => (p < List.length (bcf.mem st))%nat) (bcf.chunks st)
  /\ hd_error (bcf.chunks st) = Some 0%nat.

(** A read that does not panic, and whose value satisfies [P] when there is
    one. *)
Definition safely {A : Type} (P : A -> Prop) (r : outcome (A * list byte))
    : Prop :=
  match r with
  | Ok (a, _) => P a
  | Panic _ => False
  | Err _ | OutOfFuel => True
  end.

(** [m] reads exactly the bytes [c] and returns [a]: whatever follows [c] is
    left in the stream, and on a stream that ends inside [c] it reports an
    error. *)
Definition consumes {A : Type} (m : binary.M A) (c : list byte) (a : A)
    : Prop :=
  (forall t, m (c ++ t) = Ok (a, t))
  /\ (forall p q, c = p ++ q -> q <> [] -> exists e, m p = Err e).

(** The records of a bin that a query of its whole reference returns. *)
Definition recordsOfBin (b : Index.Bin) : list bgzf.Chunk :=
  if Index.id b =? csi.MetadataBeanID then []
  else filter (fun c => bgzf.End c >=? Index.offset b) (Index.chunks b).

(** Neither [','] nor ['>'] occurs in [v]. *)
Definition noDelimiter (v : string) : Prop :=
  hasChar "," v = false /\ hasChar ">" v = false.

(** What follows [name + "="] up to the next [','] or ['>'], as [contigField]
    cuts it: the whole rest when the first of them stands at index 0 or
    there is none. *)
Definition cutValue (rest : string) : string :=
  match bcfRevised.IndexAny rest ",>" with
  | Some (S end') => String.substring 0 (S end') rest
  | _ => rest
  end.

(** Whether the header ends in a line without a line feed that just fills
    the scanner's buffer. *)
Definition fillsBuffer (header : string) : bool :=
  bcf.unterminated header
  && (Z.of_nat (String.length (last (bcf.pieces header) EmptyString))
      =? bcf.MaxScanTokenSize).

(** Fuel that lets the loops of [BinsForRange] finish: more than the
    number of levels and more than the number of coordinates. *)
Definition fuelFor (start end_ depth : Z) : nat :=
  S (Z.to_nat (Z.max (clampEnd end_ - start) (depth + 1))).

(** * Properties *)

(** ** The bin filter *)

Lemma existsb_eqb_In (binID : Z) (bins : list Z) :
  existsb (fun id => id =? binID) bins = true <-> In binID bins.
Proof.
  rewrite existsb_exists. split.
  - intros (id & Hin & Heq). apply Z.eqb_eq in Heq. now subst.
  - intros Hin. exists binID. split; [assumption | apply Z.eqb_refl].
Qed.

(** C5. [RegionContainsBin] is false when the region names a reference
    (its id is not negative) and [referenceID] is another one; it is true
    when the reference matches, or the region names none, and the region has
    neither start nor end, whatever the candidate bins; in every other case
    it is true exactly when [binID] is one of the candidate bins. *)
Theorem RegionContainsBin_spec (region : genomics.Region)
    (referenceID binID : Z) (bins : list Z) :
  (genomics.ReferenceID region >= 0 ->
   referenceID <> genomics.ReferenceID region ->
   csi.RegionContainsBin region referenceID binID bins = false)
  /\ ((referenceID = genomics.ReferenceID region
       \/ genomics.ReferenceID region < 0) ->
      genomics.Start region = 0 -> genomics.End region = 0 ->
      csi.RegionContainsBin region referenceID binID bins = true)
  /\ ((referenceID = genomics.ReferenceID region
       \/ genomics.ReferenceID region < 0) ->
      ~ (genomics.Start region = 0 /\ genomics.End region = 0) ->
      (csi.RegionContainsBin region referenceID binID bins = true
       <-> In binID bins)).
Proof.
  unfold csi.RegionContainsBin.
  destruct (Z.geb_spec (genomics.ReferenceID region) 0) as [Hge | Hlt];
    destruct (Z.eqb_spec referenceID (genomics.ReferenceID region)) as [He | Hne];
    destruct (Z.eqb_spec (genomics.Start region) 0) as [Hs | Hs];
    destruct (Z.eqb_spec (genomics.End region) 0) as [Hn | Hn];
    cbn [andb negb]; repeat split; intros;
    try reflexivity; try lia; try tauto;
    try (now apply existsb_eqb_In); try (now apply existsb_eqb_In);
    try (exfalso; intuition lia).
Qed.

(** ** Coordinate binning *)

Lemma uint64_small (z : Z) : 0 <= z < 2 ^ 64 -> uint64 z = z.
Proof. intros H. unfold uint64. now apply Z.mod_small. Qed.

Lemma shr64_shiftr (x s : Z) :
  0 <= x < 2 ^ 64 -> 0 <= s -> shr64 x s = Z.shiftr x s.
Proof.
  intros Hx Hs. unfold shr64.
  destruct (Z.ltb_spec s 64) as [Hlt | Hge]; [reflexivity |].
  rewrite Z.shiftr_div_pow2 by assumption.
  symmetry. apply Z.div_small.
  assert (2 ^ 64 <= 2 ^ s) by (apply Z.pow_le_mono_r; lia). lia.
Qed.

Lemma shiftr_bounds (x s : Z) : 0 <= x -> 0 <= s -> 0 <= Z.shiftr x s <= x.
Proof.
  intros Hx Hs. rewrite Z.shiftr_div_pow2 by assumption.
  assert (0 < 2 ^ s) by (apply Z.pow_pos_nonneg; lia).
  split; [apply Z.div_pos; lia |].
  apply Z.div_le_upper_bound; [lia |]. nia.
Qed.

Lemma shiftr_mono (x y s : Z) :
  0 <= s -> x <= y -> Z.shiftr x s <= Z.shiftr y s.
Proof.
  intros Hs Hxy. rewrite !Z.shiftr_div_pow2 by assumption.
  apply Z.div_le_mono; [apply Z.pow_pos_nonneg; lia | assumption].
Qed.

Lemma shiftr_diff (x y s : Z) :
  0 <= s -> 0 <= x <= y -> Z.shiftr y s - Z.shiftr x s <= y - x.
Proof.
  intros Hs Hxy. rewrite !Z.shiftr_div_pow2 by assumption.
  assert (Hm : 0 < 2 ^ s) by (apply Z.pow_pos_nonneg; lia).
  pose proof (Z.mul_div_le x (2 ^ s) Hm) as Hlo.
  pose proof (Z.mul_succ_div_gt x (2 ^ s) Hm) as Hhi.
  assert (y / 2 ^ s < x / 2 ^ s + (y - x) + 1); [| lia].
  apply Z.div_lt_upper_bound; [assumption |]. nia.
Qed.

Lemma shl64_one (k : Z) : 0 <= k -> shl64 1 k = uint64 (2 ^ k).
Proof.
  intros Hk. unfold shl64. rewrite Z.shiftl_1_l.
  destruct (Z.ltb_spec k 64) as [Hlt | Hge]; [reflexivity |].
  unfold uint64. replace k with (64 + (k - 64)) by lia.
  rewrite Z.pow_add_r by lia. rewrite Z.mul_comm. now rewrite Z.mod_mul.
Qed.

Lemma pow8 (l : nat) : 2 ^ (Z.of_nat l * 3) = 8 ^ Z.of_nat l.
Proof.
  rewrite Z.mul_comm. rewrite Z.pow_mul_r by lia. reflexivity.
Qed.

Lemma levelBase_step (l : nat) : levelBase l <= levelBase (S l).
Proof.
  cbn [levelBase]. assert (0 < 8 ^ Z.of_nat l) by (apply Z.pow_pos_nonneg; lia).
  lia.
Qed.

Lemma levelBase_mono (l m : nat) : (l <= m)%nat -> levelBase l <= levelBase m.
Proof.
  induction 1 as [| m Hle IH]; [lia |].
  pose proof (levelBase_step m). lia.
Qed.

Lemma levelBase_nonneg (l : nat) : 0 <= levelBase l.
Proof. apply (levelBase_mono 0 l). lia. Qed.

(** From level 22 on the increment [1 << (l*3)] is 0 in 64 bits, and the
    base never wraps. *)
Lemma uint64_levelBase_high (l : nat) :
  (22 <= l)%nat -> uint64 (levelBase l) = levelBase 22.
Proof.
  induction 1 as [| m Hle IH]; [reflexivity |].
  change (levelBase (S m)) with (levelBase m + 8 ^ Z.of_nat m).
  rewrite <- IH. unfold uint64.
  rewrite <- pow8.
  replace (Z.of_nat m * 3) with (64 + (Z.of_nat m * 3 - 64)) by lia.
  rewrite Z.pow_add_r by lia.
  rewrite (Z.mul_comm (2 ^ 64)). now rewrite Z.mod_add.
Qed.

Lemma uint64_levelBase_bound (l : nat) :
  0 <= uint64 (levelBase l) <= levelBase 22.
Proof.
  destruct (Nat.le_gt_cases 22 l) as [Hhi | Hlo].
  - rewrite uint64_levelBase_high by assumption.
    split; [apply levelBase_nonneg | lia].
  - pose proof (levelBase_mono l 22 ltac:(lia)) as Hle.
    pose proof (levelBase_nonneg l) as H0.
    assert (levelBase 22 < 2 ^ 64) by (vm_compute; reflexivity).
    rewrite uint64_small by lia. lia.
Qed.

Lemma levelBase_next (l : nat) :
  Z.of_nat l * 3 < 2 ^ 64 ->
  uint64 (uint64 (levelBase l) + shl64 1 (uint64 (Z.of_nat l * 3)))
  = uint64 (levelBase (S l)).
Proof.
  intros Hl. rewrite (uint64_small (Z.of_nat l * 3)) by lia.
  rewrite shl64_one by lia. rewrite pow8.
  change (levelBase (S l)) with (levelBase l + 8 ^ Z.of_nat l).
  unfold uint64. now rewrite <- Z.add_mod by lia.
Qed.

Lemma uint64_sub3 (s : Z) : uint64 (uint64 s - 3) = uint64 (s - 3).
Proof. unfold uint64. now rewrite Zminus_mod_idemp_l. Qed.

(** The inner loop appends the truncated values of [b .. e]. *)
Lemma binsLoop_zrange (n : nat) :
  forall (fuel : nat) (b e : Z),
    0 <= b -> e < maxUint64 -> Z.of_nat n = Z.max 0 (e - b + 1) ->
    (n < fuel)%nat ->
    csi.binsLoop fuel b e = Some (map uint16 (zrange b n)).
Proof.
  unfold maxUint64.
  induction n as [| n IH]; intros fuel b e Hb He Hn Hfuel;
    (destruct fuel as [| fuel]; [lia |]); cbn [csi.binsLoop zrange map].
  - destruct (Z.leb_spec b e); [lia | reflexivity].
  - destruct (Z.leb_spec b e); [| lia].
    rewrite uint64_small by lia.
    rewrite (IH fuel (b + 1) e) by lia. reflexivity.
Qed.

Lemma map_uint16_zrange (a b : Z) (n : nat) :
  uint16 a = uint16 b -> map uint16 (zrange a n) = map uint16 (zrange b n).
Proof.
  revert a b. induction n as [| n IH]; intros a b Hab; [reflexivity |].
  cbn [zrange map]. rewrite Hab. f_equal. apply IH.
  unfold uint16 in *. rewrite <- (Z.add_mod_idemp_l a), <- (Z.add_mod_idemp_l b) by lia.
  now rewrite Hab.
Qed.

Lemma uint16_uint64 (z : Z) : uint16 (uint64 z) = uint16 z.
Proof.
  unfold uint16, uint64.
  apply Z.mod_mod_divide. exists (2 ^ 48). reflexivity.
Qed.

Lemma map_flat_map {A B C : Type} (f : B -> C) (g : A -> list B) (l : list A) :
  map f (flat_map g l) = flat_map (fun x => map f (g x)) l.
Proof.
  induction l as [| x l IH]; [reflexivity |].
  cbn [flat_map]. now rewrite map_app, IH.
Qed.

Section Levels.

Variables start last minShift depth : Z.
Variable inner : nat.
Hypothesis Hstart : 0 <= start <= last.
Hypothesis Hlast : last < 2 ^ 32.
Hypothesis HminShift : 0 <= minShift.
Hypothesis Hshift : minShift + 3 * depth < 2 ^ 31.
Hypothesis Hinner : (Z.to_nat (last - start + 1) < inner)%nat.

(** The level loop from level [l] on, with [k] levels to go. *)
Lemma levelLoop_levels (k : nat) :
  forall (l fuel : nat),
    Z.of_nat l + Z.of_nat k = depth + 1 -> (k < fuel)%nat ->
    csi.levelLoop fuel inner start last depth (Z.of_nat l)
      (uint64 (levelBase l)) (uint64 (levelShift minShift depth l))
    = Some (flat_map (fun j => map uint16 (levelIds start last minShift depth j))
                     (seq l k)).
Proof.
  induction k as [| k IH]; intros l fuel Hlk Hfuel;
    (destruct fuel as [| fuel]; [lia |]); cbn [csi.levelLoop seq flat_map].
  - destruct (Z.leb_spec (Z.of_nat l) depth); [lia | reflexivity].
  - destruct (Z.leb_spec (Z.of_nat l) depth); [| lia].
    assert (Hs : 0 <= levelShift minShift depth l < 2 ^ 31)
      by (unfold levelShift; lia).
    rewrite (uint64_small (levelShift minShift depth l)) by lia.
    rewrite !shr64_shiftr by lia.
    set (s := levelShift minShift depth l) in *.
    pose proof (shiftr_bounds start s ltac:(lia) ltac:(lia)) as Hx.
    pose proof (shiftr_bounds last s ltac:(lia) ltac:(lia)) as Hy.
    pose proof (shiftr_mono start last s ltac:(lia) ltac:(lia)) as Hxy.
    pose proof (shiftr_diff start last s ltac:(lia) ltac:(lia)) as Hd.
    pose proof (uint64_levelBase_bound l) as Ht.
    assert (Hb22 : levelBase 22 + 2 ^ 32 < 2 ^ 64) by (vm_compute; reflexivity).
    rewrite (uint64_small (uint64 (levelBase l) + Z.shiftr start s)) by lia.
    rewrite (uint64_small (uint64 (levelBase l) + Z.shiftr last s)) by lia.
    rewrite (binsLoop_zrange (Z.to_nat (Z.shiftr last s - Z.shiftr start s + 1)))
      by (unfold maxUint64; lia).
    rewrite (uint64_small (Z.of_nat l + 1)) by lia.
    replace (Z.of_nat l + 1) with (Z.of_nat (S l)) by lia.
    rewrite levelBase_next by lia.
    replace (uint64 (s - 3)) with (uint64 (levelShift minShift depth (S l)))
      by (f_equal; unfold s, levelShift; lia).
    rewrite (IH (S l) fuel) by lia.
    f_equal. f_equal.
    unfold levelIds, interval. fold s.
    replace (levelBase l + Z.shiftr last s - (levelBase l + Z.shiftr start s) + 1)
      with (Z.shiftr last s - Z.shiftr start s + 1) by lia.
    apply map_uint16_zrange.
    unfold uint16. rewrite <- (Z.add_mod_idemp_l (uint64 (levelBase l))) by lia.
    fold (uint16 (uint64 (levelBase l))). rewrite uint16_uint64.
    unfold uint16. now rewrite Z.add_mod_idemp_l by lia.
Qed.

End Levels.

Lemma shr64_bounds (x s : Z) :
  0 <= x < 2 ^ 64 -> 0 <= s -> 0 <= shr64 x s <= x.
Proof.
  intros Hx Hs. rewrite shr64_shiftr by assumption.
  apply shiftr_bounds; lia.
Qed.

Section Returns.

Variables start last depth : Z.
Variable inner : nat.
Hypothesis Hstart : 0 <= start <= last.
Hypothesis Hlast : last < 2 ^ 32.
Hypothesis Hdepth : 0 <= depth < 2 ^ 31.
Hypothesis Hinner : (Z.to_nat (last - start + 1) < inner)%nat.

(** For a depth that is not negative the level loop finishes, whatever the
    shift it starts from. *)
Lemma levelLoop_returns (k : nat) :
  forall (l fuel : nat) (s : Z),
    0 <= s < 2 ^ 64 ->
    Z.of_nat l + Z.of_nat k = depth + 1 -> (k < fuel)%nat ->
    exists bins,
      csi.levelLoop fuel inner start last depth (Z.of_nat l)
        (uint64 (levelBase l)) s = Some bins.
Proof.
  induction k as [| k IH]; intros l fuel s Hs Hlk Hfuel;
    (destruct fuel as [| fuel]; [lia |]); cbn [csi.levelLoop].
  - destruct (Z.leb_spec (Z.of_nat l) depth); [lia | now eexists].
  - destruct (Z.leb_spec (Z.of_nat l) depth); [| lia].
    rewrite !shr64_shiftr by lia.
    pose proof (shiftr_bounds start s ltac:(lia) ltac:(lia)) as Hx.
    pose proof (shiftr_bounds last s ltac:(lia) ltac:(lia)) as Hy.
    pose proof (shiftr_mono start last s ltac:(lia) ltac:(lia)) as Hxy.
    pose proof (shiftr_diff start last s ltac:(lia) ltac:(lia)) as Hd.
    pose proof (uint64_levelBase_bound l) as Ht.
    assert (Hb22 : levelBase 22 + 2 ^ 32 < 2 ^ 64) by (vm_compute; reflexivity).
    rewrite (uint64_small (uint64 (levelBase l) + Z.shiftr start s)) by lia.
    rewrite (uint64_small (uint64 (levelBase l) + Z.shiftr last s)) by lia.
    rewrite (binsLoop_zrange (Z.to_nat (Z.shiftr last s - Z.shiftr start s + 1)))
      by (unfold maxUint64; lia).
    rewrite (uint64_small (Z.of_nat l + 1)) by lia.
    replace (Z.of_nat l + 1) with (Z.of_nat (S l)) by lia.
    rewrite levelBase_next by lia.
    destruct (IH (S l) fuel (uint64 (s - 3))) as [rest Hrest];
      [apply Z.mod_pos_bound; lia | lia | lia |].
    rewrite Hrest. now eexists.
Qed.

End Returns.

Lemma clampEnd_bounds (end_ : Z) :
  0 <= end_ -> 0 < clampEnd end_ <= 2 ^ 29.
Proof.
  intros H. unfold clampEnd, csi.maximumReadLength.
  change (Z.shiftl 1 29) with (2 ^ 29).
  destruct (Z.eqb_spec end_ 0); destruct (Z.gtb_spec end_ (2 ^ 29));
    cbn [orb]; lia.
Qed.

(** Every early return of [BinsForRange]: nothing is selected, and no loop
    runs. *)
Lemma BinsForRange_empty (fuel : nat) (start end_ minShift depth : Z) :
  clampEnd end_ <= start \/ 2 ^ 29 < start ->
  csi.BinsForRange fuel start end_ minShift depth = Some [].
Proof.
  intros H. unfold csi.BinsForRange. fold (clampEnd end_).
  destruct (Z.leb_spec (clampEnd end_) start); [reflexivity |].
  unfold csi.maximumReadLength. change (Z.shiftl 1 29) with (2 ^ 29).
  destruct (Z.gtb_spec start (2 ^ 29)); [reflexivity | lia].
Qed.

(** Past the early returns, [BinsForRange] is its level loop. *)
Lemma BinsForRange_loop (fuel : nat) (start end_ minShift depth : Z) :
  0 <= end_ -> start < clampEnd end_ ->
  csi.BinsForRange fuel start end_ minShift depth
  = csi.levelLoop fuel fuel start (clampEnd end_ - 1) (uint depth) 0 0
      (uint (int32 (minShift + depth * 3))).
Proof.
  intros He H. pose proof (clampEnd_bounds end_ He) as Hc.
  unfold csi.BinsForRange. fold (clampEnd end_).
  destruct (Z.leb_spec (clampEnd end_) start); [lia |].
  unfold csi.maximumReadLength. change (Z.shiftl 1 29) with (2 ^ 29).
  destruct (Z.gtb_spec start (2 ^ 29)); [lia |].
  unfold uint32. rewrite Z.mod_small by lia. reflexivity.
Qed.

(** [BinsForRange] returns whenever the depth is not negative. *)
Lemma BinsForRange_returns (fuel : nat) (start end_ minShift depth : Z) :
  0 <= start -> 0 <= end_ -> 0 <= depth < 2 ^ 31 ->
  (fuelFor start end_ depth <= fuel)%nat ->
  exists bins, csi.BinsForRange fuel start end_ minShift depth = Some bins.
Proof.
  intros Hs He Hd Hfuel. unfold fuelFor in Hfuel.
  destruct (Z.le_gt_cases (clampEnd end_) start) as [Hle | Hlt].
  - exists []. apply BinsForRange_empty. now left.
  - pose proof (clampEnd_bounds end_ He) as Hc.
    rewrite BinsForRange_loop by assumption.
    unfold uint. rewrite (uint64_small depth) by lia.
    apply (levelLoop_returns start (clampEnd end_ - 1) depth fuel
             ltac:(lia) ltac:(lia) ltac:(lia) ltac:(lia)
             (Z.to_nat depth + 1) 0%nat fuel); try lia.
    apply Z.mod_pos_bound. lia.
Qed.

(** With shifts that do not wrap, [BinsForRange] returns the ids of every
    level, truncated to 16 bits. *)
Lemma BinsForRange_levels (fuel : nat) (start end_ minShift depth : Z) :
  0 <= start -> 0 <= end_ -> 0 <= minShift -> 0 <= depth ->
  minShift + 3 * depth < 2 ^ 31 ->
  start < clampEnd end_ ->
  (fuelFor start end_ depth <= fuel)%nat ->
  csi.BinsForRange fuel start end_ minShift depth
  = Some (map uint16 (allLevelIds start (clampEnd end_ - 1) minShift depth)).
Proof.
  intros Hs He Hm Hd Hsh Hlt Hfuel. unfold fuelFor in Hfuel.
  pose proof (clampEnd_bounds end_ He) as Hc.
  rewrite BinsForRange_loop by assumption.
  unfold uint. rewrite (uint64_small depth) by lia.
  replace (int32 (minShift + depth * 3)) with (levelShift minShift depth 0).
  2:{ unfold int32, levelShift. rewrite Z.mod_small by lia.
      change (Z.of_nat 0) with 0. lia. }
  pose proof (levelLoop_levels start (clampEnd end_ - 1) minShift depth fuel
                ltac:(lia) ltac:(lia) ltac:(lia) ltac:(lia) ltac:(lia)
                (Z.to_nat depth + 1) 0%nat fuel ltac:(lia) ltac:(lia)) as HL.
  change (Z.of_nat 0) with 0 in HL at 1.
  change (uint64 (levelBase 0)) with 0 in HL.
  rewrite HL. unfold allLevelIds. now rewrite map_flat_map.
Qed.

Lemma In_zrange (n : nat) :
  forall (b x : Z), In x (zrange b n) <-> b <= x < b + Z.of_nat n.
Proof.
  induction n as [| n IH]; intros b x; cbn [zrange In]; [lia |].
  rewrite IH. lia.
Qed.

Lemma In_interval (lo hi x : Z) : In x (interval lo hi) <-> lo <= x <= hi.
Proof. unfold interval. rewrite In_zrange. lia. Qed.

Lemma NoDup_zrange (n : nat) : forall b : Z, NoDup (zrange b n).
Proof.
  induction n as [| n IH]; intros b; cbn [zrange]; constructor.
  - rewrite In_zrange. lia.
  - apply IH.
Qed.

Section Addressable.

(** The parameters under which the level ranges are the nodes of the 8-ary
    tree: every coordinate below [2^29] is addressed by the coarsest level. *)
Variables start last minShift depth : Z.
Hypothesis Hstart : 0 <= start <= last.
Hypothesis Hlast : last < 2 ^ 29.
Hypothesis HminShift : 0 <= minShift.
Hypothesis Hcover : 29 <= minShift + 3 * depth.

Lemma level_index_bound (j : nat) :
  Z.of_nat j <= depth ->
  Z.shiftr last (levelShift minShift depth j) < 8 ^ Z.of_nat j.
Proof.
  intros Hj. set (s := levelShift minShift depth j).
  assert (Hs : 0 <= s) by (unfold s, levelShift; lia).
  rewrite Z.shiftr_div_pow2 by assumption.
  apply Z.div_lt_upper_bound; [apply Z.pow_pos_nonneg; lia |].
  rewrite <- pow8, <- Z.pow_add_r by lia.
  assert (2 ^ 29 <= 2 ^ (s + Z.of_nat j * 3))
    by (apply Z.pow_le_mono_r; unfold s, levelShift; lia).
  lia.
Qed.

(** The ids of level [j] lie between its base and the next one. *)
Lemma levelIds_range (j : nat) (x : Z) :
  Z.of_nat j <= depth ->
  In x (levelIds start last minShift depth j) ->
  levelBase j <= x < levelBase (S j).
Proof.
  intros Hj Hin. unfold levelIds in Hin. apply In_interval in Hin.
  pose proof (level_index_bound j Hj) as Hb.
  assert (Hs : 0 <= levelShift minShift depth j) by (unfold levelShift; lia).
  pose proof (shiftr_bounds start _ ltac:(lia) Hs).
  change (levelBase (S j)) with (levelBase j + 8 ^ Z.of_nat j). lia.
Qed.

Lemma levels_range (l k : nat) (x : Z) :
  Z.of_nat l + Z.of_nat k <= depth + 1 ->
  In x (flat_map (levelIds start last minShift depth) (seq l k)) ->
  levelBase l <= x < levelBase (l + k).
Proof.
  intros Hlk Hin. apply in_flat_map in Hin. destruct Hin as (j & Hj & Hx).
  apply in_seq in Hj. apply levelIds_range in Hx; [| lia].
  pose proof (levelBase_mono l j ltac:(lia)).
  pose proof (levelBase_mono (S j) (l + k) ltac:(lia)). lia.
Qed.

Lemma NoDup_levels (k : nat) :
  forall l : nat,
    Z.of_nat l + Z.of_nat k <= depth + 1 ->
    NoDup (flat_map (levelIds start last minShift depth) (seq l k)).
Proof.
  induction k as [| k IH]; intros l Hlk; cbn [seq flat_map]; [constructor |].
  apply NoDup_app.
  - apply NoDup_zrange.
  - apply IH. lia.
  - intros x Hx Hrest.
    apply levelIds_range in Hx; [| lia].
    apply levels_range in Hrest; [| lia]. lia.
Qed.

(** With at most six levels no id needs more than 16 bits. *)
Lemma allLevelIds_uint16 :
  0 <= depth <= 5 ->
  map uint16 (allLevelIds start last minShift depth)
  = allLevelIds start last minShift depth.
Proof.
  intros Hd. rewrite <- (map_id (allLevelIds start last minShift depth)) at 2.
  apply map_ext_in. intros x Hx. unfold allLevelIds in Hx.
  apply levels_range in Hx; [| lia].
  pose proof (levelBase_mono (0 + (Z.to_nat depth + 1)) 6 ltac:(lia)) as H6.
  change (levelBase 6) with 37449 in H6. change (levelBase 0) with 0 in Hx.
  unfold uint16. apply Z.mod_small. lia.
Qed.

End Addressable.




(** C8. With at most six levels that address every coordinate
    below [2^29] ([0 <= depth <= 5] and [minShift + 3*depth >= 29]),
    [BinsForRange] returns a list of 16-bit values without duplicates. *)
Theorem BinsForRange_NoDup (start end_ minShift depth : Z) (fuel : nat) :
  0 <= start -> 0 <= end_ ->
  0 <= depth <= 5 -> 29 <= minShift + 3 * depth < 2 ^ 31 ->
  (fuelFor start end_ depth <= fuel)%nat ->
  exists bins,
    csi.BinsForRange fuel start end_ minShift depth = Some bins
    /\ NoDup bins
    /\ Forall (fun b => 0 <= b < 2 ^ 16) bins.
Proof.
  intros Hs He Hd Hcover Hfuel.
  destruct (Z.le_gt_cases (clampEnd end_) start) as [Hle | Hlt].
  - exists []. split; [apply BinsForRange_empty; now left |].
    split; constructor.
  - pose proof (clampEnd_bounds end_ He) as Hc.
    exists (allLevelIds start (clampEnd end_ - 1) minShift depth).
    split.
    + rewrite BinsForRange_levels by lia.
      rewrite allLevelIds_uint16; [reflexivity | lia ..].
    + split.
      * apply NoDup_levels; lia.
      * apply Forall_forall. intros x Hx. unfold allLevelIds in Hx.
        apply (levels_range start (clampEnd end_ - 1) minShift depth) in Hx;
          [| lia ..].
        pose proof (levelBase_mono (0 + (Z.to_nat depth + 1)) 6 ltac:(lia)) as H6.
        change (levelBase 6) with 37449 in H6.
        change (levelBase 0) with 0 in Hx. lia.
Qed.

Lemma BinsForRange_NoDup_witness :
  exists bins,
    csi.BinsForRange 17 0 16 14 5 = Some bins
    /\ NoDup bins
    /\ Forall (fun b => 0 <= b < 2 ^ 16) bins.
Proof.
  apply (BinsForRange_NoDup 0 16 14 5 17);
    [lia | lia | lia | lia | vm_compute; lia].
Defined.

(** C8, when the coarsest level does not cover the coordinates: bin 1 is
    returned by level 0 and again by level 1. *)
Lemma BinsForRange_duplicate :
  csi.BinsForRange 18 0 16 0 1
  = Some [0; 1; 1; 2; 3; 4; 5; 6; 7; 8; 9; 10; 11; 12; 13; 14; 15; 16]
  /\ ~ NoDup [0; 1; 1; 2; 3; 4; 5; 6; 7; 8; 9; 10; 11; 12; 13; 14; 15; 16].
Proof.
  split; [vm_compute; reflexivity |].
  intros H. inversion H as [| x l Hnin Hnd]; subst.
  inversion Hnd as [| y l' Hnin' Hnd']; subst.
  apply Hnin'. now left.
Qed.

(** ** The index decoder *)

Section ReaderFacts.

Import binary.

Lemma bind_Ok {A B : Type} (m : M A) (k : A -> M B) (s s' : list byte) (a : A) :
  m s = Ok (a, s') -> bind m k s = k a s'.
Proof. intros H. unfold bind. now rewrite H. Qed.

Lemma wrap_Ok {A : Type} (msg : string) (m : M A) (s : list byte)
    (r : A * list byte) :
  m s = Ok r -> wrap msg m s = Ok r.
Proof. intros H. unfold wrap. now rewrite H. Qed.

Lemma firstn_exact {A : Type} (a b : list A) :
  firstn (List.length a) (a ++ b) = a.
Proof. induction a as [| x a IH]; cbn; [now destruct b | now rewrite IH]. Qed.

Lemma skipn_exact {A : Type} (a b : list A) :
  skipn (List.length a) (a ++ b) = b.
Proof. induction a as [| x a IH]; cbn; [reflexivity | exact IH]. Qed.

Lemma firstn_len {A : Type} (n : nat) (a b : list A) :
  List.length a = n -> firstn n (a ++ b) = a.
Proof. intros <-. apply firstn_exact. Qed.

Lemma skipn_len {A : Type} (n : nat) (a b : list A) :
  List.length a = n -> skipn n (a ++ b) = b.
Proof. intros <-. apply skipn_exact. Qed.

Lemma readFull_app (n : nat) (bs rest : list byte) :
  List.length bs = n -> readFull n (bs ++ rest) = Ok (bs, rest).
Proof.
  intros <-. unfold readFull.
  rewrite length_app.
  destruct (Nat.leb_spec (List.length bs) (List.length bs + List.length rest));
    [| lia].
  now rewrite firstn_exact, skipn_exact.
Qed.

Lemma readFull_bind {B : Type} (n : nat) (k : list byte -> M B)
    (bs rest : list byte) :
  List.length bs = n -> bind (readFull n) k (bs ++ rest) = k bs rest.
Proof. intros H. apply bind_Ok. now apply readFull_app. Qed.

Lemma le_combine_le_split_small (n : nat) (z : Z) :
  0 <= z < 2 ^ (Z.of_nat n * 8) -> le_combine (le_split n z) = z.
Proof. intros H. rewrite le_combine_split. now apply Z.mod_small. Qed.

Lemma int32_le_split (z : Z) :
  - 2 ^ 31 <= z < 2 ^ 31 -> int32 (le_combine (le_split 4 z)) = z.
Proof.
  intros H. rewrite le_combine_split. unfold int32.
  change (Z.of_nat 4 * 8) with 32.
  rewrite Z.add_mod_idemp_l by lia.
  rewrite Z.mod_small by lia. lia.
Qed.

Lemma readInt32_app (z : Z) (rest : list byte) :
  - 2 ^ 31 <= z < 2 ^ 31 ->
  readInt32 (le_split 4 z ++ rest) = Ok (z, rest).
Proof.
  intros H. unfold readInt32.
  rewrite (bind_Ok _ _ _ _ _ (readFull_app 4 _ rest (length_le_split 4 z))).
  unfold ret. now rewrite int32_le_split.
Qed.

Lemma ExpectBytes_app (want rest : list byte) :
  ExpectBytes want (want ++ rest) = Ok (tt, rest).
Proof.
  unfold ExpectBytes.
  rewrite (bind_Ok _ _ _ _ _
             (wrap_Ok _ _ _ _ (readFull_app _ want rest eq_refl))).
  destruct (list_eq_dec Byte.byte_eq_dec want want); [reflexivity | congruence].
Qed.

Lemma discardN_app (bs rest : list byte) :
  discardN (Z.of_nat (List.length bs)) (bs ++ rest) = Ok (tt, rest).
Proof.
  unfold discardN.
  destruct (Z.leb_spec (Z.of_nat (List.length bs)) 0) as [H0 | Hpos].
  - destruct bs; [reflexivity | cbn [List.length] in H0; lia].
  - rewrite length_app.
    destruct (Z.leb_spec (Z.of_nat (List.length bs))
                (Z.of_nat (List.length bs + List.length rest))); [| lia].
    now rewrite Nat2Z.id, skipn_exact.
Qed.

End ReaderFacts.

Section DecoderFacts.

Import binary.

Lemma readChunk_app (c : bgzf.Chunk) (rest : list byte) :
  Index.wfChunk c ->
  bcf.readChunk (Index.encodeChunk c ++ rest) = Ok (c, rest).
Proof.
  intros [Hs He]. unfold bcf.readChunk, Index.encodeChunk.
  rewrite readFull_bind by now rewrite length_app, !length_le_split.
  unfold ret.
  rewrite (firstn_len 8) by apply length_le_split.
  rewrite (skipn_len 8) by apply length_le_split.
  rewrite !le_combine_le_split_small by (change (Z.of_nat 8 * 8) with 64; lia).
  now destruct c.
Qed.

Lemma readBin_app (i off n : Z) (rest : list byte) :
  0 <= i < 2 ^ 32 -> 0 <= off < 2 ^ 64 -> - 2 ^ 31 <= n < 2 ^ 31 ->
  bcf.readBin (le_split 4 i ++ le_split 8 off ++ le_split 4 n ++ rest)
  = Ok (bcf.mkBin i off n, rest).
Proof.
  intros Hi Ho Hn. unfold bcf.readBin.
  replace (le_split 4 i ++ le_split 8 off ++ le_split 4 n ++ rest)
    with ((le_split 4 i ++ le_split 8 off ++ le_split 4 n) ++ rest)
    by now rewrite <- !app_assoc.
  rewrite readFull_bind by now rewrite !length_app, !length_le_split.
  unfold ret.
  rewrite (firstn_len 4) by apply length_le_split.
  rewrite (skipn_len 4) by apply length_le_split.
  rewrite (firstn_len 8) by apply length_le_split.
  replace (le_split 4 i ++ le_split 8 off ++ le_split 4 n)
    with ((le_split 4 i ++ le_split 8 off) ++ le_split 4 n)
    by now rewrite <- app_assoc.
  rewrite (skipn_len 12) by now rewrite length_app, !length_le_split.
  rewrite (le_combine_le_split_small 4)
    by (change (Z.of_nat 4 * 8) with 32; lia).
  rewrite (le_combine_le_split_small 8)
    by (change (Z.of_nat 8 * 8) with 64; lia).
  now rewrite int32_le_split.
Qed.

Lemma readInt32_bind {B : Type} (msg : string) (k : Z -> M B) (z : Z)
    (rest : list byte) :
  - 2 ^ 31 <= z < 2 ^ 31 ->
  bind (wrap msg readInt32) k (le_split 4 z ++ rest) = k z rest.
Proof.
  intros H. apply bind_Ok. apply wrap_Ok. now apply readInt32_app.
Qed.

Lemma readBin_bind {B : Type} (msg : string) (k : bcf.binHeader -> M B)
    (i off n : Z) (rest : list byte) :
  0 <= i < 2 ^ 32 -> 0 <= off < 2 ^ 64 -> - 2 ^ 31 <= n < 2 ^ 31 ->
  bind (wrap msg bcf.readBin) k
    (le_split 4 i ++ le_split 8 off ++ le_split 4 n ++ rest)
  = k (bcf.mkBin i off n) rest.
Proof.
  intros Hi Ho Hn. apply bind_Ok. apply wrap_Ok. now apply readBin_app.
Qed.

(** What one chunk record does to the header end and to the emitted
    chunks. *)
Lemma chunkBody_app (includeChunks : bool) (bin : bcf.binHeader)
    (headerEnd : Z) (em : list bgzf.Chunk) (c : bgzf.Chunk) (rest : list byte) :
  Index.wfChunk c ->
  bcf.chunkBody 0%nat includeChunks bin (stateOf headerEnd em)
    (Index.encodeChunk c ++ rest)
  = Ok (if bcf.ID bin =? csi.MetadataBeanID then stateOf headerEnd em
        else stateOf (Z.min headerEnd (bgzf.Start c))
               (em ++ (if includeChunks && (bgzf.End c >=? bcf.Offset bin)
                       then [c] else [])),
        rest).
Proof.
  intros Hc. unfold bcf.chunkBody.
  rewrite (bind_Ok _ _ _ _ _ (wrap_Ok _ _ _ _ (readChunk_app c rest Hc))).
  destruct (bcf.ID bin =? csi.MetadataBeanID); [reflexivity |].
  assert (Hmin : forall em',
             (if headerEnd >? bgzf.Start c
              then ret (bcf.mkState (bcf.chunks (stateOf headerEnd em'))
                          (Heap.storeEnd (bcf.mem (stateOf headerEnd em')) 0%nat
                             (bgzf.Start c)))
              else ret (stateOf headerEnd em')) rest
             = Ok (stateOf (Z.min headerEnd (bgzf.Start c)) em', rest)).
  { intros em'. destruct (Z.gtb_spec headerEnd (bgzf.Start c)) as [Hgt | Hle];
      unfold ret, stateOf; cbn [bcf.chunks bcf.mem Heap.storeEnd bgzf.Start].
    - now rewrite Z.min_r by lia.
    - now rewrite Z.min_l by lia. }
  destruct (includeChunks && (bgzf.End c >=? bcf.Offset bin)).
  - replace (let (p, h) := Heap.new (bcf.mem (stateOf headerEnd em)) c in
             bcf.mkState (bcf.chunks (stateOf headerEnd em) ++ [p]) h)
      with (stateOf headerEnd (em ++ [c])).
    + cbn [stateOf bcf.mem Heap.load nth_error]. apply Hmin.
    + unfold stateOf, Heap.new. cbn [bcf.mem bcf.chunks List.length].
      rewrite length_app. cbn [List.length].
      replace (List.length em + 1)%nat with (S (List.length em)) by lia.
      rewrite (seq_S (S (List.length em)) 0). reflexivity.
  - rewrite app_nil_r. cbn [stateOf bcf.mem Heap.load nth_error]. apply Hmin.
Qed.

Lemma minimum_app (top : Z) (a b : list Z) :
  Index.minimum top (a ++ b) = Index.minimum (Index.minimum top a) b.
Proof. unfold Index.minimum. apply fold_left_app. Qed.

Lemma filter_andb_const {A : Type} (b : bool) (p : A -> bool) (l : list A) :
  filter (fun x => b && p x) l = if b then filter p l else [].
Proof.
  destruct b; cbn [andb]; [reflexivity |].
  induction l as [| x l IH]; [reflexivity | exact IH].
Qed.

(** The loop over the chunk records of one bin. *)
Lemma chunkLoop_app (includeChunks : bool) (bin : bcf.binHeader)
    (cs : list bgzf.Chunk) :
  forall (headerEnd : Z) (em : list bgzf.Chunk) (rest : list byte),
    Forall Index.wfChunk cs ->
    bcf.chunkLoop (List.length cs) 0%nat includeChunks bin
      (stateOf headerEnd em) (flat_map Index.encodeChunk cs ++ rest)
    = Ok (stateOf
            (Index.minimum headerEnd
               (if bcf.ID bin =? csi.MetadataBeanID then []
                else map bgzf.Start cs))
            (em ++ (if bcf.ID bin =? csi.MetadataBeanID then []
                    else filter (fun c => includeChunks
                                          && (bgzf.End c >=? bcf.Offset bin))
                           cs)),
          rest).
Proof.
  induction cs as [| c cs IH]; intros headerEnd em rest Hwf.
  - cbn [List.length bcf.chunkLoop flat_map app map filter].
    unfold ret. destruct (bcf.ID bin =? csi.MetadataBeanID);
      now rewrite app_nil_r.
  - inversion Hwf as [| ? ? Hc Hcs]; subst.
    cbn [List.length bcf.chunkLoop flat_map]. rewrite <- app_assoc.
    rewrite (bind_Ok _ _ _ _ _ (chunkBody_app _ _ _ _ _ _ Hc)).
    destruct (bcf.ID bin =? csi.MetadataBeanID) eqn:Hmeta.
    + now rewrite IH by assumption.
    + rewrite IH by assumption.
      cbn [map filter]. unfold Index.minimum. cbn [fold_left].
      destruct (includeChunks && (bgzf.End c >=? bcf.Offset bin));
        now rewrite <- app_assoc.
Qed.

(** The loop over the bins of one reference. *)
Lemma binLoop_app (region : genomics.Region) (candidates : list Z)
    (reference : Z) (bs : list Index.Bin) :
  forall (headerEnd : Z) (em : list bgzf.Chunk) (rest : list byte),
    Forall Index.wfBin bs ->
    bcf.binLoop (List.length bs) region candidates reference 0%nat
      (stateOf headerEnd em) (flat_map Index.encodeBin bs ++ rest)
    = Ok (stateOf
            (Index.minimum headerEnd (flat_map Index.startsOfBin bs))
            (em ++ flat_map (Index.emittedOfBin region candidates reference) bs),
          rest).
Proof.
  induction bs as [| b bs IH]; intros headerEnd em rest Hwf.
  - cbn [List.length bcf.binLoop flat_map app]. unfold ret.
    now rewrite app_nil_r.
  - inversion Hwf as [| ? ? Hb Hbs]; subst.
    destruct Hb as (Hid & Hoff & Hn & Hcs).
    cbn [List.length bcf.binLoop flat_map]. unfold Index.encodeBin at 1.
    rewrite <- !app_assoc.
    rewrite readBin_bind by lia.
    cbn [bcf.ID bcf.Chunks]. rewrite Nat2Z.id.
    rewrite (bind_Ok _ _ _ _ _ (chunkLoop_app _ _ _ _ _ _ Hcs)).
    rewrite IH by assumption.
    cbn [bcf.ID bcf.Offset]. rewrite minimum_app, <- app_assoc.
    unfold Index.startsOfBin at 2, Index.emittedOfBin at 2.
    rewrite filter_andb_const. reflexivity.
Qed.

(** The loop over the references. *)
Lemma refLoop_app (region : genomics.Region) (candidates : list Z)
    (rs : list (list Index.Bin)) :
  forall (reference headerEnd : Z) (em : list bgzf.Chunk) (rest : list byte),
    Forall Index.wfRef rs ->
    bcf.refLoop (List.length rs) region candidates reference 0%nat
      (stateOf headerEnd em) (flat_map Index.encodeRef rs ++ rest)
    = Ok (stateOf
            (Index.minimum headerEnd (flat_map (flat_map Index.startsOfBin) rs))
            (em ++ Index.emitted region candidates reference rs),
          rest).
Proof.
  induction rs as [| bs rs IH]; intros reference headerEnd em rest Hwf.
  - cbn [List.length bcf.refLoop flat_map app Index.emitted]. unfold ret.
    now rewrite app_nil_r.
  - inversion Hwf as [| ? ? Hr Hrs]; subst. destruct Hr as (Hn & Hbs).
    cbn [List.length bcf.refLoop flat_map Index.emitted].
    unfold Index.encodeRef at 1. rewrite <- !app_assoc.
    rewrite readInt32_bind by lia.
    rewrite Nat2Z.id.
    rewrite (bind_Ok _ _ _ _ _ (binLoop_app _ _ _ _ _ _ _ Hbs)).
    rewrite IH by assumption.
    now rewrite minimum_app, <- app_assoc.
Qed.

Lemma deref_seq (l : list bgzf.Chunk) :
  forall pre : list bgzf.Chunk,
    Heap.deref (pre ++ l) (seq (List.length pre) (List.length l)) = Some l.
Proof.
  induction l as [| c l IH]; intros pre; [reflexivity |].
  cbn [List.length seq Heap.deref]. unfold Heap.load.
  rewrite nth_error_app2 by lia. rewrite Nat.sub_diag. cbn [nth_error].
  specialize (IH (pre ++ [c])).
  rewrite <- app_assoc, length_app in IH. cbn [List.length app] in IH.
  replace (List.length pre + 1)%nat with (S (List.length pre)) in IH by lia.
  now rewrite IH.
Qed.

(** [Read] on the encoding of a well-formed index, once the candidate bins
    are computed. *)
Lemma Read_encode (fuel : nat) (i : Index.t) (region : genomics.Region)
    (rest : list byte) (candidates : list Z) :
  Index.wf i ->
  csi.BinsForRange fuel (genomics.Start region) (genomics.End region)
    (Index.minShift i) (Index.depth i) = Some candidates ->
  bcf.ReadChunks fuel (Index.encode i ++ rest) region
  = Ok (bgzf.mkChunk 0 (Index.minimum bgzf.LastAddress (Index.dataStarts i))
        :: Index.emitted region candidates 0 (Index.refs i)).
Proof.
  intros (Hms & Hd & Haux & Hrefs & Hwf) Hbins.
  unfold bcf.ReadChunks, bcf.Read, Index.encode. rewrite <- !app_assoc.
  rewrite (bind_Ok _ _ _ _ _ (wrap_Ok _ _ _ _ (ExpectBytes_app _ _))).
  rewrite readInt32_bind by lia.
  rewrite readInt32_bind by lia.
  rewrite Hbins.
  rewrite readInt32_bind by lia.
  rewrite (bind_Ok _ _ _ _ _ (wrap_Ok _ _ _ _ (discardN_app _ _))).
  cbn [Heap.new List.length app].
  rewrite readInt32_bind by lia.
  rewrite Nat2Z.id.
  change (bcf.mkState [0%nat] [bgzf.mkChunk 0 bgzf.LastAddress])
    with (stateOf bgzf.LastAddress []).
  rewrite (bind_Ok _ _ _ _ _ (refLoop_app _ _ _ _ _ _ _ Hwf)).
  unfold ret, stateOf. cbn [bcf.chunks bcf.mem app].
  pose proof (deref_seq
                (bgzf.mkChunk 0 (Index.minimum bgzf.LastAddress
                                   (flat_map (flat_map Index.startsOfBin)
                                      (Index.refs i)))
                 :: Index.emitted region candidates 0 (Index.refs i)) [])
    as Hderef.
  cbn [List.length app] in Hderef. rewrite Hderef. reflexivity.
Qed.

End DecoderFacts.

Lemma In_emitted (region : genomics.Region) (candidates : list Z)
    (rs : list (list Index.Bin)) (c : bgzf.Chunk) :
  forall reference : Z,
    In c (Index.emitted region candidates reference rs)
    <-> exists (k : nat) (bins : list Index.Bin) (b : Index.Bin),
          nth_error rs k = Some bins /\ In b bins /\ In c (Index.chunks b)
          /\ Index.id b <> csi.MetadataBeanID
          /\ csi.RegionContainsBin region (reference + Z.of_nat k)
               (Index.id b) candidates = true
          /\ bgzf.End c >= Index.offset b.
Proof.
  assert (Hbin : forall reference b,
             In c (Index.emittedOfBin region candidates reference b)
             <-> In c (Index.chunks b)
                 /\ Index.id b <> csi.MetadataBeanID
                 /\ csi.RegionContainsBin region reference (Index.id b)
                      candidates = true
                 /\ bgzf.End c >= Index.offset b).
  { intros reference b. unfold Index.emittedOfBin.
    destruct (Z.eqb_spec (Index.id b) csi.MetadataBeanID) as [Hm | Hm];
      [cbn [In]; tauto |].
    destruct (csi.RegionContainsBin region reference (Index.id b) candidates).
    - rewrite filter_In.
      destruct (Z.geb_spec (bgzf.End c) (Index.offset b)); intuition lia.
    - cbn [In]. intuition discriminate. }
  induction rs as [| bins rs IH]; intros reference; cbn [Index.emitted].
  - split; [intros [] |]. intros (k & bins & b & Hk & _). now destruct k.
  - rewrite in_app_iff, in_flat_map, IH. split.
    + intros [(b & Hb & Hc) | (k & bins' & b & Hk & Hb & Hrest)].
      * apply Hbin in Hc. exists 0%nat, bins, b.
        rewrite Z.add_0_r. cbn [nth_error]. tauto.
      * exists (S k), bins', b. cbn [nth_error].
        replace (reference + Z.of_nat (S k)) with (reference + 1 + Z.of_nat k)
          by lia.
        tauto.
    + intros (k & bins' & b & Hk & Hb & Hrest). destruct k as [| k].
      * cbn [nth_error] in Hk. injection Hk as <-. left. exists b.
        split; [assumption |]. apply Hbin. rewrite Z.add_0_r in Hrest. tauto.
      * right. exists k, bins', b. cbn [nth_error] in Hk.
        replace (reference + 1 + Z.of_nat k) with (reference + Z.of_nat (S k))
          by lia.
        tauto.
Qed.

(** C1. For a well-formed index stream and any region, the decoder returns
    the synthesized header chunk first and then, in file order, the chunk
    records of the bins that are not the metadata bin (37450), that pass
    [RegionContainsBin] with the candidate bins computed once from the
    region, and that end at or after the offset of their bin; no chunk of a
    metadata bin is among them. *)
Theorem Read_emits (fuel : nat) (i : Index.t) (region : genomics.Region)
    (rest : list byte) :
  Index.wf i -> wfRegion region ->
  (fuelFor (genomics.Start region) (genomics.End region) (Index.depth i)
   <= fuel)%nat ->
  exists (candidates : list Z) (header : bgzf.Chunk),
    csi.BinsForRange fuel (genomics.Start region) (genomics.End region)
      (Index.minShift i) (Index.depth i) = Some candidates
    /\ bgzf.Start header = 0
    /\ bcf.ReadChunks fuel (Index.encode i ++ rest) region
       = Ok (header :: Index.emitted region candidates 0 (Index.refs i))
    /\ forall c : bgzf.Chunk,
         In c (Index.emitted region candidates 0 (Index.refs i))
         <-> exists (reference : nat) (bins : list Index.Bin) (b : Index.Bin),
               nth_error (Index.refs i) reference = Some bins
               /\ In b bins /\ In c (Index.chunks b)
               /\ Index.id b <> 37450
               /\ csi.RegionContainsBin region (Z.of_nat reference)
                    (Index.id b) candidates = true
               /\ bgzf.End c >= Index.offset b.
Proof.
  intros Hwf (Href & Hstart & Hend) Hfuel.
  assert (Hd : 0 <= Index.depth i < 2 ^ 31) by apply Hwf.
  destruct (BinsForRange_returns fuel (genomics.Start region)
              (genomics.End region) (Index.minShift i) (Index.depth i))
    as [candidates Hbins]; try lia.
  exists candidates. eexists. split; [exact Hbins |].
  split; [| split; [now apply Read_encode |]].
  - reflexivity.
  - intros c. apply (In_emitted region candidates (Index.refs i) c 0).
Qed.

Lemma minimum_spec (zs : list Z) :
  forall top : Z,
    Index.minimum top zs <= top
    /\ Forall (fun z => Index.minimum top zs <= z) zs
    /\ (Index.minimum top zs = top \/ In (Index.minimum top zs) zs).
Proof.
  induction zs as [| z zs IH]; intros top.
  - cbn. split; [lia |]. split; [constructor | now left].
  - change (Index.minimum top (z :: zs)) with (Index.minimum (Z.min top z) zs).
    destruct (IH (Z.min top z)) as (Hle & Hall & Hin).
    split; [lia |]. split.
    + constructor; [lia | exact Hall].
    + destruct Hin as [Heq | Hin]; [| right; now right].
      destruct (Z.min_spec top z) as [[_ Hm] | [_ Hm]].
      * left. lia.
      * right. left. lia.
Qed.

Lemma dataStarts_bounded (i : Index.t) :
  Index.wf i -> Forall (fun z => z <= bgzf.LastAddress) (Index.dataStarts i).
Proof.
  intros (_ & _ & _ & _ & Hwf). unfold Index.dataStarts.
  apply Forall_forall. intros z Hz.
  apply in_flat_map in Hz. destruct Hz as (bins & Hbins & Hz).
  apply in_flat_map in Hz. destruct Hz as (b & Hb & Hz).
  rewrite Forall_forall in Hwf. destruct (Hwf bins Hbins) as [_ Hbs].
  rewrite Forall_forall in Hbs. destruct (Hbs b Hb) as (_ & _ & _ & Hcs).
  unfold Index.startsOfBin in Hz.
  destruct (Index.id b =? csi.MetadataBeanID); [contradiction |].
  apply in_map_iff in Hz. destruct Hz as (c & <- & Hc).
  rewrite Forall_forall in Hcs. destruct (Hcs c Hc) as [Hs _].
  unfold bgzf.LastAddress, maxUint64. lia.
Qed.

(** C3. For a well-formed index stream and any region, the first chunk
    returned starts at 0 and ends at the least start offset among the chunk
    records of all bins but the metadata bins, over every reference, or at
    the maximal offset when there is no such record; with no reference the
    result is that one chunk, from 0 to the maximal offset. *)
Theorem Read_header (fuel : nat) (i : Index.t) (region : genomics.Region)
    (rest : list byte) :
  Index.wf i -> wfRegion region ->
  (fuelFor (genomics.Start region) (genomics.End region) (Index.depth i)
   <= fuel)%nat ->
  exists (headerEnd : Z) (emitted : list bgzf.Chunk),
    bcf.ReadChunks fuel (Index.encode i ++ rest) region
    = Ok (bgzf.mkChunk 0 headerEnd :: emitted)
    /\ (Index.dataStarts i = [] -> headerEnd = bgzf.LastAddress)
    /\ (Index.dataStarts i <> [] -> In headerEnd (Index.dataStarts i))
    /\ Forall (fun z => headerEnd <= z) (Index.dataStarts i)
    /\ (Index.refs i = [] ->
        headerEnd = bgzf.LastAddress /\ emitted = []).
Proof.
  intros Hwf (Href & Hstart & Hend) Hfuel.
  assert (Hd : 0 <= Index.depth i < 2 ^ 31) by apply Hwf.
  destruct (BinsForRange_returns fuel (genomics.Start region)
              (genomics.End region) (Index.minShift i) (Index.depth i))
    as [candidates Hbins]; try lia.
  exists (Index.minimum bgzf.LastAddress (Index.dataStarts i)),
         (Index.emitted region candidates 0 (Index.refs i)).
  split; [now apply Read_encode |].
  destruct (minimum_spec (Index.dataStarts i) bgzf.LastAddress)
    as (Hle & Hall & Hin).
  pose proof (dataStarts_bounded i Hwf) as Hbound.
  split; [intros E; now rewrite E |].
  split.
  - intros Hne. destruct Hin as [Heq | Hin]; [| exact Hin].
    destruct (Index.dataStarts i) as [| z zs] eqn:E; [contradiction |].
    inversion Hall as [| ? ? Hz _]; subst.
    inversion Hbound as [| ? ? Hz' _]; subst.
    rewrite Heq in *. left. lia.
  - split; [exact Hall |].
    intros E. unfold Index.dataStarts. rewrite E. now split.
Qed.

Lemma sampleIndex_wf : Index.wf sampleIndex.
Proof.
  unfold Index.wf, Index.wfRef, Index.wfBin, Index.wfChunk, sampleIndex.
  cbn [Index.minShift Index.depth Index.aux Index.refs List.length].
  repeat (constructor;
          cbn [Index.id Index.offset Index.chunks bgzf.Start bgzf.End
               List.length];
          try lia).
Qed.

Lemma sampleRegion_wf : wfRegion sampleRegion.
Proof. unfold wfRegion, sampleRegion. cbn. lia. Qed.

Lemma Read_emits_witness :
  exists header : bgzf.Chunk,
    bgzf.Start header = 0
    /\ bcf.ReadChunks 101 (Index.encode sampleIndex ++ []) sampleRegion
       = Ok [header; bgzf.mkChunk 500 600].
Proof.
  destruct (Read_emits 101 sampleIndex sampleRegion [])
    as (candidates & header & Hbins & Hstart & Hread & _).
  - exact sampleIndex_wf.
  - exact sampleRegion_wf.
  - vm_compute. lia.
  - exists header. split; [exact Hstart |].
    rewrite Hread. vm_compute in Hbins. injection Hbins as <-.
    vm_compute. reflexivity.
Defined.

Lemma Read_header_witness :
  exists (headerEnd : Z) (emitted : list bgzf.Chunk),
    bcf.ReadChunks 101 (Index.encode sampleIndex ++ []) sampleRegion
    = Ok (bgzf.mkChunk 0 headerEnd :: emitted)
    /\ In headerEnd [500; 50]
    /\ Forall (fun z => headerEnd <= z) [500; 50].
Proof.
  destruct (Read_header 101 sampleIndex sampleRegion [])
    as (headerEnd & emitted & Hread & _ & Hin & Hall & _).
  - exact sampleIndex_wf.
  - exact sampleRegion_wf.
  - vm_compute. lia.
  - exists headerEnd, emitted. split; [exact Hread |].
    split; [apply Hin; discriminate | exact Hall].
Defined.

(** ** Counts that are negative *)

(** A level loop bounded by [uint(depth)] for a negative [depth] does not
    finish within that many steps. *)
Lemma levelLoop_runs_on (fuel : nat) :
  forall (inner : nat) (start last udepth l t s : Z),
    0 <= l -> Z.of_nat fuel + l <= udepth -> udepth < 2 ^ 64 ->
    csi.levelLoop fuel inner start last udepth l t s = None.
Proof.
  induction fuel as [| fuel IH]; intros inner start last udepth l t s Hl Hle Hu;
    [reflexivity |].
  cbn [csi.levelLoop].
  destruct (Z.leb_spec l udepth); [| lia].
  destruct (csi.binsLoop inner _ _); [| reflexivity].
  rewrite (uint64_small (l + 1)) by lia.
  rewrite IH by lia. reflexivity.
Qed.

Lemma BinsForRange_negative_depth (fuel : nat)
    (start end_ minShift depth : Z) :
  0 <= end_ -> start < clampEnd end_ ->
  - 2 ^ 31 <= depth < 0 ->
  Z.of_nat fuel <= 2 ^ 64 - 2 ^ 31 ->
  csi.BinsForRange fuel start end_ minShift depth = None.
Proof.
  intros He Hlt Hd Hfuel.
  rewrite BinsForRange_loop by assumption.
  apply levelLoop_runs_on; unfold uint, uint64.
  - lia.
  - replace (depth mod 2 ^ 64) with (depth + 2 ^ 64); [lia |].
    apply Z.mod_unique with (q := -1); lia.
  - apply Z.mod_pos_bound. lia.
Qed.

Section DecodeErrors.

Import binary.

Lemma failsOnlyWith_bind {A B : Type} (E : error -> Prop) (m : M A)
    (k : A -> M B) (s : list byte) :
  failsOnlyWith E (m s) -> (forall a s', failsOnlyWith E (k a s')) ->
  failsOnlyWith E (bind m k s).
Proof.
  unfold bind, failsOnlyWith.
  destruct (m s) as [[a s'] | e | msg |]; intros Hm Hk;
    [apply Hk | exact Hm | exact I | exact I].
Qed.

Lemma failsOnlyWith_wrap {A : Type} (C E : error -> Prop) (msg : string)
    (m : M A) (s : list byte) :
  failsOnlyWith C (m s) -> (forall c, C c -> E (Errorf msg c)) ->
  failsOnlyWith E (wrap msg m s).
Proof.
  unfold wrap, failsOnlyWith.
  destruct (m s) as [[a s'] | e | msg' |]; intros Hm HE;
    [exact I | now apply HE | exact I | exact I].
Qed.

Lemma readFull_fails (n : nat) (s : list byte) :
  failsOnlyWith endOfStream (readFull n s).
Proof.
  unfold readFull, failsOnlyWith, endOfStream.
  destruct (n <=? List.length s)%nat; [exact I |].
  destruct s; [now left | now right].
Qed.

Lemma readInt32_fails (s : list byte) :
  failsOnlyWith endOfStream (readInt32 s).
Proof.
  unfold readInt32.
  apply failsOnlyWith_bind; [apply readFull_fails | intros; exact I].
Qed.

Lemma discardN_fails (n : Z) (s : list byte) :
  failsOnlyWith endOfStream (discardN n s).
Proof.
  unfold discardN, failsOnlyWith, endOfStream.
  destruct (n <=? 0); [exact I |].
  destruct (n <=? Z.of_nat (List.length s)); [exact I | now left].
Qed.

(** A read of [Read] that fails reports the end of the stream under the
    name of its step. *)
Lemma step_fails {A : Type} (msg : string) (m : M A) (s : list byte) :
  In msg decodeSteps -> failsOnlyWith endOfStream (m s) ->
  failsOnlyWith decodeError (wrap msg m s).
Proof.
  intros Hin Hm. apply (failsOnlyWith_wrap endOfStream); [exact Hm |].
  intros c Hc. right; right. now exists msg, c.
Qed.

Ltac in_steps :=
  unfold decodeSteps; cbn [In]; repeat ((left; reflexivity) || right).

Lemma chunkBody_fails (header : Heap.ptr) (includeChunks : bool)
    (bin : bcf.binHeader) (st : bcf.state) (s : list byte) :
  failsOnlyWith decodeError (bcf.chunkBody header includeChunks bin st s).
Proof.
  unfold bcf.chunkBody. apply failsOnlyWith_bind.
  - apply step_fails; [in_steps |]. unfold bcf.readChunk.
    apply failsOnlyWith_bind; [apply readFull_fails | intros; exact I].
  - intros chunk s'.
    destruct (bcf.ID bin =? csi.MetadataBeanID); [exact I |].
    cbv zeta.
    destruct (Heap.load _ header) as [hd |]; [| exact I].
    destruct (bgzf.End hd >? bgzf.Start chunk); exact I.
Qed.

Lemma chunkLoop_fails (n : nat) (header : Heap.ptr) (includeChunks : bool)
    (bin : bcf.binHeader) :
  forall (st : bcf.state) (s : list byte),
    failsOnlyWith decodeError
      (bcf.chunkLoop n header includeChunks bin st s).
Proof.
  induction n as [| n IH]; intros st s; [exact I |].
  cbn [bcf.chunkLoop].
  apply failsOnlyWith_bind; [apply chunkBody_fails | intros; apply IH].
Qed.

Lemma binLoop_fails (n : nat) (region : genomics.Region) (bins : list Z)
    (reference : Z) (header : Heap.ptr) :
  forall (st : bcf.state) (s : list byte),
    failsOnlyWith decodeError
      (bcf.binLoop n region bins reference header st s).
Proof.
  induction n as [| n IH]; intros st s; [exact I |].
  cbn [bcf.binLoop]. apply failsOnlyWith_bind.
  - apply step_fails; [in_steps |]. unfold bcf.readBin.
    apply failsOnlyWith_bind; [apply readFull_fails | intros; exact I].
  - intros bin s'.
    apply failsOnlyWith_bind; [apply chunkLoop_fails | intros; apply IH].
Qed.

Lemma refLoop_fails (n : nat) (region : genomics.Region) (bins : list Z)
    (header : Heap.ptr) :
  forall (reference : Z) (st : bcf.state) (s : list byte),
    failsOnlyWith decodeError
      (bcf.refLoop n region bins reference header st s).
Proof.
  induction n as [| n IH]; intros reference st s; [exact I |].
  cbn [bcf.refLoop]. apply failsOnlyWith_bind.
  - apply step_fails; [in_steps | apply readInt32_fails].
  - intros binCount s'.
    apply failsOnlyWith_bind; [apply binLoop_fails | intros; apply IH].
Qed.

(** The errors of [Read], on any stream. *)
Lemma Read_fails (fuel : nat) (csiFile : list byte)
    (region : genomics.Region) :
  failsOnlyWith decodeError (bcf.ReadChunks fuel csiFile region).
Proof.
  unfold bcf.ReadChunks, bcf.Read.
  match goal with
  | |- context [match ?body csiFile with _ => _ end] =>
      set (result := body csiFile)
  end.
  assert (Hbody : failsOnlyWith decodeError result).
  { unfold result. apply failsOnlyWith_bind.
    { apply (failsOnlyWith_wrap
               (fun e => (exists c, endOfStream c
                                    /\ e = Errorf "reading magic" c)
                         \/ exists got, e = WrongMagic got bcf.csiMagic)).
      - unfold ExpectBytes. apply failsOnlyWith_bind.
        + apply (failsOnlyWith_wrap endOfStream); [apply readFull_fails |].
          intros c Hc. left. now exists c.
        + intros got s'.
          destruct (list_eq_dec Byte.byte_eq_dec got bcf.csiMagic);
            [exact I |].
          right. now exists got.
      - intros c [(c' & Hc' & ->) | (got & ->)].
        + right; left. now exists c'.
        + left. now exists got. }
    intros _ s1.
    apply failsOnlyWith_bind;
      [apply step_fails; [in_steps | apply readInt32_fails] |].
    intros minShift s2.
    apply failsOnlyWith_bind;
      [apply step_fails; [in_steps | apply readInt32_fails] |].
    intros depth s3.
    destruct (csi.BinsForRange _ _ _ _ _) as [bins |]; [| exact I].
    apply failsOnlyWith_bind;
      [apply step_fails; [in_steps | apply readInt32_fails] |].
    intros laux s4.
    apply failsOnlyWith_bind;
      [apply step_fails; [in_steps | apply discardN_fails] |].
    intros _ s5. cbn [Heap.new List.length app].
    apply failsOnlyWith_bind;
      [apply step_fails; [in_steps | apply readInt32_fails] |].
    intros refCount s6.
    apply failsOnlyWith_bind; [apply refLoop_fails | intros; exact I]. }
  unfold failsOnlyWith in *.
  destruct result as [[[ps h] s'] | e | msg |]; try exact I; [| exact Hbody].
  now destruct (Heap.deref h ps).
Qed.

End DecodeErrors.

Section LoopCounts.

Import binary.

Variable region : genomics.Region.
Variable candidates : list Z.
Variable header : Heap.ptr.

(** The loops run their count of turns one after the other. *)
Lemma binLoop_add (a b : nat) (reference : Z) :
  forall (st : bcf.state) (s : list byte),
    bcf.binLoop (a + b) region candidates reference header st s
    = bind (bcf.binLoop a region candidates reference header st)
        (bcf.binLoop b region candidates reference header) s.
Proof.
  induction a as [| a IH]; intros st s; [reflexivity |].
  cbn [Nat.add bcf.binLoop]. unfold bind.
  destruct (wrap "reading bin header" bcf.readBin s) as [[bin s1] | | |];
    try reflexivity.
  destruct (bcf.chunkLoop _ header _ bin st s1) as [[st' s2] | | |];
    try reflexivity.
  exact (IH st' s2).
Qed.

Lemma refLoop_add (a b : nat) :
  forall (reference : Z) (st : bcf.state) (s : list byte),
    bcf.refLoop (a + b) region candidates reference header st s
    = bind (bcf.refLoop a region candidates reference header st)
        (bcf.refLoop b region candidates (reference + Z.of_nat a) header) s.
Proof.
  induction a as [| a IH]; intros reference st s.
  - cbn [Nat.add bcf.refLoop]. unfold bind, ret.
    now rewrite Z.add_0_r.
  - cbn [Nat.add bcf.refLoop].
    replace (reference + Z.of_nat (S a)) with (reference + 1 + Z.of_nat a)
      by lia.
    unfold bind.
    destruct (wrap "reading bin count" readInt32 s) as [[binCount s1] | | |];
      try reflexivity.
    destruct (bcf.binLoop _ region candidates reference header st s1)
      as [[st' s2] | | |]; try reflexivity.
    exact (IH (reference + 1) st' s2).
Qed.

(** A reference whose bin count is not positive is passed over: the loop
    over its bins is not run. *)
Lemma refLoop_no_bins (n : nat) (reference binCount : Z) (st : bcf.state)
    (tail : list byte) :
  - 2 ^ 31 <= binCount <= 0 ->
  bcf.refLoop (S n) region candidates reference header st
    (le_split 4 binCount ++ tail)
  = bcf.refLoop n region candidates (reference + 1) header st tail.
Proof.
  intros Hn. cbn [bcf.refLoop]. rewrite readInt32_bind by lia.
  replace (Z.to_nat binCount) with 0%nat by lia. reflexivity.
Qed.

(** A bin whose chunk count is not positive is passed over: the loop over
    its chunks is not run. *)
Lemma binLoop_no_chunks (n : nat) (reference binID binOffset chunkCount : Z)
    (st : bcf.state) (tail : list byte) :
  0 <= binID < 2 ^ 32 -> 0 <= binOffset < 2 ^ 64 ->
  - 2 ^ 31 <= chunkCount <= 0 ->
  bcf.binLoop (S n) region candidates reference header st
    (le_split 4 binID ++ le_split 8 binOffset ++ le_split 4 chunkCount
     ++ tail)
  = bcf.binLoop n region candidates reference header st tail.
Proof.
  intros Hid Hoff Hn. cbn [bcf.binLoop]. rewrite readBin_bind by lia.
  cbn [bcf.Chunks]. replace (Z.to_nat chunkCount) with 0%nat by lia.
  reflexivity.
Qed.

End LoopCounts.

Section NegativeCounts.

Import binary.

Variable fuel : nat.
Variable region : genomics.Region.
Variables minShift depth : Z.
Hypothesis HminShift : - 2 ^ 31 <= minShift < 2 ^ 31.
Hypothesis Hdepth : - 2 ^ 31 <= depth < 2 ^ 31.

(** [Read] from the reference count on, once the candidate bins are
    computed. *)
Let references (candidates : list Z) : M (list Heap.ptr * Heap.heap) :=
  bind (wrap "reading the number of reference sequences" readInt32)
    (fun refCount =>
       bind (bcf.refLoop (Z.to_nat refCount) region candidates 0 0%nat
               (stateOf bgzf.LastAddress []))
            (fun st' => ret (bcf.chunks st', bcf.mem st'))).

(** After the fields up to the auxiliary data, whose length may be
    negative, [Read] goes on with the reference count. *)
Lemma Read_fields (laux : Z) (aux tail : list byte) :
  - 2 ^ 31 <= laux < 2 ^ 31 -> List.length aux = Z.to_nat laux ->
  bcf.Read fuel (indexPrefix minShift depth laux ++ aux ++ tail) region
  = match csi.BinsForRange fuel (genomics.Start region)
            (genomics.End region) minShift depth with
    | None => OutOfFuel
    | Some candidates =>
        match references candidates tail with
        | Ok (r, _) => Ok r
        | Err e => Err e
        | Panic msg => Panic msg
        | OutOfFuel => OutOfFuel
        end
    end.
Proof.
  intros Hlaux Haux. unfold bcf.Read, indexPrefix. rewrite <- !app_assoc.
  rewrite (bind_Ok _ _ _ _ _ (wrap_Ok _ _ _ _ (ExpectBytes_app _ _))).
  rewrite readInt32_bind by lia.
  rewrite readInt32_bind by lia.
  destruct (csi.BinsForRange _ _ _ _ _) as [candidates |]; [| reflexivity].
  rewrite readInt32_bind by lia.
  assert (Hskip : wrap "reading past auxiliary data" (discardN laux)
                    (aux ++ tail)
                  = Ok (tt, tail)).
  { apply wrap_Ok. unfold discardN.
    destruct (Z.leb_spec laux 0).
    - destruct aux; [reflexivity | cbn [List.length] in Haux; lia].
    - rewrite length_app.
      destruct (Z.leb_spec laux
                  (Z.of_nat (List.length aux + List.length tail))); [| lia].
      now rewrite <- Haux, skipn_exact. }
  rewrite (bind_Ok _ _ _ _ _ Hskip). reflexivity.
Qed.

(** Two streams that agree up to the auxiliary data and on which the rest
    of [Read] does the same give the same result. *)
Lemma ReadChunks_tails (laux : Z) (aux tail tail' : list byte) :
  - 2 ^ 31 <= laux < 2 ^ 31 -> List.length aux = Z.to_nat laux ->
  (forall candidates,
     references candidates tail = references candidates tail') ->
  bcf.ReadChunks fuel (indexPrefix minShift depth laux ++ aux ++ tail) region
  = bcf.ReadChunks fuel (indexPrefix minShift depth laux ++ aux ++ tail')
      region.
Proof.
  intros Hlaux Haux Hsame. unfold bcf.ReadChunks.
  rewrite !Read_fields by assumption.
  destruct (csi.BinsForRange _ _ _ _ _) as [candidates |]; [| reflexivity].
  now rewrite Hsame.
Qed.

Lemma Read_negative_laux (laux : Z) (tail : list byte) :
  - 2 ^ 31 <= laux < 0 ->
  bcf.ReadChunks fuel (indexPrefix minShift depth laux ++ tail) region
  = bcf.ReadChunks fuel (indexPrefix minShift depth 0 ++ tail) region.
Proof.
  intros Hlaux.
  assert (Hnone : List.length (@nil byte) = Z.to_nat laux)
    by (cbn [List.length]; lia).
  pose proof (Read_fields laux [] tail ltac:(lia) Hnone) as Hneg.
  pose proof (Read_fields 0 [] tail ltac:(lia) eq_refl) as Hzero.
  change ([] ++ tail) with tail in Hneg, Hzero.
  unfold bcf.ReadChunks. now rewrite Hneg, Hzero.
Qed.

Lemma references_none (candidates : list Z) (refCount : Z)
    (tail : list byte) :
  - 2 ^ 31 <= refCount <= 0 ->
  references candidates (le_split 4 refCount ++ tail)
  = Ok (([0%nat], [bgzf.mkChunk 0 bgzf.LastAddress]), tail).
Proof.
  intros Hn. unfold references. rewrite readInt32_bind by lia.
  replace (Z.to_nat refCount) with 0%nat by lia. reflexivity.
Qed.

Lemma Read_negative_refCount (laux refCount : Z) (aux tail : list byte) :
  - 2 ^ 31 <= laux < 2 ^ 31 -> List.length aux = Z.to_nat laux ->
  - 2 ^ 31 <= refCount <= 0 ->
  bcf.ReadChunks fuel
    (indexPrefix minShift depth laux ++ aux ++ le_split 4 refCount ++ tail)
    region
  = match csi.BinsForRange fuel (genomics.Start region)
            (genomics.End region) minShift depth with
    | None => OutOfFuel
    | Some _ => Ok [bgzf.mkChunk 0 bgzf.LastAddress]
    end.
Proof.
  intros Hlaux Haux Hn. unfold bcf.ReadChunks.
  rewrite Read_fields by assumption.
  destruct (csi.BinsForRange _ _ _ _ _) as [candidates |]; [| reflexivity].
  now rewrite references_none.
Qed.

(** The references of a well-formed part of the stream are decoded, and
    the loop goes on with what follows them. *)
Lemma references_after (candidates : list Z) (n : Z)
    (before : list (list Index.Bin)) (k : nat) (tail : list byte) :
  Forall Index.wfRef before ->
  - 2 ^ 31 <= n < 2 ^ 31 -> Z.to_nat n = (List.length before + k)%nat ->
  references candidates
    (le_split 4 n ++ flat_map Index.encodeRef before ++ tail)
  = bind (bcf.refLoop k region candidates
            (0 + Z.of_nat (List.length before)) 0%nat
            (stateOf
               (Index.minimum bgzf.LastAddress
                  (flat_map (flat_map Index.startsOfBin) before))
               ([] ++ Index.emitted region candidates 0 before)))
      (fun st' => ret (bcf.chunks st', bcf.mem st')) tail.
Proof.
  intros Hwf Hn Hk. unfold references. rewrite readInt32_bind by lia.
  rewrite Hk. unfold bind at 1. rewrite refLoop_add.
  now rewrite (bind_Ok _ _ _ _ _ (refLoop_app _ _ _ _ _ _ _ Hwf)).
Qed.

Lemma Read_negative_binCount (laux n binCount : Z) (aux tail : list byte)
    (before : list (list Index.Bin)) :
  - 2 ^ 31 <= laux < 2 ^ 31 -> List.length aux = Z.to_nat laux ->
  Forall Index.wfRef before ->
  Z.of_nat (List.length before) < n < 2 ^ 31 ->
  - 2 ^ 31 <= binCount < 0 ->
  bcf.ReadChunks fuel
    (indexPrefix minShift depth laux ++ aux ++ le_split 4 n
     ++ flat_map Index.encodeRef before ++ le_split 4 binCount ++ tail)
    region
  = bcf.ReadChunks fuel
      (indexPrefix minShift depth laux ++ aux ++ le_split 4 n
       ++ flat_map Index.encodeRef before ++ le_split 4 0 ++ tail)
      region.
Proof.
  intros Hlaux Haux Hwf Hn Hcount.
  apply ReadChunks_tails; [assumption | assumption |].
  intros candidates.
  assert (Hk : Z.to_nat n
               = (List.length before
                  + S (Z.to_nat n - List.length before - 1))%nat) by lia.
  assert (Hrange : - 2 ^ 31 <= n < 2 ^ 31) by lia.
  rewrite (references_after candidates n before _
             (le_split 4 binCount ++ tail) Hwf Hrange Hk).
  rewrite (references_after candidates n before _
             (le_split 4 0 ++ tail) Hwf Hrange Hk).
  unfold bind. now rewrite !refLoop_no_bins by lia.
Qed.

Lemma Read_negative_chunkCount (laux n m binID binOffset chunkCount : Z)
    (aux tail : list byte) (before : list (list Index.Bin))
    (binsBefore : list Index.Bin) :
  - 2 ^ 31 <= laux < 2 ^ 31 -> List.length aux = Z.to_nat laux ->
  Forall Index.wfRef before ->
  Z.of_nat (List.length before) < n < 2 ^ 31 ->
  Forall Index.wfBin binsBefore ->
  Z.of_nat (List.length binsBefore) < m < 2 ^ 31 ->
  0 <= binID < 2 ^ 32 -> 0 <= binOffset < 2 ^ 64 ->
  - 2 ^ 31 <= chunkCount < 0 ->
  bcf.ReadChunks fuel
    (indexPrefix minShift depth laux ++ aux ++ le_split 4 n
     ++ flat_map Index.encodeRef before ++ le_split 4 m
     ++ flat_map Index.encodeBin binsBefore
     ++ le_split 4 binID ++ le_split 8 binOffset ++ le_split 4 chunkCount
     ++ tail)
    region
  = bcf.ReadChunks fuel
      (indexPrefix minShift depth laux ++ aux ++ le_split 4 n
       ++ flat_map Index.encodeRef before ++ le_split 4 m
       ++ flat_map Index.encodeBin binsBefore
       ++ le_split 4 binID ++ le_split 8 binOffset ++ le_split 4 0
       ++ tail)
      region.
Proof.
  intros Hlaux Haux Hwf Hn Hbins Hm Hid Hoff Hcount.
  apply ReadChunks_tails; [assumption | assumption |].
  intros candidates.
  assert (Hk : Z.to_nat n
               = (List.length before
                  + S (Z.to_nat n - List.length before - 1))%nat) by lia.
  assert (Hj : Z.to_nat m
               = (List.length binsBefore
                  + S (Z.to_nat m - List.length binsBefore - 1))%nat) by lia.
  assert (Hrange : - 2 ^ 31 <= n < 2 ^ 31) by lia.
  assert (Hturn : exists R,
             forall count : Z,
               - 2 ^ 31 <= count <= 0 ->
               references candidates
                 (le_split 4 n ++ flat_map Index.encodeRef before
                  ++ le_split 4 m ++ flat_map Index.encodeBin binsBefore
                  ++ le_split 4 binID ++ le_split 8 binOffset
                  ++ le_split 4 count ++ tail)
               = R).
  { eexists. intros count Hc.
    rewrite (references_after candidates n before _ _ Hwf Hrange Hk).
    unfold bind at 1. cbn [bcf.refLoop].
    rewrite readInt32_bind by lia. rewrite Hj.
    unfold bind at 1. rewrite binLoop_add.
    rewrite (bind_Ok _ _ _ _ _ (binLoop_app _ _ _ _ _ _ _ Hbins)).
    rewrite binLoop_no_chunks by lia. reflexivity. }
  destruct Hturn as [R Hturn].
  now rewrite (Hturn chunkCount), (Hturn 0) by lia.
Qed.

End NegativeCounts.

(** With a negative depth and a region that is not empty the level loop
    of [BinsForRange] is bounded by [uint(depth)], at least [2^64 - 2^31]:
    it does not return within that many turns. *)
Lemma Read_negative_depth (fuel : nat) (region : genomics.Region)
    (minShift depth : Z) (rest : list byte) :
  - 2 ^ 31 <= minShift < 2 ^ 31 -> - 2 ^ 31 <= depth < 0 ->
  0 <= genomics.End region ->
  genomics.Start region < clampEnd (genomics.End region) ->
  Z.of_nat fuel <= 2 ^ 64 - 2 ^ 31 ->
  bcf.ReadChunks fuel
    (bcf.csiMagic ++ le_split 4 minShift ++ le_split 4 depth ++ rest) region
  = OutOfFuel.
Proof.
  intros Hm Hd He Hlt Hfuel. unfold bcf.ReadChunks, bcf.Read.
  rewrite (bind_Ok _ _ _ _ _ (wrap_Ok _ _ _ _ (ExpectBytes_app _ _))).
  rewrite readInt32_bind by lia.
  rewrite readInt32_bind by lia.
  now rewrite BinsForRange_negative_depth.
Qed.




(** ** Strings *)

Section StringFacts.

Local Open Scope string_scope.

Lemma prefix_append (s t : string) : String.prefix s (s ++ t) = true.
Proof.
  induction s as [| a s IH]; cbn [append String.prefix];
    [now destruct t |].
  destruct (ascii_dec a a); [exact IH | contradiction].
Qed.

Lemma index_skip (a b : ascii) (s1 s2 : string) :
  a <> b ->
  String.index 0 (String a s1) (String b s2)
  = option_map S (String.index 0 (String a s1) s2).
Proof.
  intros Hab. cbn [String.index String.prefix].
  destruct (ascii_dec a b); [contradiction |].
  now destruct (String.index 0 (String a s1) s2).
Qed.

(** The first occurrence of a string whose first character does not occur
    before it. *)
Lemma index_after (a : ascii) (s1 pre post : string) :
  hasChar a pre = false ->
  String.index 0 (String a s1) (pre ++ String a s1 ++ post)
  = Some (String.length pre).
Proof.
  induction pre as [| b pre IH]; intros Hno.
  - cbn [append String.length String.index].
    change (String a (s1 ++ post)) with (String a s1 ++ post).
    now rewrite prefix_append.
  - cbn [hasChar] in Hno. apply orb_false_iff in Hno. destruct Hno as [Hb Hno].
    apply Ascii.eqb_neq in Hb.
    change (String b pre ++ String a s1 ++ post)
      with (String b (pre ++ String a s1 ++ post)).
    rewrite index_skip by congruence.
    now rewrite (IH Hno).
Qed.

Lemma append_nil_r (s : string) : s ++ "" = s.
Proof. induction s as [| a s IH]; cbn [append]; congruence. Qed.

Lemma get_append (pre s : string) (n : nat) :
  String.get (String.length pre + n) (pre ++ s) = String.get n s.
Proof. induction pre as [| b pre IH]; [reflexivity | exact IH]. Qed.

Lemma get_length (s : string) : String.get (String.length s) s = None.
Proof. induction s as [| a s IH]; [reflexivity | exact IH]. Qed.

Lemma substring_here (s1 : string) :
  forall s : string,
    String.substring 0 (String.length s1) s = s1 ->
    exists post, s = s1 ++ post.
Proof.
  induction s1 as [| a s1 IH]; intros s H; [now exists s |].
  destruct s as [| c s]; [discriminate |].
  cbn [String.length String.substring] in H. injection H as -> H.
  destruct (IH s H) as [post ->]. now exists post.
Qed.

Lemma substring_at (a : ascii) (s1 : string) (m : nat) :
  forall s : string,
    String.substring m (String.length (String a s1)) s = String a s1 ->
    exists pre post,
      s = pre ++ String a s1 ++ post /\ String.length pre = m.
Proof.
  induction m as [| m IH]; intros s H.
  - destruct (substring_here _ _ H) as [post ->]. now exists "", post.
  - destruct s as [| c s]; [discriminate |].
    cbn [String.substring] in H. destruct (IH s H) as (pre & post & -> & Hlen).
    exists (String c pre), post. cbn [append String.length].
    now rewrite Hlen.
Qed.

End StringFacts.

(** ** Decimal numerals and [Atoi] *)

Section Numerals.

Local Open Scope string_scope.
Local Open Scope Z_scope.

Lemma digit_digitChar (d : Z) : 0 <= d <= 9 -> bcf.digit (digitChar d) = Some d.
Proof.
  intros H.
  assert (Hd : d = 0 \/ d = 1 \/ d = 2 \/ d = 3 \/ d = 4 \/ d = 5 \/ d = 6
               \/ d = 7 \/ d = 8 \/ d = 9) by lia.
  repeat (destruct Hd as [-> | Hd]; [reflexivity |]). now subst.
Qed.

Lemma digitChar_digit (c : ascii) (d : Z) :
  bcf.digit c = Some d -> c = digitChar d /\ 0 <= d <= 9.
Proof.
  unfold bcf.digit, digitChar. intros H.
  destruct ((48 <=? Z.of_N (N_of_ascii c)) && (Z.of_N (N_of_ascii c) <=? 57))
    eqn:Hrange; [| discriminate].
  injection H as <-. apply andb_true_iff in Hrange.
  destruct Hrange as [Hlo Hhi]. apply Z.leb_le in Hlo, Hhi.
  split; [| lia].
  replace (48 + (Z.of_N (N_of_ascii c) - 48)) with (Z.of_N (N_of_ascii c))
    by lia.
  rewrite N2Z.id. symmetry. apply ascii_N_embedding.
Qed.

Lemma digitChar_no_sign (d : Z) :
  0 <= d <= 9 -> digitChar d <> "+"%char /\ digitChar d <> "-"%char.
Proof.
  intros H.
  assert (Hd : d = 0 \/ d = 1 \/ d = 2 \/ d = 3 \/ d = 4 \/ d = 5 \/ d = 6
               \/ d = 7 \/ d = 8 \/ d = 9) by lia.
  repeat (destruct Hd as [-> | Hd]; [split; discriminate |]).
  subst. split; discriminate.
Qed.

Lemma digitsValueFrom_le (ds : list Z) :
  forall n : Z,
    0 <= n -> Forall (fun d => 0 <= d <= 9) ds -> n <= digitsValueFrom n ds.
Proof.
  induction ds as [| d ds IH]; intros n Hn Hds; [apply Z.le_refl |].
  inversion Hds as [| ? ? Hd Hds']; subst.
  change (digitsValueFrom n (d :: ds)) with (digitsValueFrom (n * 10 + d) ds).
  specialize (IH (n * 10 + d) ltac:(lia) Hds'). lia.
Qed.

(** On digits [ParseUint] computes their value, and reports a range error
    when it leaves 64 bits. *)
Lemma parseUint_digits (ds : list Z) :
  forall n : Z,
    0 <= n <= maxUint64 -> Forall (fun d => 0 <= d <= 9) ds ->
    bcf.parseUint (digitsText ds) n
    = if digitsValueFrom n ds <=? maxUint64 then inl (digitsValueFrom n ds)
      else inr bcf.rangeError.
Proof.
  induction ds as [| d ds IH]; intros n Hn Hds.
  - cbn [digitsText bcf.parseUint digitsValueFrom fold_left].
    destruct (Z.leb_spec n maxUint64); [reflexivity | lia].
  - inversion Hds as [| ? ? Hd Hds']; subst.
    cbn [digitsText bcf.parseUint]. rewrite (digit_digitChar d Hd).
    change (digitsValueFrom n (d :: ds)) with (digitsValueFrom (n * 10 + d) ds).
    pose proof (digitsValueFrom_le ds (n * 10 + d) ltac:(lia) Hds') as Hle.
    unfold maxUint64 in *.
    change ((2 ^ 64 - 1) / 10 + 1) with 1844674407370955162.
    destruct (Z.leb_spec 1844674407370955162 n).
    + destruct (Z.leb_spec (digitsValueFrom (n * 10 + d) ds) (2 ^ 64 - 1));
        [lia | reflexivity].
    + destruct (Z.ltb_spec (2 ^ 64 - 1) (n * 10 + d)).
      * destruct (Z.leb_spec (digitsValueFrom (n * 10 + d) ds) (2 ^ 64 - 1));
          [lia | reflexivity].
      * apply IH; [lia | exact Hds'].
Qed.

(** What [ParseUint] accepts is a text of digits, and the value is theirs. *)
Lemma parseUint_sound (s : string) :
  forall n v : Z,
    bcf.parseUint s n = inl v ->
    exists ds : list Z,
      Forall (fun d => 0 <= d <= 9) ds /\ s = digitsText ds
      /\ v = digitsValueFrom n ds.
Proof.
  induction s as [| c s IH]; intros n v H.
  - injection H as <-. now exists [].
  - cbn [bcf.parseUint] in H.
    destruct (bcf.digit c) as [d |] eqn:Hc; [| discriminate].
    destruct (maxUint64 / 10 + 1 <=? n); [discriminate |].
    destruct (maxUint64 <? n * 10 + d); [discriminate |].
    destruct (IH _ _ H) as (ds & Hds & -> & ->).
    destruct (digitChar_digit c d Hc) as [-> Hd].
    exists (d :: ds). repeat split. now constructor.
Qed.

(** [Atoi] on a text that begins with no sign. *)
Lemma Atoi_unsigned (c : ascii) (r : string) :
  c <> "+"%char -> c <> "-"%char ->
  bcf.Atoi (String c r)
  = match bcf.parseUint (String c r) 0 with
    | inr bcf.syntaxError => Err (ErrSyntax (String c r))
    | inr bcf.rangeError => Err (ErrRange (String c r))
    | inl un => if 2 ^ 63 <=? un then Err (ErrRange (String c r)) else Ok un
    end.
Proof.
  intros Hplus Hminus.
  destruct c as [[] [] [] [] [] [] [] []];
    try reflexivity; contradiction.
Qed.

(** [Atoi] on a decimal numeral: its value when that fits 64 bits, a range
    error otherwise. *)
Lemma Atoi_numeral (sg : sign) (ds : list Z) :
  isDigits ds ->
  bcf.Atoi (signText sg ++ digitsText ds)
  = if (- 2 ^ 63 <=? signed sg (digitsValue ds))
       && (signed sg (digitsValue ds) <? 2 ^ 63)
    then Ok (signed sg (digitsValue ds))
    else Err (ErrRange (signText sg ++ digitsText ds)).
Proof.
  intros [Hne Hds]. destruct ds as [| d ds]; [contradiction |].
  pose proof (parseUint_digits (d :: ds) 0 ltac:(unfold maxUint64; lia) Hds)
    as Hparse.
  pose proof (digitsValueFrom_le (d :: ds) 0 ltac:(lia) Hds) as Hpos.
  fold (digitsValue (d :: ds)) in Hparse, Hpos.
  inversion Hds as [| ? ? Hd _]; subst.
  destruct (digitChar_no_sign d Hd) as [Hplus Hminus].
  unfold maxUint64 in Hparse.
  destruct sg; cbn [signText append signed].
  - change (digitsText (d :: ds))
      with (String (digitChar d) (digitsText ds)) in *.
    rewrite (Atoi_unsigned _ _ Hplus Hminus), Hparse.
    destruct (Z.leb_spec (digitsValue (d :: ds)) (2 ^ 64 - 1));
      destruct (Z.leb_spec (2 ^ 63) (digitsValue (d :: ds)));
      destruct (Z.leb_spec (- 2 ^ 63) (digitsValue (d :: ds)));
      destruct (Z.ltb_spec (digitsValue (d :: ds)) (2 ^ 63));
      cbn [andb]; try reflexivity; lia.
  - unfold bcf.Atoi.
    change (digitsText (d :: ds))
      with (String (digitChar d) (digitsText ds)) in *.
    rewrite Hparse.
    destruct (Z.leb_spec (digitsValue (d :: ds)) (2 ^ 64 - 1));
      destruct (Z.leb_spec (2 ^ 63) (digitsValue (d :: ds)));
      destruct (Z.leb_spec (- 2 ^ 63) (digitsValue (d :: ds)));
      destruct (Z.ltb_spec (digitsValue (d :: ds)) (2 ^ 63));
      cbn [andb]; try reflexivity; lia.
  - unfold bcf.Atoi.
    change (digitsText (d :: ds))
      with (String (digitChar d) (digitsText ds)) in *.
    rewrite Hparse.
    destruct (Z.leb_spec (digitsValue (d :: ds)) (2 ^ 64 - 1));
      destruct (Z.ltb_spec (2 ^ 63) (digitsValue (d :: ds)));
      destruct (Z.leb_spec (- 2 ^ 63) (- digitsValue (d :: ds)));
      destruct (Z.ltb_spec (- digitsValue (d :: ds)) (2 ^ 63));
      cbn [andb]; try reflexivity; lia.
Qed.

(** [Atoi] returns a value or one of its two errors, which names the text. *)
Lemma Atoi_cases (s : string) :
  (exists v : Z, bcf.Atoi s = Ok v)
  \/ bcf.Atoi s = Err (ErrSyntax s) \/ bcf.Atoi s = Err (ErrRange s).
Proof.
  unfold bcf.Atoi.
  destruct (match s with
            | String "+" r => (false, r)
            | String "-" r => (true, r)
            | _ => (false, s)
            end) as [neg ds].
  destruct ds as [| c ds]; [now right; left |].
  destruct (bcf.parseUint (String c ds) 0) as [un | []];
    [| now right; left | now right; right].
  destruct neg.
  - destruct (2 ^ 63 <? un); [now right; right | left; now eexists].
  - destruct (2 ^ 63 <=? un); [now right; right | left; now eexists].
Qed.

(** What [Atoi] accepts is a decimal numeral, and the value is its value. *)
Lemma Atoi_sound (s : string) (v : Z) :
  bcf.Atoi s = Ok v ->
  exists (sg : sign) (ds : list Z),
    isDigits ds /\ s = signText sg ++ digitsText ds
    /\ v = signed sg (digitsValue ds).
Proof.
  intros H. destruct s as [| c r]; [discriminate |].
  assert (Hdigits : forall (t : string) (un : Z),
             t <> "" -> bcf.parseUint t 0 = inl un ->
             exists ds, isDigits ds /\ t = digitsText ds
                        /\ un = digitsValue ds).
  { intros t un Ht Hparse.
    destruct (parseUint_sound t 0 un Hparse) as (ds & Hds & -> & ->).
    exists ds. repeat split; [| exact Hds].
    intros ->. now apply Ht. }
  destruct (ascii_dec c "+") as [-> | Hplus];
    [| destruct (ascii_dec c "-") as [-> | Hminus]].
  - unfold bcf.Atoi in H. destruct r as [| c r]; [discriminate |].
    destruct (bcf.parseUint (String c r) 0) as [un | []] eqn:Hparse;
      try discriminate.
    destruct (2 ^ 63 <=? un); [discriminate |]. injection H as <-.
    destruct (Hdigits (String c r) un ltac:(discriminate) Hparse)
      as (ds & Hds & Ht & ->).
    exists plusSign, ds. cbn [signText append signed]. now rewrite Ht.
  - unfold bcf.Atoi in H. destruct r as [| c r]; [discriminate |].
    destruct (bcf.parseUint (String c r) 0) as [un | []] eqn:Hparse;
      try discriminate.
    destruct (2 ^ 63 <? un); [discriminate |]. injection H as <-.
    destruct (Hdigits (String c r) un ltac:(discriminate) Hparse)
      as (ds & Hds & Ht & ->).
    exists minusSign, ds. cbn [signText append signed]. now rewrite Ht.
  - rewrite (Atoi_unsigned _ _ Hplus Hminus) in H.
    destruct (bcf.parseUint (String c r) 0) as [un | []] eqn:Hparse;
      try discriminate.
    destruct (2 ^ 63 <=? un); [discriminate |]. injection H as <-.
    destruct (Hdigits (String c r) un ltac:(discriminate) Hparse)
      as (ds & Hds & Ht & ->).
    exists noSign, ds. cbn [signText append signed]. now rewrite Ht.
Qed.

End Numerals.

(** ** The fields of a contig line *)

Section ContigFields.

Local Open Scope string_scope.
Local Open Scope Z_scope.

Lemma skip_append (pre s : string) (n : nat) :
  bcf.skip (String.length pre + n) (pre ++ s) = bcf.skip n s.
Proof. induction pre as [| b pre IH]; [reflexivity | exact IH]. Qed.

(** The loop of [getIdx] stops at the end of the text of the field. *)
Lemma fieldValue_cut (text post : string) :
  noDelimiter text -> endsField post -> bcf.fieldValue (text ++ post) = text.
Proof.
  intros [Hcomma Hangle] Hpost.
  induction text as [| c text IH].
  - destruct post as [| d post]; [reflexivity |].
    cbn [append bcf.fieldValue].
    destruct Hpost as [-> | ->]; reflexivity.
  - cbn [hasChar] in Hcomma, Hangle.
    apply orb_false_iff in Hcomma, Hangle.
    destruct Hcomma as [Hc1 Hcomma], Hangle as [Hc2 Hangle].
    cbn [append bcf.fieldValue]. rewrite Hc1, Hc2. cbn [orb].
    now rewrite IH.
Qed.

Lemma getIdx_absent (line : string) :
  String.index 0 "IDX=" line = None -> bcf.getIdx line = Ok (-1).
Proof. intros H. unfold bcf.getIdx. now rewrite H. Qed.

(** [getIdx] hands to [Atoi] the text between the first ["IDX="] of the
    line and the next delimiter or the end of the line. *)
Lemma getIdx_field (pre text post line : string) :
  firstOccurrence "IDX=" pre (text ++ post) line ->
  noDelimiter text -> endsField post ->
  bcf.getIdx line
  = match bcf.Atoi text with
    | Ok idx => Ok idx
    | Err e => Err (Errorf "parsing IDX value" e)
    | Panic msg => Panic msg
    | OutOfFuel => OutOfFuel
    end.
Proof.
  intros [-> Hindex] Htext Hpost. unfold bcf.getIdx. rewrite Hindex.
  rewrite skip_append. cbn [String.length bcf.skip append].
  now rewrite fieldValue_cut.
Qed.

(** [contigDefinesReference] looks at the character after the first
    occurrence of ["ID=" + refName]. *)
Lemma contigDefinesReference_first (refName pre post line : string)
    (c : ascii) :
  firstOccurrence ("ID=" ++ refName) pre (String c post) line ->
  bcf.contigDefinesReference line refName
  = Ok (Ascii.eqb c "," || Ascii.eqb c ">").
Proof.
  intros [-> Hindex]. unfold bcf.contigDefinesReference. rewrite Hindex.
  replace (String.length pre + String.length "ID=" + String.length refName)%nat
    with (String.length pre + (3 + (String.length refName + 0)))%nat
    by (cbn [String.length]; lia).
  rewrite get_append. cbn [append Nat.add String.get].
  rewrite get_append. cbn [String.get].
  now destruct (Ascii.eqb c ","), (Ascii.eqb c ">").
Qed.

Lemma otherContig_rejected (referenceName raw : string) :
  otherContig referenceName raw ->
  bcf.contigDefinesReference (bcf.dropCR raw) referenceName = Ok false.
Proof.
  intros [_ [Hnone | (pre & c & post & Hfirst & Hcomma & Hangle)]].
  - unfold bcf.contigDefinesReference. now rewrite Hnone.
  - rewrite (contigDefinesReference_first _ _ _ _ _ Hfirst).
    apply Ascii.eqb_neq in Hcomma, Hangle. now rewrite Hcomma, Hangle.
Qed.

Lemma definingContig_accepted (referenceName raw : string) :
  definingContig referenceName raw ->
  bcf.contigDefinesReference (bcf.dropCR raw) referenceName = Ok true.
Proof.
  intros [_ (pre & c & post & Hfirst & Hc)].
  rewrite (contigDefinesReference_first _ _ _ _ _ Hfirst).
  destruct Hc as [-> | ->]; reflexivity.
Qed.

End ContigFields.

(** ** The reference resolver *)

Section ResolverFacts.

Import binary.
Local Open Scope string_scope.

Variable referenceName : string.

Lemma fits_tooLong (atEnd : bool) (raw : string) :
  fits raw -> bcf.tooLong atEnd raw = false.
Proof.
  unfold fits, bcf.tooLong. intros H.
  destruct atEnd; [apply Z.ltb_ge | apply Z.leb_gt]; lia.
Qed.

(** Lines before the contig declarations are passed over. *)
Lemma scanLoop_before (final : bool) (before rest : list string) (id : Z) :
  Forall fits before -> Forall otherLine before ->
  bcf.scanLoop final (before ++ rest) referenceName id false
  = bcf.scanLoop final rest referenceName id false.
Proof.
  induction before as [| raw before IH]; intros Hfit Hother; [reflexivity |].
  inversion Hfit as [| ? ? Hf Hfs]; subst.
  inversion Hother as [| ? ? Ho Hos]; subst.
  cbn [app bcf.scanLoop]. rewrite (fits_tooLong _ raw Hf).
  unfold otherLine in Ho. rewrite Ho. now apply IH.
Qed.

(** Every contig declaration of another reference counts one. *)
Lemma scanLoop_contigs (final : bool) (contigs rest : list string) :
  forall (id : Z) (contigsFound : bool),
    Forall fits contigs -> Forall (otherContig referenceName) contigs ->
    bcf.scanLoop final (contigs ++ rest) referenceName id contigsFound
    = bcf.scanLoop final rest referenceName
        (id + Z.of_nat (List.length contigs))
        (match contigs with [] => contigsFound | _ :: _ => true end).
Proof.
  induction contigs as [| raw contigs IH]; intros id contigsFound Hfit Hother.
  - cbn [app List.length]. now rewrite Z.add_0_r.
  - inversion Hfit as [| ? ? Hf Hfs]; subst.
    inversion Hother as [| ? ? Hraw Hos]; subst.
    cbn [app bcf.scanLoop].
    rewrite (fits_tooLong _ raw Hf), (otherContig_rejected _ _ Hraw).
    destruct Hraw as [-> _].
    rewrite IH by assumption.
    replace (id + 1 + Z.of_nat (List.length contigs))
      with (id + Z.of_nat (List.length (raw :: contigs)))
      by (cbn [List.length]; lia).
    now destruct contigs.
Qed.

Lemma readUint32_app (z : Z) (rest : list byte) :
  0 <= z < 2 ^ 32 -> readUint32 (le_split 4 z ++ rest)%list = Ok (z, rest).
Proof.
  intros H. unfold readUint32.
  rewrite readFull_bind by apply length_le_split.
  unfold ret. rewrite le_combine_le_split_small; [reflexivity |].
  change (Z.of_nat 4 * 8) with 32. lia.
Qed.

(** [GetReferenceID] on a stream with the magic, the header length and the
    header is the loop over the lines of the header. *)
Lemma GetReferenceID_scan (eofWithData : bool) (header rest : list byte) :
  Z.of_nat (List.length header) < 2 ^ 32 ->
  bcf.GetReferenceIDFrom eofWithData (bcfStream header rest) referenceName
  = bcf.scanLoop
      (eofWithData && match rest with [] => true | _ :: _ => false end
       && bcf.unterminated (string_of_list_byte header))
      (bcf.rawLines (string_of_list_byte header)) referenceName 0 false.
Proof.
  intros Hlen. unfold bcf.GetReferenceIDFrom, bcfStream.
  rewrite (bind_Ok _ _ _ _ _ (wrap_Ok _ _ _ _ (ExpectBytes_app _ _))).
  assert (Hn : 0 <= Z.of_nat (List.length header) < 2 ^ 32) by lia.
  rewrite (wrap_Ok _ _ _ _ (readUint32_app _ (header ++ rest)%list Hn)).
  rewrite Nat2Z.id, firstn_exact, length_app.
  destruct rest as [| b rest].
  - cbn [List.length]. rewrite Nat.add_0_r, Nat.leb_refl. reflexivity.
  - cbn [List.length].
    destruct (Nat.leb_spec (List.length header + S (List.length rest))
                (List.length header)); [lia | reflexivity].
Qed.

End ResolverFacts.

Section Resolver.

Local Open Scope string_scope.

Variable eofWithData : bool.
Variable referenceName : string.
Variables header rest : list byte.
Variables before contigs after : list string.
Hypothesis Hlength : Z.of_nat (List.length header) < 2 ^ 32.
Hypothesis Hbefore : Forall fits before /\ Forall otherLine before.
Hypothesis Hcontigs :
  Forall fits contigs /\ Forall (otherContig referenceName) contigs.

(** The scan once it reaches the line that defines the reference. *)
Lemma GetReferenceID_found (line : string) :
  bcf.rawLines (string_of_list_byte header)
  = (before ++ contigs ++ line :: after)%list ->
  fits line -> definingContig referenceName line ->
  bcf.GetReferenceIDFrom eofWithData (bcfStream header rest) referenceName
  = match bcf.getIdx (bcf.dropCR line) with
    | Ok idx => if idx >? -1 then Ok idx
                else Ok (Z.of_nat (List.length contigs))
    | Err e => Err (Errorf "getting idx" e)
    | Panic msg => Panic msg
    | OutOfFuel => OutOfFuel
    end.
Proof.
  intros Hlines Hfit Hdef.
  rewrite GetReferenceID_scan by assumption. rewrite Hlines.
  rewrite scanLoop_before by apply Hbefore.
  rewrite scanLoop_contigs by apply Hcontigs.
  cbn [bcf.scanLoop].
  rewrite (fits_tooLong _ line Hfit), (definingContig_accepted _ _ Hdef).
  destruct Hdef as [-> _]. reflexivity.
Qed.

(** The scan when no line defines the reference. *)
Lemma GetReferenceID_not_found :
  bcf.rawLines (string_of_list_byte header) = (before ++ contigs ++ after)%list ->
  (after = []
   \/ exists line after',
        after = line :: after' /\ fits line /\ otherLine line /\ contigs <> []) ->
  bcf.GetReferenceIDFrom eofWithData (bcfStream header rest) referenceName
  = Err (New (match after with
              | [] => "region id not found"
              | _ :: _ => "reference name not found"
              end)).
Proof.
  intros Hlines Hafter.
  rewrite GetReferenceID_scan by assumption. rewrite Hlines.
  rewrite scanLoop_before by apply Hbefore.
  rewrite scanLoop_contigs by apply Hcontigs.
  destruct Hafter as [-> | (line & after' & -> & Hfit & Hother & Hne)].
  - reflexivity.
  - cbn [bcf.scanLoop]. rewrite (fits_tooLong _ line Hfit).
    unfold otherLine in Hother. rewrite Hother.
    destruct contigs; [contradiction | reflexivity].
Qed.

End Resolver.



(** On the sample headers: the [IDX] field gives the id, and without it
    the tenth declaration has the ordinal 9; a name that no declaration
    carries is not found. *)
Example GetReferenceID_examples :
  bcf.GetReferenceID (bcfStream sampleHeader []) "chr1" = Ok 0
  /\ bcf.GetReferenceID (bcfStream sampleHeader []) "chr2" = Ok 1
  /\ bcf.GetReferenceID (bcfStream sampleHeaderNoIdx []) "chr10" = Ok 9
  /\ bcf.GetReferenceID (bcfStream sampleHeaderNoIdx []) "chr1" = Ok 0
  /\ bcf.GetReferenceID (bcfStream sampleHeaderNoIdx []) "Z"
     = Err (New "reference name not found").
Proof. repeat split; vm_compute; reflexivity. Qed.

(** The characters [IDX=] are searched as a substring, so a key that ends
    in them is taken for the field; [Atoi] takes a sign, reports a range
    error at the digit that leaves 64 bits, and a syntax error otherwise. *)
Example getIdx_examples :
  bcf.GetReferenceID
    (bcfStream
       (list_byte_of_string (unlines ["##contig=<ID=chr1,XIDX=3,IDX=4>"%string]))
       []) "chr1" = Ok 3
  /\ bcf.Atoi "007" = Ok 7
  /\ bcf.Atoi "-9223372036854775808" = Ok (- 2 ^ 63)
  /\ bcf.Atoi "9223372036854775808" = Err (ErrRange "9223372036854775808")
  /\ bcf.Atoi "99999999999999999999x" = Err (ErrRange "99999999999999999999x")
  /\ bcf.Atoi "12a" = Err (ErrSyntax "12a")
  /\ bcf.Atoi "+" = Err (ErrSyntax "+")
  /\ bcf.Atoi "" = Err (ErrSyntax "").
Proof. repeat split; vm_compute; reflexivity. Qed.


(** C9. The indexing of [contigDefinesReference] is not always in bounds: on
    a line that ends right after ["ID=" + refName] the index of the next
    character is the length of the line, and the function panics; so does
    [GetReferenceID] on a header with such a line. *)
Theorem contigDefinesReference_out_of_range :
  String.length "##contig=<ID=chr1" = 17%nat
  /\ String.index 0 "ID=chr1" "##contig=<ID=chr1" = Some 10%nat
  /\ bcf.contigDefinesReference "##contig=<ID=chr1" "chr1"
     = Panic "index out of range"
  /\ bcf.GetReferenceID (bcfStream sampleHeaderCut []) "chr1"
     = Panic "index out of range".
Proof. repeat split; vm_compute; reflexivity. Qed.

(** ** The chunk request handler *)

Section Handler.

Variable Reader : Type.
Variable Merge : list bgzf.Chunk -> Z -> list bgzf.Chunk.

Import api.

Lemma openLoop_success (failed later : list (ObjectHandle Reader))
    (object : ObjectHandle Reader) (reader : Reader) :
  forall (index : option Reader) (err : option error) (trace : list (event Reader)),
    Forall failsToOpen failed ->
    NewReader object = inl reader ->
    openLoop (failed ++ object :: later) index err trace
    = (Some reader, None,
       trace ++ map CallNewReader failed ++ [CallNewReader object]).
Proof.
  induction failed as [| o failed IH]; intros index err trace Hfail Hopen.
  - cbn [app openLoop map]. now rewrite Hopen.
  - inversion Hfail as [| ? ? [e He] Hfail']; subst.
    cbn [app openLoop map]. rewrite He.
    rewrite IH by assumption. now rewrite <- app_assoc.
Qed.

Lemma openLoop_failure (failed : list (ObjectHandle Reader)) (last : ObjectHandle Reader)
    (e : error) :
  forall (index : option Reader) (err : option error) (trace : list (event Reader)),
    Forall failsToOpen failed ->
    NewReader last = inr e ->
    openLoop (failed ++ [last]) index err trace
    = (None, Some e, trace ++ map CallNewReader (failed ++ [last])).
Proof.
  induction failed as [| o failed IH]; intros index err trace Hfail Hlast.
  - cbn [app openLoop map]. now rewrite Hlast.
  - inversion Hfail as [| ? ? [e' He'] Hfail']; subst.
    cbn [app openLoop map]. rewrite He'.
    rewrite IH by assumption. now rewrite <- app_assoc.
Qed.

(** Either some candidate opens, and there is a first one, or every
    candidate fails, and there is a last one. *)
Lemma candidates_cases (objects : list (ObjectHandle Reader)) :
  objects <> [] ->
  (exists failed object reader later,
     objects = failed ++ object :: later
     /\ Forall failsToOpen failed
     /\ NewReader object = inl reader)
  \/ (exists failed last e,
        objects = failed ++ [last]
        /\ Forall failsToOpen failed
        /\ NewReader last = inr e).
Proof.
  induction objects as [| o objects IH]; intros Hne; [contradiction |].
  destruct (NewReader o) as [reader | e] eqn:Ho.
  - left. exists [], o, reader, objects. repeat split; [constructor | exact Ho].
  - destruct objects as [| o' objects'].
    + right. exists [], o, e. repeat split; [constructor | exact Ho].
    + destruct (IH ltac:(discriminate))
        as [(failed & object & reader & later & Heq & Hfail & Hopen)
           | (failed & last & e' & Heq & Hfail & Hlast)].
      * left. exists (o :: failed), object, reader, later.
        rewrite Heq. repeat split; [| exact Hopen].
        constructor; [now exists e | exact Hfail].
      * right. exists (o :: failed), last, e'.
        rewrite Heq. repeat split; [| exact Hlast].
        constructor; [now exists e | exact Hfail].
Qed.

(** C7. For a list of candidates that is not empty, [handle] calls
    [NewReader] on the candidates in order; it stops at the first that
    opens, reads the index from that reader and calls no later candidate;
    when every candidate fails it returns the storage error that wraps the
    error of the last one, and the decoder is not called. *)
Theorem handle_opens_in_order (req : chunksRequest Reader) :
  indexObjects req <> [] ->
  (exists failed object reader later,
     indexObjects req = failed ++ object :: later
     /\ Forall failsToOpen failed
     /\ NewReader object = inl reader
     /\ snd (handle Merge req)
        = map CallNewReader failed
          ++ [CallNewReader object; CallRead (Some reader);
              CallClose (Some reader)]
     /\ fst (handle Merge req)
        = match read req (Some reader) (region req) with
          | Ok chunks => Ok (Merge chunks (blockSizeLimit req))
          | Err e => Err (Errorf "reading index" e)
          | Panic msg => Panic msg
          | OutOfFuel => OutOfFuel
          end)
  \/ (exists failed last e,
        indexObjects req = failed ++ [last]
        /\ Forall failsToOpen failed
        /\ NewReader last = inr e
        /\ handle Merge req
           = (Err (StorageError "opening index" e),
              map CallNewReader (indexObjects req))
        /\ forall index, ~ In (CallRead index) (snd (handle Merge req))).
Proof.
  intros Hne.
  destruct (candidates_cases _ Hne)
    as [(failed & object & reader & later & Heq & Hfail & Hopen)
       | (failed & last & e & Heq & Hfail & Hlast)].
  - left. exists failed, object, reader, later.
    repeat (split; [assumption |]).
    unfold handle. rewrite Heq.
    rewrite (openLoop_success failed later object reader None None []
               Hfail Hopen).
    cbn [app].
    destruct (read req (Some reader) (region req));
      cbn [fst snd]; rewrite <- app_assoc; split; reflexivity.
  - right. exists failed, last, e.
    repeat (split; [assumption |]).
    assert (Hhandle : handle Merge req
                      = (Err (StorageError "opening index" e),
                         map CallNewReader (indexObjects req))).
    { unfold handle. rewrite Heq.
      rewrite (openLoop_failure failed last e None None [] Hfail Hlast).
      reflexivity. }
    split; [exact Hhandle |].
    intros index Hin. rewrite Hhandle in Hin. cbn [snd] in Hin.
    apply in_map_iff in Hin. destruct Hin as (o & Ho & _). discriminate.
Qed.

(** C10. With no candidate at all the loop body never runs and the
    recorded error stays nil: [handle] returns no storage error, and it
    calls the decoder with the nil reader. Nor does it return anything
    else: once the decoder is back, the deferred [Close] on the nil reader
    panics. *)
Theorem handle_no_candidates (req : chunksRequest Reader) :
  indexObjects req = [] ->
  openLoop (indexObjects req) None None [] = (None, None, [])
  /\ snd (handle Merge req) = [CallRead None; CallClose None]
  /\ (forall e, fst (handle Merge req) <> Err e)
  /\ (forall chunks, fst (handle Merge req) <> Ok chunks)
  /\ fst (handle Merge req)
     = match read req None (region req) with
       | OutOfFuel => OutOfFuel
       | Ok _ | Err _ | Panic _ => Panic "nil pointer dereference"
       end.
Proof.
  intros Hnil. unfold handle. rewrite Hnil. cbn [openLoop app].
  split; [reflexivity |].
  destruct (read req None (region req));
    cbn [fst snd]; repeat split; intros; discriminate.
Qed.

End Handler.

Lemma handle_opens_in_order_witness :
  (exists failed object reader later,
     sampleObjects = failed ++ object :: later
     /\ Forall api.failsToOpen failed
     /\ api.NewReader object = inl reader
     /\ snd (api.handle sampleMerge sampleRequest)
        = map api.CallNewReader failed
          ++ [api.CallNewReader object; api.CallRead (Some reader);
              api.CallClose (Some reader)]
     /\ fst (api.handle sampleMerge sampleRequest)
        = match sampleRead (Some reader) sampleRegion with
          | Ok chunks => Ok (sampleMerge chunks 65536)
          | Err e => Err (Errorf "reading index" e)
          | Panic msg => Panic msg
          | OutOfFuel => OutOfFuel
          end)
  \/ (exists failed last e,
        sampleObjects = failed ++ [last]
        /\ Forall api.failsToOpen failed
        /\ api.NewReader last = inr e
        /\ api.handle sampleMerge sampleRequest
           = (Err (StorageError "opening index" e),
              map api.CallNewReader sampleObjects)
        /\ forall index,
             ~ In (api.CallRead index)
                  (snd (api.handle sampleMerge sampleRequest))).
Proof.
  apply (handle_opens_in_order (list byte) sampleMerge sampleRequest).
  discriminate.
Defined.

(** On the sample request the second candidate is the one read, and the
    third is never opened. *)
Example handle_sample :
  api.handle sampleMerge sampleRequest
  = (Ok [bgzf.mkChunk 0 50; bgzf.mkChunk 500 600],
     [api.CallNewReader (api.mkObject "sample.bcf.gz.csi"
                           (inr (External "object does not exist")));
      api.CallNewReader (api.mkObject "sample.csi"
                           (inl (Index.encode sampleIndex)));
      api.CallRead (Some (Index.encode sampleIndex));
      api.CallClose (Some (Index.encode sampleIndex))]).
Proof. vm_compute. reflexivity. Qed.

Lemma handle_no_candidates_witness :
  snd (api.handle sampleMerge emptyRequest)
  = [api.CallRead None; api.CallClose None]
  /\ fst (api.handle sampleMerge emptyRequest)
     = Panic "nil pointer dereference".
Proof.
  destruct (handle_no_candidates (list byte) sampleMerge emptyRequest eq_refl)
    as (_ & Htrace & _ & _ & Hresult).
  split; [exact Htrace | exact Hresult].
Defined.

(** ** More on the coordinate binning *)

Lemma shiftr_preimage (a b s k : Z) :
  0 <= s -> 0 <= a <= b -> Z.shiftr a s <= k <= Z.shiftr b s ->
  exists x, a <= x <= b /\ Z.shiftr x s = k.
Proof.
  intros Hs Hab Hk. rewrite !Z.shiftr_div_pow2 in Hk by assumption.
  assert (Hm : 0 < 2 ^ s) by (apply Z.pow_pos_nonneg; lia).
  destruct (Z.eq_dec k (a / 2 ^ s)) as [-> | Hne].
  - exists a. split; [lia |]. now rewrite Z.shiftr_div_pow2.
  - exists (k * 2 ^ s). rewrite Z.shiftr_div_pow2 by assumption.
    rewrite Z.div_mul by lia.
    pose proof (Z.mul_succ_div_gt a (2 ^ s) Hm).
    pose proof (Z.mul_div_le b (2 ^ s) Hm).
    split; [nia | reflexivity].
Qed.

(** X1. With at most six levels that address every coordinate below [2^29],
    the list returned is exactly the set of the bins that hold a coordinate
    of [start .. end-1] at one of the levels [0 .. depth]: no overlapping
    bin is left out and no other bin is selected. *)
Theorem BinsForRange_bins_of_range (start end_ minShift depth : Z)
    (fuel : nat) :
  0 <= start -> 0 <= end_ ->
  0 <= depth <= 5 -> 29 <= minShift + 3 * depth < 2 ^ 31 ->
  (fuelFor start end_ depth <= fuel)%nat ->
  exists bins,
    csi.BinsForRange fuel start end_ minShift depth = Some bins
    /\ forall bin : Z,
         In bin bins
         <-> exists (l : nat) (x : Z),
               Z.of_nat l <= depth /\ start <= x < clampEnd end_
               /\ bin = binAt minShift depth l x.
Proof.
  intros Hs He Hd Hcover Hfuel.
  pose proof (clampEnd_bounds end_ He) as Hc.
  destruct (Z.le_gt_cases (clampEnd end_) start) as [Hle | Hlt].
  - exists []. split; [apply BinsForRange_empty; now left |].
    intros bin. split; [intros [] |]. intros (l & x & _ & Hx & _). lia.
  - exists (allLevelIds start (clampEnd end_ - 1) minShift depth). split.
    + rewrite BinsForRange_levels by lia.
      rewrite allLevelIds_uint16; [reflexivity | lia ..].
    + intros bin. unfold allLevelIds. rewrite in_flat_map. split.
      * intros (l & Hl & Hin). apply in_seq in Hl.
        unfold levelIds in Hin. apply In_interval in Hin.
        assert (Hshift : 0 <= levelShift minShift depth l)
          by (unfold levelShift; lia).
        destruct (shiftr_preimage start (clampEnd end_ - 1)
                    (levelShift minShift depth l) (bin - levelBase l))
          as (x & Hx & Hbin); try lia.
        exists l, x. unfold binAt. repeat split; lia.
      * intros (l & x & Hl & Hx & ->). exists l. split; [apply in_seq; lia |].
        unfold levelIds, binAt. apply In_interval.
        assert (Hshift : 0 <= levelShift minShift depth l)
          by (unfold levelShift; lia).
        pose proof (shiftr_mono start x _ Hshift ltac:(lia)).
        pose proof (shiftr_mono x (clampEnd end_ - 1) _ Hshift ltac:(lia)).
        lia.
Qed.

Lemma BinsForRange_bins_of_range_witness :
  exists bins,
    csi.BinsForRange 17 0 16 14 5 = Some bins
    /\ forall bin : Z,
         In bin bins
         <-> exists (l : nat) (x : Z),
               Z.of_nat l <= 5 /\ 0 <= x < clampEnd 16
               /\ bin = binAt 14 5 l x.
Proof.
  apply (BinsForRange_bins_of_range 0 16 14 5 17);
    [lia | lia | lia | lia | vm_compute; lia].
Defined.

Lemma StronglySorted_zrange (n : nat) :
  forall b : Z, StronglySorted Z.lt (zrange b n).
Proof.
  induction n as [| n IH]; intros b; cbn [zrange]; constructor.
  - apply IH.
  - apply Forall_forall. intros x Hx. apply In_zrange in Hx. lia.
Qed.

Lemma StronglySorted_app {A : Type} (R : A -> A -> Prop) (a b : list A) :
  StronglySorted R a -> StronglySorted R b ->
  (forall x y, In x a -> In y b -> R x y) ->
  StronglySorted R (a ++ b).
Proof.
  induction a as [| x a IH]; intros Ha Hb Hab; [exact Hb |].
  inversion Ha as [| ? ? Ha' Hx]; subst. cbn [app]. constructor.
  - apply IH; [assumption | assumption |].
    intros u v Hu Hv. apply Hab; [now right | assumption].
  - apply Forall_app. split; [exact Hx |].
    apply Forall_forall. intros y Hy. apply Hab; [now left | assumption].
Qed.

Lemma StronglySorted_levels (start last minShift depth : Z) (k : nat) :
  0 <= start <= last -> last < 2 ^ 29 -> 0 <= minShift ->
  29 <= minShift + 3 * depth ->
  forall l : nat,
    Z.of_nat l + Z.of_nat k <= depth + 1 ->
    StronglySorted Z.lt
      (flat_map (levelIds start last minShift depth) (seq l k)).
Proof.
  intros Hs Hl Hm Hcover.
  induction k as [| k IH]; intros l Hlk; cbn [seq flat_map]; [constructor |].
  apply StronglySorted_app.
  - apply StronglySorted_zrange.
  - apply IH. lia.
  - intros x y Hx Hy.
    apply (levelIds_range start last minShift depth) in Hx; try lia.
    apply (levels_range start last minShift depth) in Hy; try lia.
Qed.

(** X2. With at most six levels that address every coordinate below [2^29],
    the bins come back in strictly ascending order, coarsest level first,
    and every one is below the id of the metadata bin (37450), so for a
    region with a start or an end the bin filter never accepts the metadata
    bin. *)
Theorem BinsForRange_ascending (region : genomics.Region)
    (minShift depth : Z) (fuel : nat) :
  wfRegion region ->
  0 <= depth <= 5 -> 29 <= minShift + 3 * depth < 2 ^ 31 ->
  (fuelFor (genomics.Start region) (genomics.End region) depth <= fuel)%nat ->
  exists bins,
    csi.BinsForRange fuel (genomics.Start region) (genomics.End region)
      minShift depth = Some bins
    /\ StronglySorted Z.lt bins
    /\ Forall (fun bin => 0 <= bin < csi.MetadataBeanID) bins
    /\ (~ (genomics.Start region = 0 /\ genomics.End region = 0) ->
        forall referenceID : Z,
          csi.RegionContainsBin region referenceID csi.MetadataBeanID bins
          = false).
Proof.
  intros (Href & Hs & He) Hd Hcover Hfuel.
  pose proof (clampEnd_bounds (genomics.End region) ltac:(lia)) as Hc.
  assert (Hfilter : forall bins,
             Forall (fun bin => 0 <= bin < csi.MetadataBeanID) bins ->
             ~ (genomics.Start region = 0 /\ genomics.End region = 0) ->
             forall referenceID : Z,
               csi.RegionContainsBin region referenceID csi.MetadataBeanID bins
               = false).
  { intros bins Hall Hne referenceID. unfold csi.RegionContainsBin.
    destruct ((genomics.ReferenceID region >=? 0)
              && negb (referenceID =? genomics.ReferenceID region));
      [reflexivity |].
    destruct (Z.eqb_spec (genomics.Start region) 0);
      destruct (Z.eqb_spec (genomics.End region) 0); cbn [andb];
      try tauto;
      (apply not_true_is_false; intros Hex; apply existsb_eqb_In in Hex;
       rewrite Forall_forall in Hall; apply Hall in Hex; lia). }
  destruct (Z.le_gt_cases (clampEnd (genomics.End region))
              (genomics.Start region)) as [Hle | Hlt].
  - exists []. split; [apply BinsForRange_empty; now left |].
    split; [constructor |]. split; [constructor |].
    apply Hfilter. constructor.
  - exists (allLevelIds (genomics.Start region)
              (clampEnd (genomics.End region) - 1) minShift depth).
    assert (Hall : Forall (fun bin => 0 <= bin < csi.MetadataBeanID)
                     (allLevelIds (genomics.Start region)
                        (clampEnd (genomics.End region) - 1) minShift depth)).
    { apply Forall_forall. intros x Hx. unfold allLevelIds in Hx.
      apply (levels_range (genomics.Start region)
               (clampEnd (genomics.End region) - 1) minShift depth) in Hx;
        [| lia ..].
      pose proof (levelBase_mono (0 + (Z.to_nat depth + 1)) 6 ltac:(lia)) as H6.
      change (levelBase 6) with 37449 in H6.
      change (levelBase 0) with 0 in Hx.
      unfold csi.MetadataBeanID. lia. }
    split.
    + rewrite BinsForRange_levels by lia.
      rewrite allLevelIds_uint16; [reflexivity | lia ..].
    + split; [apply StronglySorted_levels; lia |].
      split; [exact Hall | now apply Hfilter].
Qed.

Lemma BinsForRange_ascending_witness :
  exists bins,
    csi.BinsForRange 101 0 100 14 5 = Some bins
    /\ StronglySorted Z.lt bins
    /\ Forall (fun bin => 0 <= bin < csi.MetadataBeanID) bins
    /\ (~ (0 = 0 /\ 100 = 0) ->
        forall referenceID : Z,
          csi.RegionContainsBin sampleRegion referenceID csi.MetadataBeanID bins
          = false).
Proof.
  apply (BinsForRange_ascending sampleRegion 14 5 101);
    [exact sampleRegion_wf | lia | lia | vm_compute; lia].
Defined.

Lemma binsLoop_uint16 (fuel : nat) :
  forall (i e : Z) (bins : list Z),
    csi.binsLoop fuel i e = Some bins ->
    Forall (fun bin => 0 <= bin < 2 ^ 16) bins.
Proof.
  induction fuel as [| fuel IH]; intros i e bins H; [discriminate |].
  cbn [csi.binsLoop] in H. destruct (i <=? e).
  - destruct (csi.binsLoop fuel (uint64 (i + 1)) e) as [rest |] eqn:Hrest;
      [| discriminate].
    injection H as <-. constructor; [| now apply (IH _ _ _ Hrest)].
    unfold uint16. apply Z.mod_pos_bound. lia.
  - injection H as <-. constructor.
Qed.

Lemma levelLoop_uint16 (fuel : nat) :
  forall (inner : nat) (start last udepth l t s : Z) (bins : list Z),
    csi.levelLoop fuel inner start last udepth l t s = Some bins ->
    Forall (fun bin => 0 <= bin < 2 ^ 16) bins.
Proof.
  induction fuel as [| fuel IH]; intros inner start last udepth l t s bins H;
    [discriminate |].
  cbn [csi.levelLoop] in H. destruct (l <=? udepth).
  - destruct (csi.binsLoop inner _ _) as [level |] eqn:Hlevel; [| discriminate].
    destruct (csi.levelLoop fuel _ _ _ _ _ _ _) as [rest |] eqn:Hrest;
      [| discriminate].
    injection H as <-. apply Forall_app. split.
    + now apply (binsLoop_uint16 _ _ _ _ Hlevel).
    + now apply (IH _ _ _ _ _ _ _ _ Hrest).
  - injection H as <-. constructor.
Qed.

(** X3. For a depth that is not negative [BinsForRange] returns, whatever
    the shift is (negative, or so large that the shift count wraps), and
    what it returns are 16-bit values. *)
Theorem BinsForRange_terminates (start end_ minShift depth : Z) (fuel : nat) :
  0 <= start -> 0 <= end_ -> 0 <= depth < 2 ^ 31 ->
  (fuelFor start end_ depth <= fuel)%nat ->
  exists bins,
    csi.BinsForRange fuel start end_ minShift depth = Some bins
    /\ Forall (fun bin => 0 <= bin < 2 ^ 16) bins.
Proof.
  intros Hs He Hd Hfuel.
  destruct (BinsForRange_returns fuel start end_ minShift depth Hs He Hd Hfuel)
    as [bins Hbins].
  exists bins. split; [exact Hbins |].
  unfold csi.BinsForRange in Hbins.
  destruct (_ <=? start); [injection Hbins as <-; constructor |].
  destruct (start >? csi.maximumReadLength);
    [injection Hbins as <-; constructor |].
  now apply (levelLoop_uint16 _ _ _ _ _ _ _ _ _ Hbins).
Qed.

Lemma BinsForRange_terminates_witness :
  exists bins,
    csi.BinsForRange 17 0 16 (-7) 3 = Some bins
    /\ Forall (fun bin => 0 <= bin < 2 ^ 16) bins.
Proof.
  apply (BinsForRange_terminates 0 16 (-7) 3 17);
    [lia | lia | lia | vm_compute; lia].
Defined.

(** ** The magic check *)

Lemma differ_false (got : list byte) :
  forall want : list byte,
    List.length got = List.length want ->
    (common.differ got want = false <-> got = want).
Proof.
  induction got as [| g got IH]; intros [| w want] Hlen;
    try discriminate; cbn [common.differ]; [tauto |].
  injection Hlen as Hlen. destruct (Byte.eqb g w) eqn:Hgw.
  - apply Byte.byte_dec_bl in Hgw. subst. rewrite (IH want Hlen).
    split; [now intros -> | now intros [= ->]].
  - apply Byte.eqb_false in Hgw. split; [discriminate | now intros [= -> _]].
Qed.

(** X4. [CheckMagic] succeeds exactly on the streams that begin with the
    wanted bytes, and then it has read those bytes and no more; on a stream
    that ends before them it reports the read error ([EOF] on an empty
    stream, [ErrUnexpectedEOF] otherwise), and on other bytes the format
    error that carries the bytes observed. The check the index decoder runs
    first is the same function. *)
Theorem CheckMagic_spec (want s : list byte) :
  (forall rest, s = want ++ rest -> common.CheckMagic want s = Ok (tt, rest))
  /\ (forall r, common.CheckMagic want s = Ok r -> s = want ++ snd r)
  /\ ((List.length s < List.length want)%nat ->
      common.CheckMagic want s
      = Err (Errorf "reading magic"
               (match s with [] => EOF | _ :: _ => ErrUnexpectedEOF end)))
  /\ ((List.length want <= List.length s)%nat ->
      firstn (List.length want) s <> want ->
      common.CheckMagic want s
      = Err (WrongMagic (firstn (List.length want) s) want))
  /\ common.CheckMagic want s = binary.ExpectBytes want s.
Proof.
  assert (Hfull : (List.length want <= List.length s)%nat ->
                  common.CheckMagic want s
                  = if common.differ (firstn (List.length want) s) want
                    then Err (WrongMagic (firstn (List.length want) s) want)
                    else Ok (tt, skipn (List.length want) s)).
  { intros Hle. unfold common.CheckMagic, binary.bind, binary.wrap,
      binary.readFull.
    destruct (Nat.leb_spec (List.length want) (List.length s)); [| lia].
    now destruct (common.differ _ want). }
  assert (Hshort : (List.length s < List.length want)%nat ->
                   common.CheckMagic want s
                   = Err (Errorf "reading magic"
                            (match s with
                             | [] => EOF
                             | _ :: _ => ErrUnexpectedEOF
                             end))).
  { intros Hlt. unfold common.CheckMagic, binary.bind, binary.wrap,
      binary.readFull.
    destruct (Nat.leb_spec (List.length want) (List.length s)); [lia |].
    now destruct s. }
  assert (Hlen : (List.length want <= List.length s)%nat ->
                 List.length (firstn (List.length want) s) = List.length want)
    by (intros Hle; rewrite length_firstn; lia).
  repeat split.
  - intros rest ->. rewrite Hfull by (rewrite length_app; lia).
    rewrite firstn_exact, skipn_exact.
    now rewrite (proj2 (differ_false want want eq_refl) eq_refl).
  - intros r Hr.
    destruct (Nat.le_gt_cases (List.length want) (List.length s)) as [Hle | Hlt];
      [| rewrite Hshort in Hr by assumption; discriminate].
    rewrite Hfull in Hr by assumption.
    destruct (common.differ _ want) eqn:Hd; [discriminate |].
    injection Hr as <-. cbn [snd].
    apply differ_false in Hd; [| now apply Hlen].
    rewrite <- Hd at 1. symmetry. apply firstn_skipn.
  - exact Hshort.
  - intros Hle Hne. rewrite Hfull by assumption.
    destruct (common.differ _ want) eqn:Hd; [reflexivity |].
    apply differ_false in Hd; [contradiction | now apply Hlen].
  - unfold common.CheckMagic, binary.ExpectBytes, binary.bind.
    destruct (binary.wrap _ _ s) as [[got s'] | e | msg |] eqn:Hread;
      try reflexivity.
    assert (Hgot : List.length got = List.length want).
    { unfold binary.wrap, binary.readFull in Hread.
      destruct (Nat.leb_spec (List.length want) (List.length s)) as [Hle | Hlt].
      - injection Hread as <- _. now apply Hlen.
      - destruct s; discriminate. }
    destruct (list_eq_dec Byte.byte_eq_dec got want) as [Heq | Hne].
    + now rewrite (proj2 (differ_false got want Hgot) Heq).
    + destruct (common.differ got want) eqn:Hd; [reflexivity |].
      apply differ_false in Hd; [contradiction | assumption].
Qed.

(** ** The decoder on any stream *)

Section Safety.

Import binary.

Lemma safely_bind {A B : Type} (P : A -> Prop) (Q : B -> Prop) (m : M A)
    (k : A -> M B) (s : list byte) :
  safely P (m s) -> (forall a s', P a -> safely Q (k a s')) ->
  safely Q (bind m k s).
Proof.
  unfold bind, safely.
  destruct (m s) as [[a s'] | e | msg |]; intros Hm Hk;
    [now apply Hk | exact I | contradiction | exact I].
Qed.

Lemma safely_wrap {A : Type} (P : A -> Prop) (msg : string) (m : M A)
    (s : list byte) :
  safely P (m s) -> safely P (wrap msg m s).
Proof. unfold wrap, safely. now destruct (m s) as [[a s'] | e | msg' |]. Qed.

Lemma safely_readFull (n : nat) (s : list byte) :
  safely (fun _ => True) (readFull n s).
Proof.
  unfold readFull, safely. destruct (n <=? List.length s)%nat; [exact I |].
  now destruct s.
Qed.

Lemma safely_readInt32 (s : list byte) : safely (fun _ => True) (readInt32 s).
Proof.
  unfold readInt32.
  apply (safely_bind (fun _ => True)); [apply safely_readFull |].
  intros a s' _. exact I.
Qed.

Lemma length_storeEnd (h : Heap.heap) :
  forall (p : Heap.ptr) (v : Z),
    List.length (Heap.storeEnd h p v) = List.length h.
Proof.
  induction h as [| c h IH]; intros p v; [reflexivity |].
  destruct p; cbn [Heap.storeEnd List.length]; [reflexivity | now rewrite IH].
Qed.

Lemma validState_chunkBody (includeChunks : bool) (bin : bcf.binHeader)
    (st : bcf.state) (s : list byte) :
  validState st ->
  safely validState (bcf.chunkBody 0%nat includeChunks bin st s).
Proof.
  intros Hst. unfold bcf.chunkBody.
  apply (safely_bind (fun _ => True)).
  - apply safely_wrap. unfold bcf.readChunk.
    apply (safely_bind (fun _ => True)); [apply safely_readFull |].
    intros a s' _. exact I.
  - intros chunk s' _.
    destruct (bcf.ID bin =? csi.MetadataBeanID); [exact Hst |].
    set (st1 := if includeChunks && (bgzf.End chunk >=? bcf.Offset bin)
                then let (p, h) := Heap.new (bcf.mem st) chunk in
                     bcf.mkState (bcf.chunks st ++ [p]) h
                else st).
    assert (Hst1 : validState st1).
    { unfold st1. destruct (includeChunks && _); [| exact Hst].
      destruct Hst as ((headerEnd & cells & Hmem) & Hall & Hhd).
      unfold validState, Heap.new.
      cbn [bcf.mem bcf.chunks]. rewrite length_app. cbn [List.length].
      split; [| split].
      - exists headerEnd, (cells ++ [chunk]). now rewrite Hmem.
      - apply Forall_app. split.
        + apply Forall_forall. intros p Hp.
          rewrite Forall_forall in Hall. specialize (Hall p Hp). lia.
        + constructor; [lia | constructor].
      - destruct (bcf.chunks st); [discriminate | exact Hhd]. }
    destruct Hst1 as ((headerEnd & cells & Hmem) & Hall & Hhd).
    unfold Heap.load. rewrite Hmem. cbn [nth_error].
    destruct (bgzf.End _ >? bgzf.Start chunk); unfold ret, safely.
    + unfold validState. cbn [bcf.mem bcf.chunks].
      rewrite length_storeEnd. rewrite Hmem in *.
      cbn [Heap.storeEnd bgzf.Start].
      split; [now eexists; eexists | now split].
    + unfold validState. rewrite Hmem. split; [now eexists; eexists |].
      rewrite Hmem in Hall. now split.
Qed.

Lemma validState_chunkLoop (n : nat) (includeChunks : bool)
    (bin : bcf.binHeader) :
  forall (st : bcf.state) (s : list byte),
    validState st ->
    safely validState (bcf.chunkLoop n 0%nat includeChunks bin st s).
Proof.
  induction n as [| n IH]; intros st s Hst; [exact Hst |].
  cbn [bcf.chunkLoop].
  apply (safely_bind validState); [now apply validState_chunkBody |].
  intros st' s' Hst'. now apply IH.
Qed.

Lemma validState_binLoop (n : nat) (region : genomics.Region)
    (bins : list Z) (reference : Z) :
  forall (st : bcf.state) (s : list byte),
    validState st ->
    safely validState (bcf.binLoop n region bins reference 0%nat st s).
Proof.
  induction n as [| n IH]; intros st s Hst; [exact Hst |].
  cbn [bcf.binLoop].
  apply (safely_bind (fun _ => True)).
  - apply safely_wrap. unfold bcf.readBin.
    apply (safely_bind (fun _ => True)); [apply safely_readFull |].
    intros a s' _. exact I.
  - intros bin s' _.
    apply (safely_bind validState); [now apply validState_chunkLoop |].
    intros st' s'' Hst'. now apply IH.
Qed.

Lemma validState_refLoop (n : nat) (region : genomics.Region)
    (bins : list Z) :
  forall (reference : Z) (st : bcf.state) (s : list byte),
    validState st ->
    safely validState (bcf.refLoop n region bins reference 0%nat st s).
Proof.
  induction n as [| n IH]; intros reference st s Hst; [exact Hst |].
  cbn [bcf.refLoop].
  apply (safely_bind (fun _ => True));
    [apply safely_wrap, safely_readInt32 |].
  intros binCount s' _.
  apply (safely_bind validState); [now apply validState_binLoop |].
  intros st' s'' Hst'. now apply IH.
Qed.

Lemma deref_valid (h : Heap.heap) (ps : list Heap.ptr) :
  Forall (fun p => (p < List.length h)%nat) ps ->
  exists cs, Heap.deref h ps = Some cs /\ List.length cs = List.length ps.
Proof.
  induction ps as [| p ps IH]; intros Hall; [now exists [] |].
  inversion Hall as [| ? ? Hp Hps]; subst.
  destruct (IH Hps) as (cs & Hcs & Hlen).
  cbn [Heap.deref]. unfold Heap.load.
  destruct (nth_error h p) as [c |] eqn:Hc.
  - rewrite Hcs. exists (c :: cs). split; [reflexivity |].
    cbn [List.length]. now rewrite Hlen.
  - apply nth_error_None in Hc. lia.
Qed.

(** What [Read] returns on any stream: never a panic, and pointers that
    are all in the heap, the first of them to the header cell. *)
Lemma Read_safe (fuel : nat) (csiFile : list byte) (region : genomics.Region) :
  match bcf.Read fuel csiFile region with
  | Ok (ps, h) => validState (bcf.mkState ps h)
  | Panic _ => False
  | Err _ | OutOfFuel => True
  end.
Proof.
  unfold bcf.Read.
  match goal with
  | |- context [match ?body csiFile with _ => _ end] =>
      set (result := body csiFile)
  end.
  assert (Hbody : safely (fun r => validState (bcf.mkState (fst r) (snd r)))
                    result).
  { unfold result. apply (safely_bind (fun _ => True)).
    { apply safely_wrap. unfold ExpectBytes.
      apply (safely_bind (fun _ => True));
        [apply safely_wrap, safely_readFull |].
      intros got s' _. now destruct (list_eq_dec _ got bcf.csiMagic). }
    intros _ s1 _.
    apply (safely_bind (fun _ => True));
      [apply safely_wrap, safely_readInt32 |].
    intros minShift s2 _.
    apply (safely_bind (fun _ => True));
      [apply safely_wrap, safely_readInt32 |].
    intros depth s3 _.
    destruct (csi.BinsForRange _ _ _ _ _) as [bins |]; [| exact I].
    apply (safely_bind (fun _ => True));
      [apply safely_wrap, safely_readInt32 |].
    intros laux s4 _.
    apply (safely_bind (fun _ => True)).
    { apply safely_wrap. unfold discardN, safely.
      destruct (laux <=? 0); [exact I |].
      now destruct (laux <=? Z.of_nat (List.length s4)). }
    intros _ s5 _. cbn [Heap.new List.length app].
    apply (safely_bind (fun _ => True));
      [apply safely_wrap, safely_readInt32 |].
    intros refCount s6 _.
    apply (safely_bind validState).
    { apply validState_refLoop. unfold validState.
      cbn [bcf.mem bcf.chunks List.length hd_error].
      split; [now eexists; eexists |].
      split; [constructor; [lia | constructor] | reflexivity]. }
    intros st' s7 Hst'. unfold ret, safely. cbn [fst snd].
    now destruct st'. }
  unfold safely in Hbody.
  destruct result as [[[ps h] s'] | e | msg |]; auto.
Qed.

End Safety.

(** X5. Whatever the stream is, the decoder does not panic: it returns
    chunks or an error (or is still in [BinsForRange]); and the list it
    returns is never empty: its first chunk is the header chunk, which
    starts at 0. *)
Theorem Read_never_panics (fuel : nat) (csiFile : list byte)
    (region : genomics.Region) :
  (forall msg, bcf.Read fuel csiFile region <> Panic msg)
  /\ (forall msg, bcf.ReadChunks fuel csiFile region <> Panic msg)
  /\ (forall cs,
        bcf.ReadChunks fuel csiFile region = Ok cs ->
        exists header rest, cs = header :: rest /\ bgzf.Start header = 0).
Proof.
  pose proof (Read_safe fuel csiFile region) as Hsafe.
  unfold bcf.ReadChunks.
  destruct (bcf.Read fuel csiFile region) as [[ps h] | e | msg |];
    try contradiction;
    try (repeat split; intros; discriminate).
  destruct Hsafe as ((headerEnd & cells & Hmem) & Hall & Hhd).
  cbn [bcf.mem bcf.chunks] in Hmem, Hall, Hhd.
  destruct (deref_valid h ps Hall) as (cs & Hcs & Hlen). rewrite Hcs.
  split; [discriminate |]. split; [discriminate |].
  intros cs' [= <-].
  destruct ps as [| p ps]; [discriminate |]. injection Hhd as ->.
  cbn [Heap.deref] in Hcs. unfold Heap.load in Hcs.
  rewrite Hmem in Hcs. cbn [nth_error] in Hcs.
  destruct (Heap.deref _ ps) as [cs0 |]; [| discriminate].
  injection Hcs as <-. now eexists; eexists.
Qed.

(** ** Truncated streams *)

Section Truncation.

Import binary.

Lemma consumes_bind {A B : Type} (m : M A) (k : A -> M B)
    (c1 c2 : list byte) (a : A) (b : B) :
  consumes m c1 a -> consumes (k a) c2 b -> consumes (bind m k) (c1 ++ c2) b.
Proof.
  intros [Hm Hmcut] [Hk Hkcut]. split.
  - intros t. rewrite <- app_assoc. rewrite (bind_Ok _ _ _ _ _ (Hm _)).
    apply Hk.
  - intros p q Heq Hq. apply app_eq_app in Heq.
    destruct Heq as [l [[Hc1 Hq'] | [Hp Hc2]]].
    + destruct l as [| x l].
      * rewrite app_nil_r in Hc1. subst p. cbn [app] in Hq'. subst q.
        destruct (Hkcut [] c2 eq_refl Hq) as [e He]. exists e.
        specialize (Hm []). rewrite app_nil_r in Hm.
        now rewrite (bind_Ok _ _ _ _ _ Hm).
      * destruct (Hmcut p (x :: l) Hc1 ltac:(discriminate)) as [e He].
        exists e. unfold bind. now rewrite He.
    + subst p. destruct (Hkcut l q Hc2 Hq) as [e He]. exists e.
      now rewrite (bind_Ok _ _ _ _ _ (Hm l)).
Qed.

Lemma consumes_ret {A : Type} (a : A) : consumes (ret a) [] a.
Proof.
  split; [reflexivity |].
  intros p q Heq Hq. symmetry in Heq. apply app_eq_nil in Heq.
  destruct Heq as [_ ->]. contradiction.
Qed.

Lemma consumes_wrap {A : Type} (msg : string) (m : M A) (c : list byte)
    (a : A) :
  consumes m c a -> consumes (wrap msg m) c a.
Proof.
  intros [Hm Hcut]. split.
  - intros t. now apply wrap_Ok.
  - intros p q Heq Hq. destruct (Hcut p q Heq Hq) as [e He].
    exists (Errorf msg e). unfold wrap. now rewrite He.
Qed.

Lemma consumes_readFull (n : nat) (c : list byte) :
  List.length c = n -> consumes (readFull n) c c.
Proof.
  intros Hlen. split; [intros t; now apply readFull_app |].
  intros p q Heq Hq. unfold readFull.
  assert (List.length p < n)%nat.
  { subst c. rewrite length_app in Hlen. destruct q; [contradiction |].
    cbn [List.length] in Hlen. lia. }
  destruct (Nat.leb_spec n (List.length p)); [lia |].
  destruct p; eexists; reflexivity.
Qed.

(** A read of a fixed number of bytes followed by a conversion. *)
Lemma consumes_read {A : Type} (n : nat) (f : list byte -> A)
    (c : list byte) :
  List.length c = n ->
  consumes (bind (readFull n) (fun bs => ret (f bs))) c (f c).
Proof.
  intros Hlen. rewrite <- (app_nil_r c) at 1.
  apply (consumes_bind _ _ c [] c); [now apply consumes_readFull |].
  apply consumes_ret.
Qed.

Lemma consumes_readInt32 (msg : string) (z : Z) :
  - 2 ^ 31 <= z < 2 ^ 31 -> consumes (wrap msg readInt32) (le_split 4 z) z.
Proof.
  intros Hz. apply consumes_wrap.
  rewrite <- (int32_le_split z Hz) at 2.
  apply (consumes_read 4 (fun bs => int32 (le_combine bs))).
  apply length_le_split.
Qed.

Lemma consumes_eq {A : Type} (m : M A) (c : list byte) (a a' : A) :
  a = a' -> consumes m c a -> consumes m c a'.
Proof. now intros ->. Qed.

Lemma consumes_chunkBody (includeChunks : bool) (bin : bcf.binHeader)
    (headerEnd : Z) (em : list bgzf.Chunk) (c : bgzf.Chunk) :
  Index.wfChunk c ->
  consumes (bcf.chunkBody 0%nat includeChunks bin (stateOf headerEnd em))
    (Index.encodeChunk c)
    (if bcf.ID bin =? csi.MetadataBeanID then stateOf headerEnd em
     else stateOf (Z.min headerEnd (bgzf.Start c))
            (em ++ (if includeChunks && (bgzf.End c >=? bcf.Offset bin)
                    then [c] else []))).
Proof.
  intros Hc. split; [intros t; now apply chunkBody_app |].
  intros p q Heq Hq. unfold bcf.chunkBody, bcf.readChunk.
  destruct (consumes_readFull 16 (Index.encodeChunk c)) as [_ Hcut].
  { unfold Index.encodeChunk. now rewrite length_app, !length_le_split. }
  destruct (Hcut p q Heq Hq) as [e He].
  exists (Errorf "reading chunk" e). unfold bind, wrap. now rewrite He.
Qed.

Lemma consumes_chunkLoop (includeChunks : bool) (bin : bcf.binHeader)
    (cs : list bgzf.Chunk) :
  forall (headerEnd : Z) (em : list bgzf.Chunk),
    Forall Index.wfChunk cs ->
    exists st,
      consumes (bcf.chunkLoop (List.length cs) 0%nat includeChunks bin
                  (stateOf headerEnd em))
        (flat_map Index.encodeChunk cs) st
      /\ exists headerEnd' em', st = stateOf headerEnd' em'.
Proof.
  induction cs as [| c cs IH]; intros headerEnd em Hwf.
  - exists (stateOf headerEnd em). split; [apply consumes_ret |].
    now exists headerEnd, em.
  - inversion Hwf as [| ? ? Hc Hcs]; subst.
    cbn [List.length bcf.chunkLoop flat_map].
    pose proof (consumes_chunkBody includeChunks bin headerEnd em c Hc) as Hbody.
    destruct (bcf.ID bin =? csi.MetadataBeanID).
    + destruct (IH headerEnd em Hcs) as (st & Hst & Hshape).
      exists st. split; [| exact Hshape].
      eapply consumes_bind; [exact Hbody | exact Hst].
    + destruct (IH (Z.min headerEnd (bgzf.Start c))
                  (em ++ (if includeChunks && (bgzf.End c >=? bcf.Offset bin)
                          then [c] else [])) Hcs) as (st & Hst & Hshape).
      exists st. split; [| exact Hshape].
      eapply consumes_bind; [exact Hbody | exact Hst].
Qed.

Lemma consumes_binLoop (region : genomics.Region) (candidates : list Z)
    (reference : Z) (bs : list Index.Bin) :
  forall (headerEnd : Z) (em : list bgzf.Chunk),
    Forall Index.wfBin bs ->
    exists st,
      consumes (bcf.binLoop (List.length bs) region candidates reference 0%nat
                  (stateOf headerEnd em))
        (flat_map Index.encodeBin bs) st
      /\ exists headerEnd' em', st = stateOf headerEnd' em'.
Proof.
  induction bs as [| b bs IH]; intros headerEnd em Hwf.
  - exists (stateOf headerEnd em). split; [apply consumes_ret |].
    now exists headerEnd, em.
  - inversion Hwf as [| ? ? Hb Hbs]; subst.
    destruct Hb as (Hid & Hoff & Hn & Hcs).
    cbn [List.length bcf.binLoop flat_map].
    set (n := Z.of_nat (List.length (Index.chunks b))).
    set (bin := bcf.mkBin (Index.id b) (Index.offset b) n).
    assert (Hread : consumes (wrap "reading bin header" bcf.readBin)
                      (le_split 4 (Index.id b) ++ le_split 8 (Index.offset b)
                       ++ le_split 4 n) bin).
    { split.
      - intros t. apply wrap_Ok. rewrite <- !app_assoc.
        apply readBin_app; unfold n; lia.
      - intros p q Heq Hq. unfold bcf.readBin.
        destruct (consumes_readFull 16
                    (le_split 4 (Index.id b) ++ le_split 8 (Index.offset b)
                     ++ le_split 4 n)) as [_ Hcut].
        { now rewrite !length_app, !length_le_split. }
        destruct (Hcut p q Heq Hq) as [e He].
        exists (Errorf "reading bin header" e). unfold bind, wrap.
        now rewrite He. }
    destruct (consumes_chunkLoop
                (csi.RegionContainsBin region reference (Index.id b) candidates)
                bin (Index.chunks b) headerEnd em Hcs)
      as (st1 & Hst1 & (h1 & em1 & ->)).
    destruct (IH h1 em1 Hbs) as (st & Hst & Hshape).
    exists st. split; [| exact Hshape].
    unfold Index.encodeBin. fold n.
    replace (le_split 4 (Index.id b) ++ le_split 8 (Index.offset b)
             ++ le_split 4 n ++ flat_map Index.encodeChunk (Index.chunks b))
      with ((le_split 4 (Index.id b) ++ le_split 8 (Index.offset b)
             ++ le_split 4 n) ++ flat_map Index.encodeChunk (Index.chunks b))
      by now rewrite <- !app_assoc.
    rewrite <- app_assoc.
    eapply consumes_bind; [exact Hread |].
    cbn [bcf.ID bcf.Chunks bin]. unfold n. rewrite Nat2Z.id.
    eapply consumes_bind; [exact Hst1 | exact Hst].
Qed.

Lemma consumes_refLoop (region : genomics.Region) (candidates : list Z)
    (rs : list (list Index.Bin)) :
  forall (reference headerEnd : Z) (em : list bgzf.Chunk),
    Forall Index.wfRef rs ->
    exists st,
      consumes (bcf.refLoop (List.length rs) region candidates reference 0%nat
                  (stateOf headerEnd em))
        (flat_map Index.encodeRef rs) st
      /\ exists headerEnd' em', st = stateOf headerEnd' em'.
Proof.
  induction rs as [| bs rs IH]; intros reference headerEnd em Hwf.
  - exists (stateOf headerEnd em). split; [apply consumes_ret |].
    now exists headerEnd, em.
  - inversion Hwf as [| ? ? Hr Hrs]; subst. destruct Hr as (Hn & Hbs).
    cbn [List.length bcf.refLoop flat_map].
    destruct (consumes_binLoop region candidates reference bs headerEnd em Hbs)
      as (st1 & Hst1 & (h1 & em1 & ->)).
    destruct (IH (reference + 1) h1 em1 Hrs) as (st & Hst & Hshape).
    exists st. split; [| exact Hshape].
    unfold Index.encodeRef. rewrite <- app_assoc.
    eapply consumes_bind;
      [apply (consumes_readInt32 _ (Z.of_nat (List.length bs))); lia |].
    rewrite Nat2Z.id.
    eapply consumes_bind; [exact Hst1 | exact Hst].
Qed.

End Truncation.

Section TruncatedIndex.

Import binary.

Lemma consumes_ExpectBytes (msg : string) (want : list byte) :
  consumes (wrap msg (ExpectBytes want)) want tt.
Proof.
  apply consumes_wrap. split; [intros t; apply ExpectBytes_app |].
  intros p q Heq Hq. unfold ExpectBytes.
  destruct (consumes_readFull (List.length want) want eq_refl) as [_ Hcut].
  destruct (Hcut p q Heq Hq) as [e He].
  exists (Errorf "reading magic" e). unfold bind, wrap. now rewrite He.
Qed.

Lemma consumes_discardN (msg : string) (bs : list byte) :
  consumes (wrap msg (discardN (Z.of_nat (List.length bs)))) bs tt.
Proof.
  apply consumes_wrap. split; [intros t; apply discardN_app |].
  intros p q -> Hq. unfold discardN. rewrite length_app.
  destruct q as [| x q]; [contradiction |]. cbn [List.length].
  destruct (Z.leb_spec (Z.of_nat (List.length p + S (List.length q))) 0);
    [lia |].
  destruct (Z.leb_spec (Z.of_nat (List.length p + S (List.length q)))
              (Z.of_nat (List.length p))); [lia |].
  now exists EOF.
Qed.

(** The whole of [Read] before its result is unpacked. *)
Lemma consumes_Read (fuel : nat) (i : Index.t) (region : genomics.Region)
    (candidates : list Z) :
  Index.wf i ->
  csi.BinsForRange fuel (genomics.Start region) (genomics.End region)
    (Index.minShift i) (Index.depth i) = Some candidates ->
  forall p q,
    Index.encode i = p ++ q -> q <> [] ->
    exists e, bcf.Read fuel p region = Err e.
Proof.
  intros (Hms & Hd & Haux & Hrefs & Hwf) Hbins p q Heq Hq.
  destruct (consumes_refLoop region candidates (Index.refs i) 0
              bgzf.LastAddress [] Hwf) as (st & Hst & _).
  unfold bcf.Read.
  match goal with
  | |- context [match ?body p with _ => _ end] => set (body' := body)
  end.
  assert (Hbody : consumes body' (Index.encode i)
                    (bcf.chunks st, bcf.mem st)).
  { unfold body', Index.encode.
    eapply consumes_bind; [apply consumes_ExpectBytes |].
    eapply consumes_bind; [apply consumes_readInt32; lia |].
    eapply consumes_bind; [apply consumes_readInt32; lia |].
    cbv beta. rewrite Hbins.
    eapply consumes_bind; [apply consumes_readInt32; lia |].
    eapply consumes_bind; [apply consumes_discardN |].
    cbn [Heap.new List.length app].
    eapply consumes_bind; [apply consumes_readInt32; lia |].
    cbv beta. rewrite Nat2Z.id.
    rewrite <- (app_nil_r (flat_map Index.encodeRef (Index.refs i))).
    eapply consumes_bind; [exact Hst | apply consumes_ret]. }
  destruct Hbody as [_ Hcut]. destruct (Hcut p q Heq Hq) as [e He].
  exists e. now rewrite He.
Qed.

End TruncatedIndex.

(** X6. A well-formed index cut short anywhere is an error: on every proper
    prefix of the stream the decoder reports an error, it never returns
    the chunks read so far. *)
Theorem Read_truncated (fuel : nat) (i : Index.t) (region : genomics.Region)
    (p q : list byte) :
  Index.wf i -> wfRegion region ->
  (fuelFor (genomics.Start region) (genomics.End region) (Index.depth i)
   <= fuel)%nat ->
  Index.encode i = p ++ q -> q <> [] ->
  exists e, bcf.ReadChunks fuel p region = Err e.
Proof.
  intros Hwf (Href & Hstart & Hend) Hfuel Heq Hq.
  assert (Hd : 0 <= Index.depth i < 2 ^ 31) by apply Hwf.
  destruct (BinsForRange_returns fuel (genomics.Start region)
              (genomics.End region) (Index.minShift i) (Index.depth i))
    as [candidates Hbins]; try lia.
  destruct (consumes_Read fuel i region candidates Hwf Hbins p q Heq Hq)
    as [e He].
  exists e. unfold bcf.ReadChunks. now rewrite He.
Qed.

Lemma Read_truncated_witness :
  exists e,
    bcf.ReadChunks 101 (removelast (Index.encode sampleIndex)) sampleRegion
    = Err e.
Proof.
  apply (Read_truncated 101 sampleIndex sampleRegion
           (removelast (Index.encode sampleIndex))
           [last (Index.encode sampleIndex) Byte.x00]).
  - exact sampleIndex_wf.
  - exact sampleRegion_wf.
  - vm_compute. lia.
  - vm_compute. reflexivity.
  - discriminate.
Defined.

(** ** The header chunk and the data chunks *)

(** X7. On a well-formed index the header chunk ends no later than any
    chunk returned after it starts: the header never runs into the data
    selected for the region. *)
Theorem Read_header_before_data (fuel : nat) (i : Index.t)
    (region : genomics.Region) (rest : list byte) :
  Index.wf i -> wfRegion region ->
  (fuelFor (genomics.Start region) (genomics.End region) (Index.depth i)
   <= fuel)%nat ->
  exists (header : bgzf.Chunk) (data : list bgzf.Chunk),
    bcf.ReadChunks fuel (Index.encode i ++ rest) region = Ok (header :: data)
    /\ bgzf.Start header = 0
    /\ Forall (fun c => bgzf.End header <= bgzf.Start c) data.
Proof.
  intros Hwf (Href & Hstart & Hend) Hfuel.
  assert (Hd : 0 <= Index.depth i < 2 ^ 31) by apply Hwf.
  destruct (BinsForRange_returns fuel (genomics.Start region)
              (genomics.End region) (Index.minShift i) (Index.depth i))
    as [candidates Hbins]; try lia.
  exists (bgzf.mkChunk 0 (Index.minimum bgzf.LastAddress (Index.dataStarts i))),
         (Index.emitted region candidates 0 (Index.refs i)).
  split; [now apply Read_encode |].
  split; [reflexivity |]. cbn [bgzf.End].
  destruct (minimum_spec (Index.dataStarts i) bgzf.LastAddress)
    as (_ & Hall & _).
  rewrite Forall_forall in Hall.
  apply Forall_forall. intros c Hc.
  apply In_emitted in Hc.
  destruct Hc as (k & bins & b & Hk & Hb & Hcb & Hmeta & _).
  apply Hall. unfold Index.dataStarts.
  apply in_flat_map. exists bins. split; [now apply nth_error_In in Hk |].
  apply in_flat_map. exists b. split; [exact Hb |].
  unfold Index.startsOfBin.
  destruct (Z.eqb_spec (Index.id b) csi.MetadataBeanID); [contradiction |].
  now apply in_map.
Qed.

Lemma Read_header_before_data_witness :
  exists (header : bgzf.Chunk) (data : list bgzf.Chunk),
    bcf.ReadChunks 101 (Index.encode sampleIndex ++ []) sampleRegion
    = Ok (header :: data)
    /\ bgzf.Start header = 0
    /\ Forall (fun c => bgzf.End header <= bgzf.Start c) data.
Proof.
  apply (Read_header_before_data 101 sampleIndex sampleRegion []);
    [exact sampleIndex_wf | exact sampleRegion_wf | vm_compute; lia].
Defined.

(** ** Queries of a whole reference *)

Lemma emittedOfBin_whole (referenceID reference : Z) (candidates : list Z)
    (b : Index.Bin) :
  0 <= referenceID ->
  Index.emittedOfBin (genomics.mkRegion referenceID 0 0) candidates reference b
  = if reference =? referenceID then recordsOfBin b else [].
Proof.
  intros Hr. unfold Index.emittedOfBin, recordsOfBin, csi.RegionContainsBin.
  cbn [genomics.ReferenceID genomics.Start genomics.End].
  destruct (Index.id b =? csi.MetadataBeanID);
    [now destruct (reference =? referenceID) |].
  destruct (Z.geb_spec referenceID 0); [| lia].
  now destruct (reference =? referenceID).
Qed.

Lemma emitted_whole (referenceID : Z) (candidates : list Z)
    (rs : list (list Index.Bin)) :
  0 <= referenceID ->
  forall reference : Z,
    reference <= referenceID ->
    Index.emitted (genomics.mkRegion referenceID 0 0) candidates reference rs
    = flat_map recordsOfBin (nth (Z.to_nat (referenceID - reference)) rs []).
Proof.
  intros Hr.
  assert (Hpast : forall rs' reference,
             referenceID < reference ->
             Index.emitted (genomics.mkRegion referenceID 0 0) candidates
               reference rs' = []).
  { induction rs' as [| bs rs' IH]; intros reference Hlt; [reflexivity |].
    cbn [Index.emitted]. rewrite IH by lia. rewrite app_nil_r.
    induction bs as [| b bs IHb]; [reflexivity |].
    cbn [flat_map]. rewrite emittedOfBin_whole by assumption.
    destruct (Z.eqb_spec reference referenceID); [lia | exact IHb]. }
  induction rs as [| bs rs IH]; intros reference Hle.
  - cbn [Index.emitted]. now destruct (Z.to_nat (referenceID - reference)).
  - cbn [Index.emitted].
    assert (Hbs : flat_map (Index.emittedOfBin
                              (genomics.mkRegion referenceID 0 0) candidates
                              reference) bs
                  = if reference =? referenceID
                    then flat_map recordsOfBin bs else []).
    { induction bs as [| b bs IHb];
        [now destruct (reference =? referenceID) |].
      cbn [flat_map]. rewrite emittedOfBin_whole, IHb by assumption.
      now destruct (reference =? referenceID). }
    rewrite Hbs. destruct (Z.eqb_spec reference referenceID) as [-> | Hne].
    + rewrite Hpast by lia. rewrite Z.sub_diag, app_nil_r. reflexivity.
    + rewrite IH by lia. cbn [app].
      replace (Z.to_nat (referenceID - reference))
        with (S (Z.to_nat (referenceID - (reference + 1)))) by lia.
      reflexivity.
Qed.

(** X8. A query of a whole reference (no start, no end) returns, after the
    header chunk, the chunk records of the bins of that reference alone, in
    file order: every record that ends at or after the offset of its bin,
    the metadata bins left out, whatever the candidate bins are. *)
Theorem Read_whole_reference (fuel : nat) (i : Index.t) (referenceID : Z)
    (rest : list byte) :
  Index.wf i -> 0 <= referenceID < 2 ^ 31 ->
  (fuelFor 0 0 (Index.depth i) <= fuel)%nat ->
  exists header : bgzf.Chunk,
    bcf.ReadChunks fuel (Index.encode i ++ rest)
      (genomics.mkRegion referenceID 0 0)
    = Ok (header
          :: flat_map recordsOfBin
               (nth (Z.to_nat referenceID) (Index.refs i) [])).
Proof.
  intros Hwf Hr Hfuel.
  assert (Hd : 0 <= Index.depth i < 2 ^ 31) by apply Hwf.
  destruct (BinsForRange_returns fuel 0 0 (Index.minShift i) (Index.depth i))
    as [candidates Hbins]; try lia.
  eexists.
  rewrite (Read_encode fuel i (genomics.mkRegion referenceID 0 0) rest
             candidates Hwf Hbins).
  rewrite emitted_whole by lia. now rewrite Z.sub_0_r.
Qed.

Lemma Read_whole_reference_witness :
  exists header : bgzf.Chunk,
    bcf.ReadChunks (fuelFor 0 0 5) (Index.encode sampleIndex ++ [])
      (genomics.mkRegion 0 0 0)
    = Ok [header; bgzf.mkChunk 500 600].
Proof.
  destruct (Read_whole_reference (fuelFor 0 0 5) sampleIndex 0 [])
    as [header Hread].
  - exact sampleIndex_wf.
  - lia.
  - apply le_n.
  - exists header. exact Hread.
Defined.

(** ** [contigDefinesReference] *)

Section ContigDefinesReference.

Local Open Scope string_scope.

(** X9. [contigDefinesReference] answers true only on a line that holds
    ["ID=" + refName] followed by [','] or ['>'], it panics only on a line
    that ends with ["ID=" + refName], and it never returns an error. *)
Theorem contigDefinesReference_sound (contig refName : string) :
  (bcf.contigDefinesReference contig refName = Ok true ->
   exists pre post c,
     contig = pre ++ "ID=" ++ refName ++ String c post
     /\ (c = "," \/ c = ">")%char)
  /\ (forall msg,
        bcf.contigDefinesReference contig refName = Panic msg ->
        exists pre, contig = pre ++ "ID=" ++ refName)
  /\ (forall e, bcf.contigDefinesReference contig refName <> Err e)
  /\ bcf.contigDefinesReference contig refName <> OutOfFuel.
Proof.
  unfold bcf.contigDefinesReference.
  destruct (String.index 0 ("ID=" ++ refName) contig) as [i |] eqn:Hindex.
  2:{ repeat split; intros; discriminate. }
  apply index_correct1 in Hindex.
  change ("ID=" ++ refName) with (String "I" ("D=" ++ refName)) in Hindex.
  apply substring_at in Hindex.
  destruct Hindex as (pre & post & -> & <-).
  change (String "I" ("D=" ++ refName) ++ post)
    with (("ID=" ++ refName) ++ post).
  replace (String.length pre + String.length "ID=" + String.length refName)%nat
    with (String.length pre + String.length ("ID=" ++ refName))%nat
    by (cbn [append String.length]; lia).
  rewrite get_append.
  replace (String.length ("ID=" ++ refName))
    with (String.length ("ID=" ++ refName) + 0)%nat by lia.
  rewrite get_append.
  destruct post as [| c post]; cbn [String.get].
  - repeat split; try (intros; discriminate).
    intros msg _. exists pre. now rewrite append_nil_r.
  - repeat split; try (intros; discriminate);
      try (destruct (negb (c =? ",")%char && negb (c =? ">")%char);
           intros; discriminate).
    intros H. exists pre, post, c. split; [reflexivity |].
    destruct (Ascii.eqb_spec c ","); [now left |].
    destruct (Ascii.eqb_spec c ">"); [now right |].
    cbn [negb andb] in H. discriminate.
Qed.

(** X10. On a line whose text before ["ID=" + refName] has no capital I,
    the answer is decided by what follows the name: true when it is [','] or
    ['>'], false when it is another character, and a panic when the line
    ends there. *)
Theorem contigDefinesReference_exact (pre refName : string) :
  hasChar "I" pre = false ->
  (forall c post,
     bcf.contigDefinesReference (pre ++ "ID=" ++ refName ++ String c post)
       refName
     = Ok (Ascii.eqb c "," || Ascii.eqb c ">"))
  /\ bcf.contigDefinesReference (pre ++ "ID=" ++ refName) refName
     = Panic "index out of range".
Proof.
  intros Hpre.
  assert (Hget : forall tail,
             String.get (String.length pre + String.length "ID="
                         + String.length refName)
               (pre ++ "ID=" ++ refName ++ tail)
             = String.get 0 tail).
  { intros tail.
    replace (String.length pre + String.length "ID=" + String.length refName)%nat
      with (String.length pre + (3 + (String.length refName + 0)))%nat
      by (cbn [String.length]; lia).
    rewrite get_append. cbn [append Nat.add String.get].
    apply get_append. }
  split.
  - intros c post. unfold bcf.contigDefinesReference.
    change ("ID=" ++ refName ++ String c post)
      with (String "I" ("D=" ++ refName) ++ String c post).
    change ("ID=" ++ refName) with (String "I" ("D=" ++ refName)) at 1.
    rewrite index_after by assumption.
    change (String "I" ("D=" ++ refName) ++ String c post)
      with ("ID=" ++ refName ++ String c post).
    rewrite Hget. cbn [String.get].
    now destruct (Ascii.eqb c ","), (Ascii.eqb c ">").
  - unfold bcf.contigDefinesReference.
    pose proof (index_after "I" ("D=" ++ refName) pre "" Hpre) as Hindex.
    pose proof (Hget "") as Hnone.
    rewrite !append_nil_r in Hindex. rewrite append_nil_r in Hnone.
    change (String "I" ("D=" ++ refName)) with ("ID=" ++ refName) in Hindex.
    rewrite Hindex, Hnone. reflexivity.
Qed.

Lemma contigDefinesReference_exact_witness :
  (forall c post,
     bcf.contigDefinesReference
       ("##contig=<" ++ "ID=" ++ "chr1" ++ String c post) "chr1"
     = Ok (Ascii.eqb c "," || Ascii.eqb c ">"))
  /\ bcf.contigDefinesReference ("##contig=<" ++ "ID=" ++ "chr1") "chr1"
     = Panic "index out of range".
Proof.
  apply (contigDefinesReference_exact "##contig=<" "chr1"). reflexivity.
Defined.

End ContigDefinesReference.

(** ** What [GetReferenceID] returns on any stream *)

Lemma scanLoop_nonneg (final : bool) (tokens : list string)
    (referenceName : string) :
  forall (id : Z) (contigsFound : bool) (v : Z),
    0 <= id ->
    bcf.scanLoop final tokens referenceName id contigsFound = Ok v -> 0 <= v.
Proof.
  induction tokens as [| raw tokens IH]; intros id contigsFound v Hid H;
    [discriminate |].
  cbn [bcf.scanLoop] in H.
  destruct (bcf.tooLong _ raw); [discriminate |].
  destruct (String.prefix "##contig" (bcf.dropCR raw)).
  - destruct (bcf.contigDefinesReference (bcf.dropCR raw) referenceName)
      as [[|] | e | msg |]; try discriminate.
    + destruct (bcf.getIdx (bcf.dropCR raw)) as [idx | e | msg |];
        try discriminate.
      destruct (Z.gtb_spec idx (-1)); injection H as <-; lia.
    + apply (IH (id + 1) true v); [lia | exact H].
  - destruct contigsFound; [discriminate |].
    now apply (IH id false v).
Qed.

(** X11. Whatever the stream and the name are, an id that [GetReferenceID]
    returns is not negative: it is an [IDX] value above -1 or the count of
    the contig lines passed. *)
Theorem GetReferenceID_nonneg (bcfFile : list byte) (referenceName : string)
    (v : Z) :
  bcf.GetReferenceID bcfFile referenceName = Ok v -> 0 <= v.
Proof.
  unfold bcf.GetReferenceID, bcf.GetReferenceIDFrom.
  destruct (binary.bind _ _ bcfFile) as [[length rest] | e | msg |];
    try discriminate.
  apply scanLoop_nonneg. lia.
Qed.

Lemma GetReferenceID_nonneg_witness :
  bcf.GetReferenceID (bcfStream sampleHeaderNegativeIdx []) "chr1" = Ok 1
  /\ 0 <= 1.
Proof.
  assert (H : bcf.GetReferenceID (bcfStream sampleHeaderNegativeIdx []) "chr1"
              = Ok 1) by (vm_compute; reflexivity).
  split; [exact H |].
  exact (GetReferenceID_nonneg (bcfStream sampleHeaderNegativeIdx []) "chr1" 1
           H).
Defined.

(** The end of the stream matters to the scan only when the last token
    just fills the buffer. *)
Lemma scanLoop_final (final : bool) (referenceName : string)
    (tokens : list string) :
  forall (id : Z) (contigsFound : bool),
    (final = true ->
     Z.of_nat (String.length (last tokens EmptyString))
     <> bcf.MaxScanTokenSize) ->
    bcf.scanLoop final tokens referenceName id contigsFound
    = bcf.scanLoop false tokens referenceName id contigsFound.
Proof.
  induction tokens as [| raw tokens IH]; intros id contigsFound Hlast;
    [reflexivity |].
  cbn [bcf.scanLoop].
  assert (Htoo : bcf.tooLong
                   (final && match tokens with [] => true | _ :: _ => false end)
                   raw
                 = bcf.tooLong false raw).
  { destruct final; [| reflexivity]. destruct tokens; [| reflexivity].
    specialize (Hlast eq_refl). cbn [last] in Hlast.
    unfold bcf.tooLong. cbn [andb].
    destruct (Z.ltb_spec bcf.MaxScanTokenSize (Z.of_nat (String.length raw)));
      destruct (Z.leb_spec bcf.MaxScanTokenSize
                  (Z.of_nat (String.length raw)));
      try reflexivity; lia. }
  rewrite Htoo. cbn [andb].
  assert (Hrest : final = true ->
                  Z.of_nat (String.length (last tokens EmptyString))
                  <> bcf.MaxScanTokenSize
                  \/ tokens = []).
  { intros Hfinal. destruct tokens as [| t tokens]; [now right |].
    left. apply (Hlast Hfinal). }
  assert (Hloop : forall id' found,
             bcf.scanLoop final tokens referenceName id' found
             = bcf.scanLoop false tokens referenceName id' found).
  { intros id' found. destruct final; [| reflexivity].
    destruct (Hrest eq_refl) as [Hne | ->]; [| reflexivity].
    apply IH. intros _. exact Hne. }
  now rewrite !Hloop.
Qed.

Lemma rawLines_unterminated (header : string) :
  bcf.unterminated header = true -> bcf.rawLines header = bcf.pieces header.
Proof.
  unfold bcf.unterminated, bcf.rawLines.
  now destruct (last (bcf.pieces header) EmptyString).
Qed.

Lemma pieces_single (raw : string) :
  hasChar "010" raw = false -> bcf.pieces raw = [raw].
Proof.
  induction raw as [| c raw IH]; intros Hno; [reflexivity |].
  cbn [hasChar] in Hno. apply orb_false_iff in Hno. destruct Hno as [Hc Hno].
  cbn [bcf.pieces]. rewrite Hc. now rewrite (IH Hno).
Qed.

(** The scan of a header that is one line without a line feed, of just the
    size of the scanner's buffer. *)
Lemma scanLoop_full_buffer (final : bool) (raw referenceName : string) :
  Z.of_nat (String.length raw) = bcf.MaxScanTokenSize ->
  (final = false ->
   bcf.scanLoop final [raw] referenceName 0 false
   = Err (Errorf "scanning header" ErrTooLong))
  /\ (final = true ->
      bcf.scanLoop final [raw] referenceName 0 false
      <> Err (Errorf "scanning header" ErrTooLong)).
Proof.
  intros Hlen. split; intros ->; cbn [bcf.scanLoop andb]; unfold bcf.tooLong;
    rewrite Hlen.
  - now rewrite Z.leb_refl.
  - rewrite Z.ltb_irrefl.
    destruct (String.prefix "##contig" (bcf.dropCR raw)); [| discriminate].
    unfold bcf.contigDefinesReference.
    destruct (String.index 0 _ (bcf.dropCR raw)); [| discriminate].
    destruct (String.get _ (bcf.dropCR raw)) as [nextChr |];
      [| discriminate].
    destruct (negb (nextChr =? ",")%char && negb (nextChr =? ">")%char);
      [discriminate |].
    destruct (bcf.getIdx (bcf.dropCR raw)) as [idx | e | msg |];
      try discriminate.
    destruct (idx >? -1); discriminate.
Qed.

(** X12. The scanner is limited to the header the stream declares, so the
    bytes after the header are never read: once a byte follows the header,
    neither which bytes follow nor how the stream ends changes the result.
    Whether a byte follows at all matters in one case only, a header that
    ends in a line without a line feed which just fills the scanner's
    buffer; for every other header the result is the same with and without
    bytes after it. In that case, shown for a header of that one line, the
    line is a token when the stream ends with it and the end is reported
    together with its last bytes, and the scan stops with [ErrTooLong] when
    a byte follows or the end is reported on its own. *)
Theorem GetReferenceID_header_only (eofWithData eofWithData' : bool)
    (header rest rest' : list byte) (referenceName : string) :
  Z.of_nat (List.length header) < 2 ^ 32 ->
  (rest <> [] ->
   bcf.GetReferenceIDFrom eofWithData (bcfStream header rest) referenceName
   = bcf.GetReferenceIDFrom false (bcfStream header []) referenceName)
  /\ (fillsBuffer (string_of_list_byte header) = false ->
      bcf.GetReferenceIDFrom eofWithData (bcfStream header rest) referenceName
      = bcf.GetReferenceIDFrom eofWithData' (bcfStream header rest')
          referenceName)
  /\ (forall raw : string,
        header = list_byte_of_string raw ->
        hasChar "010" raw = false ->
        Z.of_nat (String.length raw) = bcf.MaxScanTokenSize ->
        bcf.GetReferenceIDFrom true (bcfStream header []) referenceName
        <> Err (Errorf "scanning header" ErrTooLong)
        /\ bcf.GetReferenceIDFrom false (bcfStream header []) referenceName
           = Err (Errorf "scanning header" ErrTooLong)
        /\ (rest <> [] ->
            bcf.GetReferenceIDFrom eofWithData (bcfStream header rest)
              referenceName
            = Err (Errorf "scanning header" ErrTooLong))).
Proof.
  intros Hlen.
  assert (Hfollowed :
            rest <> [] ->
            bcf.GetReferenceIDFrom eofWithData (bcfStream header rest)
              referenceName
            = bcf.GetReferenceIDFrom false (bcfStream header [])
                referenceName).
  { intros Hrest.
    rewrite !(GetReferenceID_scan referenceName _ header _ Hlen).
    destruct rest; [contradiction |].
    now rewrite andb_false_r. }
  split; [exact Hfollowed | split].
  - intros Hfill.
    assert (Hscan : forall (eof : bool) (tail : list byte),
               bcf.GetReferenceIDFrom eof (bcfStream header tail) referenceName
               = bcf.scanLoop false
                   (bcf.rawLines (string_of_list_byte header)) referenceName
                   0 false).
    { intros eof tail.
      rewrite (GetReferenceID_scan referenceName eof header tail Hlen).
      apply scanLoop_final. intros Hfinal.
      apply andb_true_iff in Hfinal. destruct Hfinal as [_ Hunterminated].
      rewrite (rawLines_unterminated _ Hunterminated).
      unfold fillsBuffer in Hfill. rewrite Hunterminated in Hfill.
      cbn [andb] in Hfill. now apply Z.eqb_neq. }
    now rewrite !Hscan.
  - intros raw Hheader Hline Hfull.
    assert (Hunterminated : bcf.unterminated raw = true).
    { unfold bcf.unterminated. rewrite (pieces_single raw Hline).
      cbn [last]. destruct raw; [discriminate | reflexivity]. }
    assert (Hscan : forall eof : bool,
               bcf.GetReferenceIDFrom eof (bcfStream header []) referenceName
               = bcf.scanLoop eof [raw] referenceName 0 false).
    { intros eof.
      rewrite (GetReferenceID_scan referenceName eof header [] Hlen).
      rewrite Hheader, string_of_list_byte_of_string.
      rewrite (rawLines_unterminated raw Hunterminated), Hunterminated.
      rewrite (pieces_single raw Hline). now rewrite !andb_true_r. }
    destruct (scanLoop_full_buffer true raw referenceName Hfull)
      as [_ Haccepted].
    destruct (scanLoop_full_buffer false raw referenceName Hfull)
      as [Hstopped _].
    split; [rewrite Hscan; now apply Haccepted | split].
    + rewrite Hscan. now apply Hstopped.
    + intros Hrest. rewrite (Hfollowed Hrest), Hscan. now apply Hstopped.
Qed.

Lemma GetReferenceID_header_only_witness :
  bcf.GetReferenceIDFrom true (bcfStream sampleHeader []) "chr3"
  = bcf.GetReferenceIDFrom false
      (bcfStream sampleHeader
         (list_byte_of_string "##contig=<ID=chr3,IDX=2>")) "chr3".
Proof.
  destruct (GetReferenceID_header_only true false sampleHeader []
              (list_byte_of_string "##contig=<ID=chr3,IDX=2>") "chr3")
    as (_ & Hsame & _).
  - vm_compute. reflexivity.
  - apply Hsame. vm_compute. reflexivity.
Defined.

(** ** More on the chunk request handler *)

Section HandlerMore.

Variable Reader : Type.
Variable Merge : list bgzf.Chunk -> Z -> list bgzf.Chunk.

Import api.

Lemma handle_trace_opened (req : chunksRequest Reader)
    (failed later : list (ObjectHandle Reader)) (object : ObjectHandle Reader)
    (reader : Reader) :
  indexObjects req = failed ++ object :: later ->
  Forall failsToOpen failed -> NewReader object = inl reader ->
  handle Merge req
  = (match read req (Some reader) (region req) with
     | Ok chunks => Ok (Merge chunks (blockSizeLimit req))
     | Err e => Err (Errorf "reading index" e)
     | Panic msg => Panic msg
     | OutOfFuel => OutOfFuel
     end,
     map CallNewReader failed
     ++ [CallNewReader object; CallRead (Some reader);
         CallClose (Some reader)]).
Proof.
  intros Heq Hfail Hopen. unfold handle. rewrite Heq.
  rewrite (openLoop_success Reader failed later object reader None None []
             Hfail Hopen).
  cbn [app]. rewrite <- app_assoc.
  now destruct (read req (Some reader) (region req)).
Qed.

Lemma handle_trace_failed (req : chunksRequest Reader)
    (failed : list (ObjectHandle Reader)) (last : ObjectHandle Reader)
    (e : error) :
  indexObjects req = failed ++ [last] ->
  Forall failsToOpen failed -> NewReader last = inr e ->
  handle Merge req
  = (Err (StorageError "opening index" e),
     map CallNewReader (failed ++ [last])).
Proof.
  intros Heq Hfail Hlast. unfold handle. rewrite Heq.
  now rewrite (openLoop_failure Reader failed last e None None [] Hfail Hlast).
Qed.


End HandlerMore.


(** X14. The handler and the decoder together: when the first candidate
    that opens holds a well-formed index and the decoder of the request is
    [Read], [handle] returns the merge, under the block size limit of the
    request, of the header chunk followed by the chunks emitted for the
    region of the request. *)
Theorem handle_decodes (Merge : list bgzf.Chunk -> Z -> list bgzf.Chunk)
    (fuel : nat) (req : api.chunksRequest (list byte))
    (failed later : list (api.ObjectHandle (list byte)))
    (object : api.ObjectHandle (list byte)) (i : Index.t) (rest : list byte) :
  api.indexObjects req = failed ++ object :: later ->
  Forall api.failsToOpen failed ->
  api.NewReader object = inl (Index.encode i ++ rest) ->
  (forall csiFile region,
     api.read req (Some csiFile) region = bcf.ReadChunks fuel csiFile region) ->
  Index.wf i -> wfRegion (api.region req) ->
  (fuelFor (genomics.Start (api.region req)) (genomics.End (api.region req))
     (Index.depth i) <= fuel)%nat ->
  exists (candidates : list Z) (header : bgzf.Chunk),
    csi.BinsForRange fuel (genomics.Start (api.region req))
      (genomics.End (api.region req)) (Index.minShift i) (Index.depth i)
    = Some candidates
    /\ bgzf.Start header = 0
    /\ fst (api.handle Merge req)
       = Ok (Merge (header
                    :: Index.emitted (api.region req) candidates 0
                         (Index.refs i))
               (api.blockSizeLimit req)).
Proof.
  intros Heq Hfail Hopen Hread Hwf (Href & Hstart & Hend) Hfuel.
  assert (Hd : 0 <= Index.depth i < 2 ^ 31) by apply Hwf.
  destruct (BinsForRange_returns fuel (genomics.Start (api.region req))
              (genomics.End (api.region req)) (Index.minShift i)
              (Index.depth i)) as [candidates Hbins]; try lia.
  exists candidates,
    (bgzf.mkChunk 0 (Index.minimum bgzf.LastAddress (Index.dataStarts i))).
  split; [exact Hbins |]. split; [reflexivity |].
  rewrite (handle_trace_opened (list byte) Merge req failed later object
             (Index.encode i ++ rest) Heq Hfail Hopen).
  cbn [fst]. rewrite Hread.
  now rewrite (Read_encode fuel i (api.region req) rest candidates Hwf Hbins).
Qed.

Lemma handle_decodes_witness :
  exists (candidates : list Z) (header : bgzf.Chunk),
    csi.BinsForRange 101 0 100 14 5 = Some candidates
    /\ bgzf.Start header = 0
    /\ fst (api.handle sampleMerge sampleRequest)
       = Ok (sampleMerge
               (header
                :: Index.emitted sampleRegion candidates 0
                     (Index.refs sampleIndex))
               65536).
Proof.
  apply (handle_decodes sampleMerge 101 sampleRequest
           [api.mkObject "sample.bcf.gz.csi"
              (inr (External "object does not exist"))]
           [api.mkObject "sample.tbi" (inr (External "object does not exist"))]
           (api.mkObject "sample.csi" (inl (Index.encode sampleIndex)))
           sampleIndex []).
  - reflexivity.
  - constructor; [| constructor]. now exists (External "object does not exist").
  - cbn [api.NewReader]. now rewrite app_nil_r.
  - reflexivity.
  - exact sampleIndex_wf.
  - exact sampleRegion_wf.
  - vm_compute. lia.
Defined.

(** ** [contigField] *)

Section ContigField.

Local Open Scope string_scope.

Import bcfRevised.

Lemma length_append (a b : string) :
  String.length (a ++ b) = (String.length a + String.length b)%nat.
Proof.
  induction a as [| c a IH]; [reflexivity |].
  cbn [append String.length Nat.add]. now rewrite IH.
Qed.

Lemma append_assoc (a b c : string) : (a ++ b) ++ c = a ++ b ++ c.
Proof.
  induction a as [| x a IH]; [reflexivity |]. cbn [append]. now rewrite IH.
Qed.

Lemma skip_all (s t : string) : bcf.skip (String.length s) (s ++ t) = t.
Proof.
  rewrite <- (Nat.add_0_r (String.length s)). rewrite skip_append.
  reflexivity.
Qed.

Lemma get_lt (s : string) :
  forall n : nat, (n < String.length s)%nat -> exists c, String.get n s = Some c.
Proof.
  induction s as [| c s IH]; intros n Hn; [cbn in Hn; lia |].
  destruct n as [| n]; [now exists c |].
  cbn [String.length] in Hn. cbn [String.get]. apply IH. lia.
Qed.

(** Where [strings.Index] finds a field, the field stands. *)
Lemma index_found (a : ascii) (f input : string) (start : nat) :
  String.index 0 (String a f) input = Some start ->
  exists pre post,
    input = pre ++ String a f ++ post /\ String.length pre = start.
Proof. intros H. apply index_correct1 in H. now apply substring_at. Qed.

(** The two sides of the merge test the same thing. *)
Lemma skipOccurrence_wholeWord (start : nat) (input : string) :
  skipOccurrence start input
  = match wholeWord start input with
    | Ok w => Ok (negb w)
    | Err e => Err e
    | Panic msg => Panic msg
    | OutOfFuel => OutOfFuel
    end.
Proof.
  unfold skipOccurrence, wholeWord. destruct start as [| start];
    [reflexivity |].
  cbn [Nat.ltb Nat.leb Nat.eqb]. now destruct (String.get _ input).
Qed.

(** One turn of the loop on an input in which the field was found. *)
Lemma contigFieldLoop_turn (fuel : nat) (a : ascii) (f pre post : string) :
  String.index 0 (String a f) (pre ++ String a f ++ post)
  = Some (String.length pre) ->
  contigFieldLoop (S fuel) (pre ++ String a f ++ post) (String a f)
  = match skipOccurrence (String.length pre) (pre ++ String a f ++ post) with
    | Ok true => contigFieldLoop fuel post (String a f)
    | Ok false => Ok (cutValue post)
    | Err e => Err e
    | Panic msg => Panic msg
    | OutOfFuel => OutOfFuel
    end.
Proof.
  intros Hindex. cbn [contigFieldLoop]. rewrite Hindex.
  destruct (skipOccurrence _ _) as [skip | e | msg |]; try reflexivity.
  rewrite !length_append.
  destruct (Nat.leb_spec (String.length pre + String.length (String a f))
              (String.length pre
               + (String.length (String a f) + String.length post)));
    [| lia].
  rewrite skip_append, skip_all. destruct skip; [reflexivity |].
  unfold cutValue. now destruct (IndexAny post ",>") as [[| n] |].
Qed.

Lemma skipOccurrence_Ok (pre s : string) :
  exists skip, skipOccurrence (String.length pre) (pre ++ s) = Ok skip.
Proof.
  unfold skipOccurrence. destruct (Nat.ltb_spec 0 (String.length pre));
    [| now eexists].
  destruct (get_lt (pre ++ s) (String.length pre - 1)) as [c Hc];
    [rewrite length_append; lia |].
  rewrite Hc. now eexists.
Qed.

Lemma IndexAny_shape (s : string) :
  match IndexAny s ",>" with
  | None => noDelimiter s
  | Some n =>
      noDelimiter (String.substring 0 n s)
      /\ exists c rest,
           bcf.skip n s = String c rest /\ (c = "," \/ c = ">")%char
  end.
Proof.
  unfold noDelimiter.
  induction s as [| c s IH]; [now split |].
  cbn [IndexAny hasChar].
  destruct (Ascii.eqb_spec "," c) as [<- | Hc1].
  - cbn [orb String.substring bcf.skip hasChar]. split; [now split |].
    exists ","%char, s. now split; [| left].
  - destruct (Ascii.eqb_spec ">" c) as [<- | Hc2].
    + cbn [orb String.substring bcf.skip hasChar]. split; [now split |].
      exists ">"%char, s. now split; [| right].
    + cbn [orb]. rewrite (Ascii.eqb_sym c ","), (Ascii.eqb_sym c ">").
      rewrite (proj2 (Ascii.eqb_neq "," c) Hc1).
      rewrite (proj2 (Ascii.eqb_neq ">" c) Hc2). cbn [orb].
      destruct (IndexAny s ",>") as [n |]; cbn [option_map]; [| exact IH].
      cbn [String.substring bcf.skip hasChar].
      rewrite (Ascii.eqb_sym c ","), (Ascii.eqb_sym c ">").
      rewrite (proj2 (Ascii.eqb_neq "," c) Hc1).
      rewrite (proj2 (Ascii.eqb_neq ">" c) Hc2). cbn [orb].
      destruct n; exact IH.
Qed.

(** A value cut by [contigField] holds no delimiter, unless it begins with
    one. *)
Lemma cutValue_shape (rest : string) :
  noDelimiter (cutValue rest)
  \/ exists c rest', cutValue rest = String c rest' /\ (c = "," \/ c = ">")%char.
Proof.
  unfold cutValue. pose proof (IndexAny_shape rest) as H.
  destruct (IndexAny rest ",>") as [[| n] |].
  - right. destruct H as (_ & c & rest' & Hskip & Hc).
    cbn [bcf.skip] in Hskip. now exists c, rest'.
  - left. apply H.
  - left. exact H.
Qed.

(** The loop returns on every input once its fuel exceeds the length of
    the input, and with the same value for every such fuel. *)
Lemma contigFieldLoop_returns (a : ascii) (f : string) (n : nat) :
  forall input : string,
    (String.length input <= n)%nat ->
    exists v,
      (forall fuel, (String.length input < fuel)%nat ->
                    contigFieldLoop fuel input (String a f) = Ok v)
      /\ (noDelimiter v
          \/ exists c rest, v = String c rest /\ (c = "," \/ c = ">")%char).
Proof.
  induction n as [| n IH]; intros input Hlen.
  - destruct input; [| cbn in Hlen; lia]. exists "". split.
    + intros [| fuel] Hfuel; [lia | reflexivity].
    + left. now split.
  - destruct (String.index 0 (String a f) input) as [start |] eqn:Hindex.
    2:{ exists "". split.
        - intros [| fuel] Hfuel; [lia |]. cbn [contigFieldLoop].
          now rewrite Hindex.
        - left. now split. }
    destruct (index_found a f input start Hindex) as (pre & post & -> & <-).
    destruct (skipOccurrence_Ok pre (String a f ++ post)) as [skip Hskip].
    rewrite !length_append in Hlen. cbn [String.length] in Hlen.
    destruct skip.
    + destruct (IH post ltac:(lia)) as (v & Hv & Hshape).
      exists v. split; [| exact Hshape].
      intros [| fuel] Hfuel; [lia |].
      rewrite contigFieldLoop_turn by assumption. rewrite Hskip.
      apply Hv. rewrite !length_append in Hfuel.
      cbn [String.length] in Hfuel. lia.
    + exists (cutValue post). split; [| apply cutValue_shape].
      intros [| fuel] Hfuel; [lia |].
      rewrite contigFieldLoop_turn by assumption. now rewrite Hskip.
Qed.

Lemma field_nonempty (name : string) :
  exists a f, name ++ "=" = String a f.
Proof. destruct name as [| a name]; cbn [append]; now eexists; eexists. Qed.

End ContigField.

(** X15. [contigField] returns on every input and for every name: its loop
    ends (each turn drops at least one character), no index leaves the
    string, also on a line that ends right after the field, and the value
    returned holds neither [','] nor ['>'] unless it begins with one of
    them. *)
Theorem contigField_returns (input name : string) :
  exists v : string,
    bcfRevised.contigField input name = Ok v
    /\ (forall fuel,
          (String.length input < fuel)%nat ->
          bcfRevised.contigFieldLoop fuel input (name ++ "=") = Ok v)
    /\ (noDelimiter v
        \/ exists c rest,
             v = String c rest /\ (c = "," \/ c = ">")%char).
Proof.
  destruct (field_nonempty name) as (a & f & Hfield).
  destruct (contigFieldLoop_returns a f (String.length input) input (le_n _))
    as (v & Hv & Hshape).
  exists v. unfold bcfRevised.contigField. rewrite Hfield.
  split; [apply Hv; lia |]. split; [exact Hv | exact Hshape].
Qed.

Section ContigFieldValues.

Local Open Scope string_scope.

Import bcfRevised.

Lemma IndexAny_noDelimiter (value : string) :
  noDelimiter value ->
  IndexAny value ",>" = None
  /\ forall c tail,
       (c = "," \/ c = ">")%char ->
       IndexAny (value ++ String c tail) ",>" = Some (String.length value).
Proof.
  unfold noDelimiter.
  induction value as [| b value IH]; intros [H1 H2].
  - split; [reflexivity |]. intros c tail [-> | ->]; reflexivity.
  - cbn [hasChar] in H1, H2.
    apply orb_false_iff in H1. apply orb_false_iff in H2.
    destruct H1 as [Hb1 H1]. destruct H2 as [Hb2 H2].
    destruct (IH (conj H1 H2)) as [Hnone Hsome].
    cbn [append IndexAny hasChar String.length].
    rewrite (Ascii.eqb_sym "," b), Hb1, (Ascii.eqb_sym ">" b), Hb2.
    cbn [orb]. rewrite Hnone. split; [reflexivity |].
    intros c tail Hc. now rewrite (Hsome c tail Hc).
Qed.

Lemma substring_prefix (s t : string) :
  String.substring 0 (String.length s) (s ++ t) = s.
Proof.
  induction s as [| c s IH]; cbn [String.length append String.substring];
    [now destruct t | now rewrite IH].
Qed.

Lemma cutValue_value (value : string) :
  noDelimiter value ->
  cutValue value = value
  /\ (value <> "" ->
      forall c tail,
        (c = "," \/ c = ">")%char -> cutValue (value ++ String c tail) = value).
Proof.
  intros Hv. destruct (IndexAny_noDelimiter value Hv) as [Hnone Hsome].
  unfold cutValue. split; [now rewrite Hnone |].
  intros Hne c tail Hc. rewrite (Hsome c tail Hc).
  destruct value as [| b value]; [contradiction |].
  cbn [String.length]. apply (substring_prefix (String b value)).
Qed.

(** The first occurrence of the field, when its first character does not
    occur before it: taken when a delimiter stands before it, passed over
    otherwise. *)
Lemma contigField_at (name pre rest f : string) (d a : ascii) :
  name ++ "=" = String a f ->
  hasChar a (pre ++ String d "") = false ->
  contigField ((pre ++ String d "") ++ (name ++ "=") ++ rest) name
  = if isDelimiter d then Ok (cutValue rest) else contigField rest name.
Proof.
  intros Hfield Hno. unfold contigField. rewrite Hfield.
  pose proof (index_after a f (pre ++ String d "") rest Hno) as Hindex.
  rewrite contigFieldLoop_turn by exact Hindex.
  assert (Hskip : skipOccurrence (String.length (pre ++ String d ""))
                    ((pre ++ String d "") ++ String a f ++ rest)
                  = Ok (negb (isDelimiter d))).
  { unfold skipOccurrence. rewrite length_append. cbn [String.length].
    destruct (Nat.ltb_spec 0 (String.length pre + 1)); [| lia].
    replace (String.length pre + 1 - 1)%nat with (String.length pre + 0)%nat
      by lia.
    rewrite append_assoc, get_append. reflexivity. }
  rewrite Hskip. destruct (isDelimiter d); cbn [negb]; [reflexivity |].
  destruct (contigFieldLoop_returns a f (String.length rest) rest (le_n _))
    as (v & Hv & _).
  rewrite (Hv (S (String.length rest))) by lia.
  apply Hv. rewrite !length_append. cbn [String.length]. lia.
Qed.

End ContigFieldValues.

(** X16. On a line where the field [name=] stands after a delimiter ([','] or
    ['<']) and the first character of the field does not occur before it,
    [contigField] returns the value of the field: what follows up to the
    next [','] or ['>'], or up to the end of the line when the line is cut
    there. An empty value is the exception: the function then returns the
    whole rest of the line, delimiter included. *)
Theorem contigField_extracts (name pre value f : string) (d a : ascii) :
  (name ++ "=")%string = String a f ->
  hasChar a (pre ++ String d "") = false ->
  bcfRevised.isDelimiter d = true ->
  noDelimiter value ->
  bcfRevised.contigField
    ((pre ++ String d "") ++ (name ++ "=") ++ value)%string name = Ok value
  /\ (value <> EmptyString ->
      forall c tail,
        (c = "," \/ c = ">")%char ->
        bcfRevised.contigField
          ((pre ++ String d "") ++ (name ++ "=") ++ value ++ String c tail)%string
          name
        = Ok value)
  /\ (forall c tail,
        (c = "," \/ c = ">")%char ->
        bcfRevised.contigField
          ((pre ++ String d "") ++ (name ++ "=") ++ String c tail)%string name
        = Ok (String c tail)).
Proof.
  intros Hfield Hno Hd Hvalue.
  destruct (cutValue_value value Hvalue) as [Hcut Hcut'].
  split; [| split].
  - rewrite (contigField_at name pre value f d a Hfield Hno), Hd.
    now rewrite Hcut.
  - intros Hne c tail Hc.
    rewrite (contigField_at name pre _ f d a Hfield Hno), Hd.
    now rewrite (Hcut' Hne c tail Hc).
  - intros c tail Hc.
    rewrite (contigField_at name pre _ f d a Hfield Hno), Hd.
    destruct Hc as [-> | ->]; reflexivity.
Qed.

Lemma contigField_extracts_witness :
  bcfRevised.contigField "##contig=<ID=chr1" "ID" = Ok "chr1"%string
  /\ bcfRevised.contigField "##contig=<ID=chr1,length=248956422,IDX=0>" "ID"
     = Ok "chr1"%string
  /\ bcfRevised.contigField "##contig=<ID=,length=5>" "ID"
     = Ok ",length=5>"%string.
Proof.
  destruct (contigField_extracts "ID" "##contig=" "chr1" "D=" "<" "I")
    as (Hcut & Hvalue & Hempty);
    [reflexivity | reflexivity | reflexivity | now split |].
  split; [exact Hcut |]. split.
  - apply (Hvalue ltac:(discriminate) ","%char "length=248956422,IDX=0>"%string).
    now left.
  - apply (Hempty ","%char "length=5>"%string). now left.
Defined.

(** X17. An occurrence of [name=] inside a longer word is not the field:
    when the character before it is no delimiter, [contigField] passes it
    over and goes on with what follows it. *)
Theorem contigField_whole_word (name pre rest f : string) (x a : ascii) :
  (name ++ "=")%string = String a f ->
  hasChar a (pre ++ String x "") = false ->
  bcfRevised.isDelimiter x = false ->
  bcfRevised.contigField
    ((pre ++ String x "") ++ (name ++ "=") ++ rest)%string name
  = bcfRevised.contigField rest name.
Proof.
  intros Hfield Hno Hx.
  now rewrite (contigField_at name pre rest f x a Hfield Hno), Hx.
Qed.

Lemma contigField_whole_word_witness :
  bcfRevised.contigField "##contig=<XID=chr2,ID=chr1>" "ID"
  = bcfRevised.contigField "chr2,ID=chr1>" "ID".
Proof.
  apply (contigField_whole_word "ID" "##contig=<" "chr2,ID=chr1>" "D=" "X" "I");
    reflexivity.
Defined.

(** ** The names of the index *)

(** X18. [GetIndexNames] always gives two candidates, in this order: the
    object name with [.csi] added, then the name with a final [.bcf.gz]
    replaced by [.csi]; for an object that does not end in [.bcf.gz] the
    second candidate repeats the first. *)
Theorem GetIndexNames_spec (object : string) :
  (forall base : string,
     object = (base ++ ".bcf.gz")%string ->
     bcfRevised.GetIndexNames object
     = [(base ++ ".bcf.gz.csi")%string; (base ++ ".csi")%string])
  /\ (bcfRevised.HasSuffix object ".bcf.gz" = false ->
      bcfRevised.GetIndexNames object
      = [(object ++ ".csi")%string; (object ++ ".csi")%string])
  /\ List.length (bcfRevised.GetIndexNames object) = 2%nat.
Proof.
  split; [| split; [| reflexivity]].
  - intros base ->. unfold bcfRevised.GetIndexNames, bcfRevised.TrimSuffix,
      bcfRevised.HasSuffix.
    rewrite length_append.
    replace (String.length base + String.length ".bcf.gz"
             - String.length ".bcf.gz")%nat
      with (String.length base) by lia.
    rewrite skip_all, String.eqb_refl, substring_prefix.
    destruct (Nat.leb_spec (String.length ".bcf.gz")
                (String.length base + String.length ".bcf.gz")); [| lia].
    cbn [andb]. now rewrite append_assoc.
  - intros Hno. unfold bcfRevised.GetIndexNames, bcfRevised.TrimSuffix.
    now rewrite Hno.
Qed.
